(** * SimpleSQL: the row store, its front end and the B+tree search

    A shallow embedding of the C sources of SimpleSQL (src/table.c, the
    statement front end and include/db.h) together with the properties the
    specification states about them.

    Conventions.
    - A [uint32_t] is a [Z]; every arithmetic operation that can leave the
      range [0, 2^32) carries its reduction modulo [2^32].
    - Memory is bytes: a page is a [list byte], a pointer into the page cache
      is a page number with a byte offset, and [memcpy] is a bounds-checked
      block copy.  An access outside the addressed buffer has no defined
      behaviour in C; the embedding returns [Fault MemoryFault] there.
    - Code that stops the process or has no defined result is fallible: it
      lives in the [result] monad. *)

From Stdlib Require Import ZArith Lia List Ascii String Sorted.
From Stdlib Require Import Strings.Byte DecimalString DecimalPos.
From stdpp Require Import base option list gmap strings sorting.

Local Open Scope Z_scope.

(** ** The error monad *)

Inductive fault : Set :=
  | IOError            (* the backing file is unusable *)
  | CapacityExhausted  (* a page number beyond the page cache *)
  | MemoryFault        (* an access outside a buffer *)
  | UndefinedBehavior. (* a conversion whose result C leaves undefined *)

Inductive result (A : Type) : Type :=
  | Ok (a : A)
  | Fault (e : fault).

Arguments Ok {A} a.
Arguments Fault {A} e.

#[global] Instance result_ret : MRet result := fun A a => Ok a.

#[global] Instance result_bind : MBind result :=
  fun A B f m => match m with Ok a => f a | Fault e => Fault e end.

(** ** Bytes and unsigned 32-bit integers *)

Definition UINT32_MOD : Z := 2 ^ 32.

Definition byte_of_Z (z : Z) : byte :=
  default x00 (Byte.of_N (Z.to_N (z mod 256))).

Definition Z_of_byte (b : byte) : Z := Z.of_N (Byte.to_N b).

(** The object representation of a [uint32_t]: four bytes, least
    significant first. *)
Definition uint32_bytes (z : Z) : list byte :=
  [ byte_of_Z (Z.land z 255);
    byte_of_Z (Z.land (Z.shiftr z 8) 255);
    byte_of_Z (Z.land (Z.shiftr z 16) 255);
    byte_of_Z (Z.land (Z.shiftr z 24) 255) ].

Definition bytes_uint32 (bs : list byte) : Z :=
  match bs with
  | [b0; b1; b2; b3] =>
      Z.lor (Z_of_byte b0)
        (Z.lor (Z.shiftl (Z_of_byte b1) 8)
           (Z.lor (Z.shiftl (Z_of_byte b2) 16) (Z.shiftl (Z_of_byte b3) 24)))
  | _ => 0
  end.

(** ** Buffers *)

Definition read_bytes (buf : list byte) (off n : Z) : result (list byte) :=
  if bool_decide (0 <= off /\ 0 <= n /\ off + n <= Z.of_nat (length buf))
  then Ok (take (Z.to_nat n) (drop (Z.to_nat off) buf))
  else Fault MemoryFault.

(** [buf] with [data] written over the bytes from [off] on. *)
Definition splice (buf : list byte) (off : nat) (data : list byte) : list byte :=
  take off buf ++ data ++ drop (off + length data) buf.

Definition write_bytes (buf : list byte) (off : Z) (data : list byte) :
  result (list byte) :=
  if bool_decide (0 <= off /\ off + Z.of_nat (length data) <= Z.of_nat (length buf))
  then Ok (splice buf (Z.to_nat off) data)
  else Fault MemoryFault.

(** The first [n] bytes of a source object, as [memcpy] reads them. *)
Definition object_bytes (src : list byte) (n : Z) : result (list byte) :=
  read_bytes src 0 n.

(** ** Layout constants *)

(** #define COLUMN_USERNAME_SIZE 32 / #define COLUMN_EMAIL_SIZE 255 *)
Definition COLUMN_USERNAME_SIZE : Z := 32.
Definition COLUMN_EMAIL_SIZE : Z := 255.

(** #define TABLE_MAX_PAGES 100 *)
Definition TABLE_MAX_PAGES : Z := 100.

(** Modelled from the spec: the file that defines the [extern const]
    layout constants is not among the sources.  The sizes are those of the
    fields of [Row] ([size_of_attribute]: a [uint32_t], [char[32+1]],
    [char[255+1]]); the offsets are contiguous in the order id, username,
    email; a page has 4096 bytes. *)
Definition ID_SIZE : Z := 4.
Definition USERNAME_SIZE : Z := COLUMN_USERNAME_SIZE + 1.
Definition EMAIL_SIZE : Z := COLUMN_EMAIL_SIZE + 1.
Definition ID_OFFSET : Z := 0.
Definition USERNAME_OFFSET : Z := ID_OFFSET + ID_SIZE.
Definition EMAIL_OFFSET : Z := USERNAME_OFFSET + USERNAME_SIZE.
Definition ROW_SIZE : Z := ID_SIZE + USERNAME_SIZE + EMAIL_SIZE.
Definition PAGE_SIZE : Z := 4096.

(** ** Rows *)

Record Row : Set := mkRow {
  id : Z;                 (* uint32_t id *)
  username : list byte;   (* char username[COLUMN_USERNAME_SIZE + 1] *)
  email : list byte       (* char email[COLUMN_EMAIL_SIZE + 1] *)
}.

(** What the C type [Row] guarantees of every value. *)
Definition valid_row (r : Row) : Prop :=
  0 <= id r < UINT32_MOD /\
  Z.of_nat (length (username r)) = USERNAME_SIZE /\
  Z.of_nat (length (email r)) = EMAIL_SIZE.

(** ** The pager's memory *)

Record Pager : Set := mkPager {
  file_descriptor : list byte;         (* the bytes of the open file *)
  file_length : Z;
  pages : list (option (list byte))    (* void* pages[TABLE_MAX_PAGES] *)
}.

(** A [void*] into the page cache. *)
Record ptr : Set := mkPtr { ptr_page : Z; ptr_offset : Z }.

Definition ptr_add (p : ptr) (d : Z) : ptr :=
  {| ptr_page := ptr_page p; ptr_offset := ptr_offset p + d |}.

Definition cached_page (pager : Pager) (page_num : Z) : option (list byte) :=
  if bool_decide (0 <= page_num)
  then mjoin (pages pager !! Z.to_nat page_num)
  else None.

Definition set_page (pager : Pager) (page_num : Z) (page : list byte) : Pager :=
  {| file_descriptor := file_descriptor pager;
     file_length := file_length pager;
     pages := <[Z.to_nat page_num := Some page]> (pages pager) |}.

(** memcpy(dst, src, n) with [dst] in the page cache. *)
Definition memcpy_to (pager : Pager) (dst : ptr) (src : list byte) (n : Z) :
  result Pager :=
  match cached_page pager (ptr_page dst) with
  | Some page =>
      data ← object_bytes src n;
      page' ← write_bytes page (ptr_offset dst) data;
      Ok (set_page pager (ptr_page dst) page')
  | None => Fault MemoryFault
  end.

(** memcpy(dst, src, n) with [src] in the page cache; the copied bytes. *)
Definition memcpy_from (pager : Pager) (src : ptr) (n : Z) : result (list byte) :=
  match cached_page pager (ptr_page src) with
  | Some page => read_bytes page (ptr_offset src) n
  | None => Fault MemoryFault
  end.

(** ** Row codec (src/table.c) *)

Definition serialize_row (source : Row) (destination : ptr) (pager : Pager) :
  result Pager :=
  pager ← memcpy_to pager (ptr_add destination ID_OFFSET)
            (uint32_bytes (id source)) ID_SIZE;
  pager ← memcpy_to pager (ptr_add destination USERNAME_OFFSET)
            (username source) USERNAME_SIZE;
  memcpy_to pager (ptr_add destination EMAIL_OFFSET) (email source) EMAIL_SIZE.

Definition deserialize_row (source : ptr) (pager : Pager) : result Row :=
  id_bytes ← memcpy_from pager (ptr_add source ID_OFFSET) ID_SIZE;
  username_bytes ← memcpy_from pager (ptr_add source USERNAME_OFFSET) USERNAME_SIZE;
  email_bytes ← memcpy_from pager (ptr_add source EMAIL_OFFSET) EMAIL_SIZE;
  Ok {| id := bytes_uint32 id_bytes;
        username := username_bytes;
        email := email_bytes |}.

(** print_row: printf("(%d, %s, %s)\n", row->id, row->username, row->email).
    [%d] reads the id as an [int]; [%s] prints the characters from the
    start of a char array up to the first NUL. *)
Definition int_of_uint32 (z : Z) : Z :=
  if bool_decide (z < 2 ^ 31) then z else z - UINT32_MOD.

(** The C string that starts at a place in memory: [memory] holds the
    bytes from that place to the end of the object it lies in.  The read
    does not stop at the end of a char array: it goes on into what
    follows the array in the object, and a read past the object is a
    [MemoryFault]. *)
Fixpoint c_string (memory : list byte) : result (list byte) :=
  match memory with
  | [] => Fault MemoryFault
  | c :: rest =>
      if Byte.eqb c x00 then Ok []
      else chars ← c_string rest; Ok (c :: chars)
  end.

Definition string_of_bytes (bs : list byte) : string :=
  string_of_list_ascii (map ascii_of_byte bs).

(** In a [Row] the email array follows the username array, and nothing
    of the row follows the email array. *)
Definition print_row (row : Row) : result string :=
  name ← c_string (username row ++ email row);
  mail ← c_string (email row);
  Ok ("(" ++ NilZero.string_of_int (Z.to_int (int_of_uint32 (id row))) ++ ", "
        ++ string_of_bytes name ++ ", "
        ++ string_of_bytes mail ++ ")"
        ++ String "010"%char EmptyString)%string.

(** ** The pager (pager.c is not among the sources) *)

(** Modelled from the spec: pager_open, whose source file (pager.c) is
    missing.  It opens the backing file, creating it if absent, records
    the file length, and fails if the file length is not a whole multiple
    of the page size. *)
Definition pager_open (fs : gmap string (list byte)) (filename : string) :
  result (gmap string (list byte) * Pager) :=
  let contents := default [] (fs !! filename) in
  let fs := <[filename := contents]> fs in
  let file_length := Z.of_nat (length contents) in
  if bool_decide (file_length mod PAGE_SIZE = 0)
  then Ok (fs, {| file_descriptor := contents;
                  file_length := file_length;
                  pages := replicate (Z.to_nat TABLE_MAX_PAGES) None |})
  else Fault IOError.

(** The bytes a page has in the file: a page inside the file extent is
    read from its offset, a short tail being completed with zeros. *)
Definition page_from_file (pager : Pager) (page_num : Z) : list byte :=
  let zeroed := replicate (Z.to_nat PAGE_SIZE) x00 in
  if bool_decide (page_num * PAGE_SIZE < file_length pager)
  then
    let data := take (Z.to_nat PAGE_SIZE)
                  (drop (Z.to_nat (page_num * PAGE_SIZE)) (file_descriptor pager)) in
    data ++ drop (length data) zeroed
  else zeroed.

(** Modelled from the spec: get_page, whose source file (pager.c) is
    missing.  It returns the in-memory buffer of [page_num], which must be
    below the fixed page cap (a fatal capacity error otherwise); a page
    not yet cached gets a zeroed buffer, filled from the file if the page
    lies within the file extent; later calls return the cached buffer. *)
Definition get_page (pager : Pager) (page_num : Z) : result (Pager * ptr) :=
  if bool_decide (0 <= page_num < TABLE_MAX_PAGES)
  then
    let page := {| ptr_page := page_num; ptr_offset := 0 |} in
    match cached_page pager page_num with
    | Some _ => Ok (pager, page)
    | None => Ok (set_page pager page_num (page_from_file pager page_num), page)
    end
  else Fault CapacityExhausted.

(** ** The table (src/table.c) *)

Record Table : Set := mkTable {
  pager : Pager;
  num_rows : Z
}.

(** [extern const uint32_t ROWS_PER_PAGE, TABLE_MAX_ROWS]: declared in
    include/db.h, defined in a file that is not among the sources; they
    are parameters of the row store. *)
Class Limits : Set := mkLimits {
  ROWS_PER_PAGE : Z;
  TABLE_MAX_ROWS : Z
}.

(** What the code needs of the two constants: a page holds
    [ROWS_PER_PAGE] whole rows, and [TABLE_MAX_ROWS] rows fit the
    [TABLE_MAX_PAGES] pages of the cache. *)
Definition limits_ok (L : Limits) : Prop :=
  0 < ROWS_PER_PAGE /\
  ROWS_PER_PAGE * ROW_SIZE <= PAGE_SIZE /\
  0 <= TABLE_MAX_ROWS <= ROWS_PER_PAGE * TABLE_MAX_PAGES.

(** The values the derivation "page size divided by row size" gives. *)
Definition default_limits : Limits :=
  {| ROWS_PER_PAGE := PAGE_SIZE / ROW_SIZE;
     TABLE_MAX_ROWS := (PAGE_SIZE / ROW_SIZE) * TABLE_MAX_PAGES |}.

Definition db_open (fs : gmap string (list byte)) (filename : string) :
  result (gmap string (list byte) * Table) :=
  '(fs, pager) ← pager_open fs filename;
  let num_rows := file_length pager / ROW_SIZE in
  Ok (fs, {| pager := pager; num_rows := num_rows |}).

Definition row_slot `{Limits} (table : Table) (row_num : Z) : result (Table * ptr) :=
  let page_num := row_num / ROWS_PER_PAGE in
  '(pager, page) ← get_page (pager table) page_num;
  let row_offset := row_num mod ROWS_PER_PAGE in
  let byte_offset := (row_offset * ROW_SIZE) mod UINT32_MOD in
  Ok ({| pager := pager; num_rows := num_rows table |}, ptr_add page byte_offset).

(** ** Statements (include/db.h) *)

(** ExecuteResult as the later of the two headers has it; the header of
    the row store has no EXECUTE_DUPLICATE_KEY. *)
Inductive ExecuteResult : Set :=
  | EXECUTE_SUCCESS
  | EXECUTE_DUPLICATE_KEY
  | EXECUTE_TABLE_FULL.

Inductive PrepareResult : Set :=
  | PREPARE_SUCCESS
  | PREPARE_SYNTAX_ERROR
  | PREPARE_NEGATIVE_ID
  | PREPARE_STRING_TOO_LONG
  | PREPARE_UNRECOGNIZED_STATEMENT.

Inductive StatementType : Set :=
  | STATEMENT_INSERT
  | STATEMENT_SELECT.

Record Statement : Set := mkStatement {
  type : StatementType;
  row_to_insert : Row
}.

Record InputBuffer : Set := mkInputBuffer {
  buffer : string;        (* the line, a C string *)
  buffer_length : Z;
  input_length : Z
}.

(** ** The C library calls of the front end *)

Definition char_code (c : ascii) : Z := Z.of_N (N_of_ascii c).

(** The characters of a C string: those before the first NUL. *)
Fixpoint c_chars (s : string) : list ascii :=
  match s with
  | EmptyString => []
  | String c rest => if (char_code c =? 0) then [] else c :: c_chars rest
  end.

Fixpoint strncmp (s1 s2 : list ascii) (n : nat) : Z :=
  match n with
  | O => 0
  | S n' =>
      match s1, s2 with
      | [], [] => 0
      | [], c2 :: _ => 0 - char_code c2
      | c1 :: _, [] => char_code c1
      | c1 :: rest1, c2 :: rest2 =>
          if char_code c1 =? char_code c2 then strncmp rest1 rest2 n'
          else char_code c1 - char_code c2
      end
  end.

Fixpoint strcmp (s1 s2 : list ascii) : Z :=
  match s1, s2 with
  | [], [] => 0
  | [], c2 :: _ => 0 - char_code c2
  | c1 :: _, [] => char_code c1
  | c1 :: rest1, c2 :: rest2 =>
      if char_code c1 =? char_code c2 then strcmp rest1 rest2
      else char_code c1 - char_code c2
  end.

Definition isspace (c : ascii) : bool :=
  (char_code c =? 32) || ((9 <=? char_code c) && (char_code c <=? 13)).

Definition isdigit (c : ascii) : bool :=
  (48 <=? char_code c) && (char_code c <=? 57).

Fixpoint skip_spaces (input : list ascii) : list ascii :=
  match input with
  | c :: rest => if isspace c then skip_spaces rest else input
  | [] => []
  end.

Fixpoint scan_digits (acc : Z) (input : list ascii) : Z * list ascii :=
  match input with
  | c :: rest =>
      if isdigit c then scan_digits (10 * acc + (char_code c - 48)) rest
      else (acc, input)
  | [] => (acc, [])
  end.

Fixpoint scan_word (input : list ascii) : list ascii * list ascii :=
  match input with
  | c :: rest =>
      if isspace c then ([], input)
      else let '(word, rest') := scan_word rest in (c :: word, rest')
  | [] => ([], [])
  end.

(** The outcome of one step of a scanf format. *)
Inductive conversion (A : Type) : Type :=
  | Converted (a : A) (rest : list ascii)
  | MatchingFailure
  | InputFailure.

Arguments Converted {A} a rest.
Arguments MatchingFailure {A}.
Arguments InputFailure {A}.

(** Ordinary characters of a format: each must be the next input
    character. *)
Fixpoint scan_literal (literal input : list ascii) : conversion unit :=
  match literal with
  | [] => Converted tt input
  | l :: literal' =>
      match input with
      | [] => InputFailure
      | c :: rest =>
          if char_code c =? char_code l then scan_literal literal' rest
          else MatchingFailure
      end
  end.

(** [%d]: leading white space, an optional sign, decimal digits. *)
Definition scan_int (input : list ascii) : conversion Z :=
  match skip_spaces input with
  | [] => InputFailure
  | c :: rest =>
      let '(negative, digits) :=
        if char_code c =? 45 then (true, rest)
        else if char_code c =? 43 then (false, rest)
        else (false, c :: rest) in
      match digits with
      | d :: _ =>
          if isdigit d
          then let '(v, rest') := scan_digits 0 digits in
               Converted (if negative : bool then - v else v) rest'
          else MatchingFailure
      | [] => MatchingFailure
      end
  end.

(** [%s]: leading white space, then the characters up to the next white
    space. *)
Definition scan_string (input : list ascii) : conversion (list ascii) :=
  match skip_spaces input with
  | [] => InputFailure
  | c :: rest => let '(word, rest') := scan_word (c :: rest) in Converted word rest'
  end.

Definition EOF : Z := -1.
Definition INT_MIN : Z := - 2 ^ 31.
Definition INT_MAX : Z := 2 ^ 31 - 1.

(** What [%s] stores: the characters and a terminating NUL, from the
    start of the array; storing past the array is a [MemoryFault]. *)
Definition store_string (array : list byte) (word : list ascii) : result (list byte) :=
  write_bytes array 0 (map byte_of_ascii word ++ [x00]).

(** sscanf(buffer, "insert %d %s %s", &row.id, row.username, row.email):
    the number of arguments assigned (EOF if the input ends before the
    first conversion) and the row as the assignments leave it.  [%d]
    stores an [int] into the [uint32_t] id; a number no [int] can hold
    has no defined conversion. *)
Definition sscanf_insert (input : list ascii) (row : Row) : result (Z * Row) :=
  match scan_literal (list_ascii_of_string "insert") input with
  | InputFailure => Ok (EOF, row)
  | MatchingFailure => Ok (0, row)
  | Converted _ input =>
      match scan_int input with
      | InputFailure => Ok (EOF, row)
      | MatchingFailure => Ok (0, row)
      | Converted v input =>
          if bool_decide (INT_MIN <= v <= INT_MAX)
          then
            let row := {| id := v mod UINT32_MOD;
                          username := username row; email := email row |} in
            match scan_string input with
            | Converted word input =>
                username' ← store_string (username row) word;
                let row := {| id := id row; username := username';
                              email := email row |} in
                match scan_string input with
                | Converted word _ =>
                    email' ← store_string (email row) word;
                    Ok (3, {| id := id row; username := username row;
                              email := email' |})
                | _ => Ok (2, row)
                end
            | _ => Ok (1, row)
            end
          else Fault UndefinedBehavior
      end
  end.

(** ** The statement front end *)

Definition prepare_statement (input_buffer : InputBuffer) (statement : Statement) :
  result (PrepareResult * Statement) :=
  let line := c_chars (buffer input_buffer) in
  if strncmp line (list_ascii_of_string "insert") 6 =? 0
  then
    '(args_assigned, row) ← sscanf_insert line (row_to_insert statement);
    let statement := {| type := STATEMENT_INSERT; row_to_insert := row |} in
    if args_assigned <? 3
    then Ok (PREPARE_SYNTAX_ERROR, statement)
    else Ok (PREPARE_SUCCESS, statement)
  else if strcmp line (list_ascii_of_string "select") =? 0
  then Ok (PREPARE_SUCCESS,
           {| type := STATEMENT_SELECT; row_to_insert := row_to_insert statement |})
  else Ok (PREPARE_UNRECOGNIZED_STATEMENT, statement).

Definition execute_insert `{Limits} (statement : Statement) (table : Table) :
  result (ExecuteResult * Table) :=
  if bool_decide (num_rows table >= TABLE_MAX_ROWS)
  then Ok (EXECUTE_TABLE_FULL, table)
  else
    let row_to_insert := row_to_insert statement in
    '(table', slot) ← row_slot table (num_rows table);
    pager' ← serialize_row row_to_insert slot (pager table');
    Ok (EXECUTE_SUCCESS,
        {| pager := pager'; num_rows := (num_rows table' + 1) mod UINT32_MOD |}).

(** The loop of execute_select from row [i] on; [fuel] bounds the
    iterations.  The rows are returned in the order print_row receives
    them. *)
Fixpoint select_loop `{Limits} (fuel : nat) (i : Z) (table : Table) :
  result (Table * list Row) :=
  match fuel with
  | O => Ok (table, [])
  | S fuel' =>
      if bool_decide (i < num_rows table)
      then
        '(table', slot) ← row_slot table i;
        row ← deserialize_row slot (pager table');
        '(table'', rows) ← select_loop fuel' ((i + 1) mod UINT32_MOD) table';
        Ok (table'', row :: rows)
      else Ok (table, [])
  end.

(** execute_select: the result, the table (its page cache filled by the
    scan) and the rows printed.  The loop runs [num_rows] times at most,
    which is the fuel it gets. *)
Definition execute_select `{Limits} (statement : Statement) (table : Table) :
  result (ExecuteResult * Table * list Row) :=
  '(table', rows) ← select_loop (Z.to_nat (num_rows table)) 0 table;
  Ok (EXECUTE_SUCCESS, table', rows).

(** What execute_select writes to the standard output. *)
Definition printed (rows : list Row) : list (result string) := map print_row rows.

Definition execute_statement `{Limits} (statement : Statement) (table : Table) :
  result (ExecuteResult * Table * list Row) :=
  match type statement with
  | STATEMENT_INSERT =>
      '(r, table') ← execute_insert statement table;
      Ok (r, table', [])
  | STATEMENT_SELECT => execute_select statement table
  end.

(** ** What a table holds *)

(** The bytes of a page as get_page hands them out: the cached buffer, or
    what the first access would load. *)
Definition page_view (pager : Pager) (page_num : Z) : list byte :=
  default (page_from_file pager page_num) (cached_page pager page_num).

(** The [ROW_SIZE] bytes of the slot of [row_num]. *)
Definition slot_bytes `{Limits} (table : Table) (row_num : Z) : list byte :=
  take (Z.to_nat ROW_SIZE)
    (drop (Z.to_nat ((row_num mod ROWS_PER_PAGE) * ROW_SIZE))
       (page_view (pager table) (row_num / ROWS_PER_PAGE))).

Definition bytes_of_row (r : Row) : list byte :=
  uint32_bytes (id r) ++ username r ++ email r.

Definition row_of_bytes (bs : list byte) : Row :=
  {| id := bytes_uint32 (take (Z.to_nat ID_SIZE) (drop (Z.to_nat ID_OFFSET) bs));
     username := take (Z.to_nat USERNAME_SIZE) (drop (Z.to_nat USERNAME_OFFSET) bs);
     email := take (Z.to_nat EMAIL_SIZE) (drop (Z.to_nat EMAIL_OFFSET) bs) |}.

(** The rows a table stores, by row number. *)
Definition stored_rows `{Limits} (table : Table) : list Row :=
  map (fun i => row_of_bytes (slot_bytes table (Z.of_nat i)))
    (seq 0 (Z.to_nat (num_rows table))).

(** What the C types guarantee of a pager: the cache has
    [TABLE_MAX_PAGES] entries and every cached page is a buffer of
    [PAGE_SIZE] bytes. *)
Definition pager_ok (pager : Pager) : Prop :=
  length (pages pager) = Z.to_nat TABLE_MAX_PAGES /\
  forall page_num page,
    cached_page pager page_num = Some page -> Z.of_nat (length page) = PAGE_SIZE.

(** A table whose rows are within the row limit. *)
Definition table_ok `{Limits} (table : Table) : Prop :=
  pager_ok (pager table) /\ 0 <= num_rows table <= TABLE_MAX_ROWS.

(** The table db_open makes of a file of length zero. *)
Definition empty_table : Table :=
  {| pager := {| file_descriptor := [];
                 file_length := 0;
                 pages := replicate (Z.to_nat TABLE_MAX_PAGES) None |};
     num_rows := 0 |}.

(** The statement that inserts [row]. *)
Definition insert_statement (row : Row) : Statement :=
  {| type := STATEMENT_INSERT; row_to_insert := row |}.

(** One execute_insert per row, in order: the results and the final
    table. *)
Fixpoint insert_all `{Limits} (rows : list Row) (table : Table) :
  result (list ExecuteResult * Table) :=
  match rows with
  | [] => Ok ([], table)
  | row :: rows' =>
      '(r, table') ← execute_insert (insert_statement row) table;
      '(rs, table'') ← insert_all rows' table';
      Ok (r :: rs, table'')
  end.

(** A [char] array of [size] bytes holding the C string [s], zeros after
    it (a longer string is cut to the array). *)
Definition c_array (size : nat) (s : string) : list byte :=
  take size (map byte_of_ascii (list_ascii_of_string s) ++ replicate size x00).

Definition make_row (key : Z) (name mail : string) : Row :=
  {| id := key;
     username := c_array (Z.to_nat USERNAME_SIZE) name;
     email := c_array (Z.to_nat EMAIL_SIZE) mail |}.

(** A statement object before any line is prepared into it. *)
Definition blank_statement : Statement :=
  {| type := STATEMENT_SELECT; row_to_insert := make_row 0 "" "" |}.

Definition select_statement : Statement := blank_statement.

Definition input_line (s : string) : InputBuffer :=
  {| buffer := s;
     buffer_length := Z.of_nat (String.length s) + 1;
     input_length := Z.of_nat (String.length s) |}.


(** ** The B+tree search (node.c and the cursor functions are not among
       the sources) *)

Module BTree.

(** typedef enum { NODE_INTERNAL, NODE_LEAF } NodeType; *)
Inductive NodeType : Set :=
  | NODE_INTERNAL
  | NODE_LEAF.

(** Modelled from the spec: the node a page holds, as the Node Codec
    (missing from the sources) reads it.  A leaf has its root flag, its
    parent page number and its cells (key, row); an internal node has
    cells (key, child page number) and a rightmost child. *)
Inductive Node : Set :=
  | LeafNode (is_root : bool) (parent : Z) (cells : list (Z * Row))
  | InternalNode (is_root : bool) (parent : Z) (cells : list (Z * Z))
      (right_child : Z).

Definition get_node_type (node : Node) : NodeType :=
  match node with
  | LeafNode _ _ _ => NODE_LEAF
  | InternalNode _ _ _ _ => NODE_INTERNAL
  end.

(** The pager of the tree: [pages] gives, for a page number, the node
    stored in that page. *)
Record Pager : Set := mkPager {
  file_length : Z;
  num_pages : Z;
  pages : gmap Z Node
}.

Record Table : Set := mkTable {
  pager : Pager;
  root_page_num : Z
}.

Record Cursor : Set := mkCursor {
  table : Table;
  page_num : Z;
  cell_num : Z;
  end_of_table : bool
}.

(** Modelled from the spec: get_page of the tree's pager; the page
    number must be below the fixed page cap.  A page that holds no node
    is outside every tree; the search stops there with a fault. *)
Definition get_page (pager : Pager) (page_num : Z) : result Node :=
  if bool_decide (0 <= page_num < TABLE_MAX_PAGES)
  then match pages pager !! page_num with
       | Some node => Ok node
       | None => Fault MemoryFault
       end
  else Fault CapacityExhausted.

Definition key_at (keys : list Z) (index : Z) : Z :=
  default 0 (keys !! Z.to_nat index).

(** Modelled from the spec: the binary search of a leaf, "returning the
    matching cell index, or the index where the key would be inserted if
    absent".  [fuel] bounds the iterations of the loop. *)
Fixpoint leaf_search (fuel : nat) (keys : list Z) (key : Z)
    (min_index one_past_max_index : Z) : Z :=
  match fuel with
  | O => min_index
  | S fuel' =>
      if bool_decide (one_past_max_index <= min_index) then min_index
      else
        let index := (min_index + one_past_max_index) / 2 in
        let key_at_index := key_at keys index in
        if bool_decide (key = key_at_index) then index
        else if bool_decide (key < key_at_index)
             then leaf_search fuel' keys key min_index index
             else leaf_search fuel' keys key (index + 1) one_past_max_index
  end.

(** Modelled from the spec: the binary search of an internal node, for
    "the smallest index whose key >= target" (the number of keys if none
    qualifies). *)
Fixpoint internal_search (fuel : nat) (keys : list Z) (key : Z)
    (min_index one_past_max_index : Z) : Z :=
  match fuel with
  | O => min_index
  | S fuel' =>
      if bool_decide (one_past_max_index <= min_index) then min_index
      else
        let index := (min_index + one_past_max_index) / 2 in
        let key_at_index := key_at keys index in
        if bool_decide (key_at_index >= key)
        then internal_search fuel' keys key min_index index
        else internal_search fuel' keys key (index + 1) one_past_max_index
  end.

(** Modelled from the spec: leaf_node_find (declared in db.h, defined in
    a missing file): a cursor at the cell of [key] in the leaf
    [page_num], or at the index where the key would be inserted.  The
    spec does not say what the end-of-table flag of such a cursor is; it
    is left clear. *)
Definition leaf_node_find (table : Table) (page_num key : Z) : result Cursor :=
  node ← get_page (pager table) page_num;
  match node with
  | LeafNode _ _ cells =>
      let keys := cells.*1 in
      let num_cells := Z.of_nat (length keys) in
      Ok {| table := table;
            page_num := page_num;
            cell_num := leaf_search (length keys) keys key 0 num_cells;
            end_of_table := false |}
  | InternalNode _ _ _ _ => Fault MemoryFault
  end.

(** The child an internal node sends [key] to: the child of the smallest
    index whose key >= [key], or the rightmost child if none qualifies. *)
Definition internal_node_child (cells : list (Z * Z)) (right_child key : Z) : Z :=
  let keys := cells.*1 in
  let num_keys := Z.of_nat (length keys) in
  let index := internal_search (length keys) keys key 0 num_keys in
  match cells !! Z.to_nat index with
  | Some (_, child) => child
  | None => right_child
  end.

(** The descent of the search from [page_num]; [fuel] bounds the number
    of nodes visited. *)
Fixpoint find_from (fuel : nat) (table : Table) (page_num key : Z) :
  result Cursor :=
  match fuel with
  | O => Fault CapacityExhausted
  | S fuel' =>
      node ← get_page (pager table) page_num;
      match node with
      | LeafNode _ _ _ => leaf_node_find table page_num key
      | InternalNode _ _ cells right_child =>
          find_from fuel' table (internal_node_child cells right_child key) key
      end
  end.

(** Modelled from the spec: table_find (declared in db.h, defined in a
    missing file): descend from the root to a leaf and search it.  A
    path of a tree visits every page once at most, so the page cap
    bounds the descent. *)
Definition table_find (table : Table) (key : Z) : result Cursor :=
  find_from (Z.to_nat TABLE_MAX_PAGES) table (root_page_num table) key.

Definition set_node (table : Table) (page_num : Z) (node : Node) : Table :=
  {| pager := {| file_length := file_length (pager table);
                 num_pages := num_pages (pager table);
                 pages := <[page_num := node]> (pages (pager table)) |};
     root_page_num := root_page_num table |}.

(** The cells of a leaf with [cell] written at [index], the cells from
    [index] on moved one slot to the right. *)
Definition insert_cell (cells : list (Z * Row)) (index : nat) (cell : Z * Row) :
  list (Z * Row) :=
  take index cells ++ cell :: drop index cells.

(** Modelled from the spec: the write of a leaf insert with spare
    capacity: "shift cells at/after the insertion index one slot right
    and write the new (key, row) cell in place". *)
Definition insert_at_cursor (cursor : Cursor) (key : Z) (value : Row) :
  result Table :=
  node ← get_page (pager (table cursor)) (page_num cursor);
  match node with
  | LeafNode is_root parent cells =>
      let index := Z.to_nat (cell_num cursor) in
      Ok (set_node (table cursor) (page_num cursor)
            (LeafNode is_root parent (insert_cell cells index (key, value))))
  | InternalNode _ _ _ _ => Fault MemoryFault
  end.

(** The cells a full scan visits, in its order: the leaves from left to
    right, reached through the children of every internal node and then
    its rightmost child. *)
Fixpoint scan_from (fuel : nat) (pager : Pager) (page_num : Z) :
  result (list (Z * Row)) :=
  match fuel with
  | O => Fault CapacityExhausted
  | S fuel' =>
      node ← get_page pager page_num;
      match node with
      | LeafNode _ _ cells => Ok cells
      | InternalNode _ _ cells right_child =>
          left ← (fix scan_children (cells : list (Z * Z)) :=
                    match cells with
                    | [] => Ok []
                    | (_, child) :: cells' =>
                        rows ← scan_from fuel' pager child;
                        rows' ← scan_children cells';
                        Ok (rows ++ rows')
                    end) cells;
          right ← scan_from fuel' pager right_child;
          Ok (left ++ right)
      end
  end.

Definition scan (table : Table) : result (list (Z * Row)) :=
  scan_from (Z.to_nat TABLE_MAX_PAGES) (pager table) (root_page_num table).

(** *** The invariants of the data model *)

(** The keyed children of an internal node: each is the root of a
    subtree (as [subtree_of] says) whose greatest key is the key of its
    cell.  [rows] are the cells below them from left to right, [used]
    the pages they occupy. *)
Inductive children (subtree_of : Z -> list (Z * Row) -> list Z -> Prop) :
  list (Z * Z) -> list (Z * Row) -> list Z -> Prop :=
  | children_nil : children subtree_of [] [] []
  | children_cons key child cells rows used rows' used' :
      subtree_of child rows used ->
      last (rows.*1) = Some key ->
      children subtree_of cells rows' used' ->
      children subtree_of ((key, child) :: cells) (rows ++ rows') (used ++ used').

(** [subtree pages h page_num rows used]: the page [page_num] is the
    root of a subtree all of whose leaves are [h] hops below it. *)
Fixpoint subtree (pages : gmap Z Node) (h : nat) (page_num : Z)
    (rows : list (Z * Row)) (used : list Z) : Prop :=
  match h with
  | O =>
      exists is_root parent,
        0 <= page_num < TABLE_MAX_PAGES /\
        pages !! page_num = Some (LeafNode is_root parent rows) /\
        used = [page_num]
  | S h' =>
      exists is_root parent cells right_child rows_l used_l rows_r used_r,
        0 <= page_num < TABLE_MAX_PAGES /\
        pages !! page_num = Some (InternalNode is_root parent cells right_child) /\
        children (subtree pages h') cells rows_l used_l /\
        subtree pages h' right_child rows_r used_r /\
        rows = rows_l ++ rows_r /\
        used = page_num :: used_l ++ used_r
  end.

(** A table whose pages form a B+tree of height [h] holding [rows]: the
    keys increase strictly from left to right and no page is used
    twice. *)
Definition well_formed (table : Table) (h : nat) (rows : list (Z * Row)) : Prop :=
  exists used,
    subtree (pages (pager table)) h (root_page_num table) rows used /\
    StronglySorted Z.lt (rows.*1) /\
    NoDup used.

(** [index] is where [key] belongs among the increasing [keys]: the keys
    before it are below [key], the keys from it on are not. *)
Definition insertion_point (keys : list Z) (key : Z) (index : nat) : Prop :=
  (index <= length keys)%nat /\
  (forall j k, (j < index)%nat -> keys !! j = Some k -> k < key) /\
  (forall j k, (index <= j)%nat -> keys !! j = Some k -> key <= k).

(** A tree of height one over three pages: the root (page 0) sends the
    keys up to 2 to the leaf of page 1 and the others to the leaf of
    page 2. *)
Definition example_tree : Table :=
  {| pager :=
       {| file_length := 3 * PAGE_SIZE;
          num_pages := 3;
          pages :=
            <[0 := InternalNode true 0 [(2, 1)] 2]>
              (<[1 := LeafNode false 0
                        [(1, make_row 1 "alice" "alice@example.com");
                         (2, make_row 2 "bob" "bob@example.com")]]>
                 (<[2 := LeafNode false 0
                           [(5, make_row 5 "eve" "eve@example.com")]]> ∅)) |};
     root_page_num := 0 |}.

End BTree.

(** ** The rest of the front end (command reading and meta-commands) *)

(** typedef enum { META_COMMAND_SUCCESS, META_COMMAND_UNRECOGNIZED_COMMAND }
    MetaCommandResult; *)
Inductive MetaCommandResult : Set :=
  | META_COMMAND_SUCCESS
  | META_COMMAND_UNRECOGNIZED_COMMAND.

Inductive exit_status : Set :=
  | EXIT_SUCCESS
  | EXIT_FAILURE.

(** A call that may end the process: it returns, or it calls [exit] after
    having printed [printed]. *)
Inductive outcome (A : Type) : Type :=
  | Returns (a : A)
  | Exits (printed : string) (status : exit_status).

Arguments Returns {A} a.
Arguments Exits {A} printed status.

(** The size of the object getline allocates when the buffer it is given
    cannot hold the line: the choice of the C library. *)
Class Libc : Set := mkLibc {
  getline_size : Z -> Z
}.

(** new_input_buffer: no buffer yet (NULL, which getline treats as a
    buffer of no size), lengths zero. *)
Definition new_input_buffer : InputBuffer :=
  {| buffer := EmptyString; buffer_length := 0; input_length := 0 |}.

(** print_prompt: printf("db > "). *)
Definition print_prompt : string := "db > ".

(** The characters getline takes from a stream: those up to and including
    the first newline, or all of them if there is none; and the rest of
    the stream. *)
Fixpoint read_line (stream : list ascii) : list ascii * list ascii :=
  match stream with
  | [] => ([], [])
  | c :: rest =>
      if char_code c =? 10 then ([c], rest)
      else let '(line, rest') := read_line rest in (c :: line, rest')
  end.

(** getline(&buffer, &buffer_length, stdin): the number of characters read
    (-1 at the end of the stream), the characters stored, the size of the
    buffer afterwards and the rest of the stream. *)
Definition getline `{Libc} (buffer : string) (buffer_length : Z)
    (stream : list ascii) : Z * list ascii * Z * list ascii :=
  let '(line, rest) := read_line stream in
  match line with
  | [] => (-1, list_ascii_of_string buffer, buffer_length, rest)
  | _ :: _ =>
      let bytes_read := Z.of_nat (length line) in
      let buffer_length :=
        if bytes_read + 1 <=? buffer_length then buffer_length
        else getline_size (bytes_read + 1) in
      (bytes_read, line, buffer_length, rest)
  end.

(** read_input: the rest of the standard input and the input buffer, the
    last character read replaced by the terminating NUL. *)
Definition read_input `{Libc} (stdin : list ascii) (input_buffer : InputBuffer) :
  outcome (list ascii * InputBuffer) :=
  let '(bytes_read, chars, buffer_length, stdin) :=
    getline (buffer input_buffer) (buffer_length input_buffer) stdin in
  if bytes_read <=? 0
  then Exits ("Error reading input" ++ String "010"%char EmptyString) EXIT_FAILURE
  else
    Returns (stdin,
             {| buffer := string_of_list_ascii (take (Z.to_nat (bytes_read - 1)) chars);
                buffer_length := buffer_length;
                input_length := bytes_read - 1 |}).

(** do_meta_command: ".exit" frees the input buffer and the table and ends
    the process; every other line is unrecognized.  (free_table is declared
    in include/db.h and defined in a file that is not among the sources;
    what it releases is gone with the process.) *)
Definition do_meta_command (input_buffer : InputBuffer) (table : Table) :
  outcome MetaCommandResult :=
  if strcmp (c_chars (buffer input_buffer)) (list_ascii_of_string ".exit") =? 0
  then Exits EmptyString EXIT_SUCCESS
  else Returns META_COMMAND_UNRECOGNIZED_COMMAND.

(** ** Vocabulary of the properties of the front end *)

(** The text [%d] prints for an [int]. *)
Definition int_text (v : Z) : list ascii :=
  list_ascii_of_string (NilZero.string_of_int (Z.to_int v)).

Definition whitespace (chars : list ascii) : Prop :=
  Forall (fun c => isspace c = true) chars.

(** A field of a line: one character at least, none of them white space
    or NUL. *)
Definition field (chars : list ascii) : Prop :=
  chars <> [] /\ Forall (fun c => isspace c = false /\ char_code c <> 0) chars.

(** What follows the last field read: nothing, or white space first. *)
Definition field_end (chars : list ascii) : Prop :=
  match chars with
  | [] => True
  | c :: _ => isspace c = true /\ char_code c <> 0
  end.

(** What follows the text of a number: nothing, or no digit first. *)
Definition not_digit_next (chars : list ascii) : Prop :=
  match chars with
  | [] => True
  | c :: _ => isdigit c = false
  end.

(** A char array that holds the C string [chars]: the characters, a NUL,
    and whatever the rest of the array holds. *)
Definition holds_string (array : list byte) (chars : list ascii) : Prop :=
  exists rest, array = map byte_of_ascii chars ++ x00 :: rest.



(** * Properties *)

(** ** The error monad *)

Lemma bind_Ok {A B : Type} (m : result A) (f : A -> result B) (b : B) :
  m ≫= f = Ok b <-> exists a, m = Ok a /\ f a = Ok b.
Proof.
  destruct m as [a|e]; simpl; split.
  - intros Hf. exists a. split; [reflexivity | exact Hf].
  - intros (a' & Ha & Hf). inversion Ha. subst a'. exact Hf.
  - intros Hf. discriminate Hf.
  - intros (a' & Ha & _). discriminate Ha.
Qed.

Lemma bind_Ok_eq {A B : Type} (m : result A) (f : A -> result B) (a : A) :
  m = Ok a -> m ≫= f = f a.
Proof. intros ->. reflexivity. Qed.

(** ** Bytes *)

Lemma Z_of_byte_of_Z (z : Z) :
  0 <= z < 256 -> Z_of_byte (byte_of_Z z) = z.
Proof.
  intros Hz. unfold Z_of_byte, byte_of_Z.
  rewrite Z.mod_small by lia.
  destruct (Byte.of_N (Z.to_N z)) as [b|] eqn:Hb.
  - simpl. rewrite (Byte.to_of_N _ Hb). lia.
  - apply Byte.of_N_None_iff in Hb. lia.
Qed.

Lemma land_255_range (z : Z) : 0 <= Z.land z 255 < 256.
Proof.
  change 255 with (Z.ones 8). rewrite Z.land_ones by lia.
  apply Z.mod_pos_bound. lia.
Qed.

Lemma testbit_byte_of (z n k : Z) :
  0 <= n -> 0 <= k ->
  Z.testbit (Z.shiftl (Z.land (Z.shiftr z k) 255) k) n =
  Z.testbit z n && bool_decide (k <= n < k + 8).
Proof.
  intros Hn Hk. rewrite Z.shiftl_spec by lia.
  destruct (Z.lt_ge_cases n k) as [Hlt|Hge].
  { rewrite Z.testbit_neg_r by lia.
    rewrite bool_decide_eq_false_2 by lia. symmetry. apply andb_false_r. }
  change 255 with (Z.ones 8).
  rewrite Z.land_spec, Z.shiftr_spec by lia.
  replace (n - k + k) with n by lia.
  destruct (Z.lt_ge_cases n (k + 8)) as [Hlt|Hge'].
  - rewrite Z.ones_spec_low by lia. rewrite bool_decide_eq_true_2 by lia.
    reflexivity.
  - rewrite Z.ones_spec_high by lia. rewrite bool_decide_eq_false_2 by lia.
    reflexivity.
Qed.

Lemma bytes_uint32_bytes (z : Z) :
  0 <= z < UINT32_MOD -> bytes_uint32 (uint32_bytes z) = z.
Proof.
  intros Hz. unfold uint32_bytes, bytes_uint32.
  rewrite !Z_of_byte_of_Z by apply land_255_range.
  apply Z.bits_inj'. intros n Hn.
  rewrite <- (Z.shiftl_0_r (Z.land z 255)).
  rewrite <- (Z.shiftr_0_r z) at 1.
  rewrite !Z.lor_spec, !testbit_byte_of by lia.
  destruct (Z.lt_ge_cases n 32) as [H32|H32].
  - destruct (Z.testbit z n); simpl; [|reflexivity].
    repeat case_bool_decide; simpl; try reflexivity; lia.
  - assert (Z.testbit z n = false) as ->; [|reflexivity].
    destruct (Z.eq_dec z 0) as [->|Hz0]; [apply Z.bits_0|].
    apply Z.bits_above_log2; [lia|].
    apply Z.lt_le_trans with 32; [|lia].
    apply Z.log2_lt_pow2; [lia|]. apply Hz.
Qed.

Lemma length_uint32_bytes (z : Z) : length (uint32_bytes z) = 4%nat.
Proof. reflexivity. Qed.

(** ** Buffers *)

Lemma length_splice (buf : list byte) (off : nat) (data : list byte) :
  (off + length data <= length buf)%nat ->
  length (splice buf off data) = length buf.
Proof.
  intros Hb. unfold splice.
  rewrite !length_app, length_take, length_drop. lia.
Qed.

Lemma lookup_splice (buf : list byte) (off : nat) (data : list byte) (i : nat) :
  (off + length data <= length buf)%nat ->
  splice buf off data !! i =
  if bool_decide (off <= i < off + length data)%nat
  then data !! (i - off)%nat else buf !! i.
Proof.
  intros Hb. unfold splice.
  rewrite lookup_app, lookup_take. rewrite length_take.
  destruct (decide (i < off)%nat) as [Hlt|Hge].
  - rewrite bool_decide_eq_false_2 by lia.
    destruct (buf !! i) eqn:Hi; [reflexivity|].
    apply lookup_ge_None in Hi. lia.
  - replace (off `min` length buf)%nat with off by lia.
    rewrite lookup_app.
    case_bool_decide as Hin.
    + destruct (data !! (i - off)%nat) eqn:Hd; [reflexivity|].
      apply lookup_ge_None in Hd. lia.
    + rewrite (proj2 (lookup_ge_None data (i - off)%nat)) by lia.
      rewrite lookup_drop. f_equal. lia.
Qed.

Lemma splice_read_same (buf : list byte) (off : nat) (data : list byte) :
  (off + length data <= length buf)%nat ->
  take (length data) (drop off (splice buf off data)) = data.
Proof.
  intros Hb. unfold splice.
  rewrite drop_app_length' by (rewrite length_take; lia).
  apply take_app_length.
Qed.

Lemma splice_read_other (buf : list byte) (off : nat) (data : list byte) (o n : nat) :
  (off + length data <= length buf)%nat ->
  (o + n <= off \/ off + length data <= o)%nat ->
  take n (drop o (splice buf off data)) = take n (drop o buf).
Proof.
  intros Hb Hd. apply list_eq. intros i.
  rewrite !lookup_take. destruct (decide (i < n)%nat); [|reflexivity].
  rewrite !lookup_drop, lookup_splice by exact Hb.
  rewrite bool_decide_eq_false_2 by lia. reflexivity.
Qed.

Lemma splice_splice (buf : list byte) (off : nat) (d1 d2 : list byte) :
  (off + length d1 + length d2 <= length buf)%nat ->
  splice (splice buf off d1) (off + length d1) d2 = splice buf off (d1 ++ d2).
Proof.
  intros Hb. apply list_eq. intros i.
  rewrite !lookup_splice;
    rewrite ?length_splice, ?length_app; try lia.
  repeat case_bool_decide; try lia; try reflexivity.
  - rewrite lookup_app_r by lia. f_equal. lia.
  - rewrite lookup_app_l by lia. reflexivity.
Qed.

Lemma read_bytes_Ok (buf : list byte) (off n : Z) :
  0 <= off -> 0 <= n -> off + n <= Z.of_nat (length buf) ->
  read_bytes buf off n = Ok (take (Z.to_nat n) (drop (Z.to_nat off) buf)).
Proof.
  intros H1 H2 H3. unfold read_bytes.
  rewrite bool_decide_eq_true_2 by lia. reflexivity.
Qed.

Lemma read_bytes_inv (buf : list byte) (off n : Z) (bs : list byte) :
  read_bytes buf off n = Ok bs ->
  0 <= off /\ 0 <= n /\ off + n <= Z.of_nat (length buf) /\
  bs = take (Z.to_nat n) (drop (Z.to_nat off) buf).
Proof.
  unfold read_bytes. case_bool_decide as Hb; [|discriminate].
  intros [= <-]. repeat split; lia.
Qed.

Lemma write_bytes_Ok (buf : list byte) (off : Z) (data : list byte) :
  0 <= off -> off + Z.of_nat (length data) <= Z.of_nat (length buf) ->
  write_bytes buf off data = Ok (splice buf (Z.to_nat off) data).
Proof.
  intros H1 H2. unfold write_bytes.
  rewrite bool_decide_eq_true_2 by lia. reflexivity.
Qed.

Lemma write_bytes_inv (buf : list byte) (off : Z) (data buf' : list byte) :
  write_bytes buf off data = Ok buf' ->
  0 <= off /\ off + Z.of_nat (length data) <= Z.of_nat (length buf) /\
  buf' = splice buf (Z.to_nat off) data.
Proof.
  unfold write_bytes. case_bool_decide as Hb; [|discriminate].
  intros [= <-]. repeat split; lia.
Qed.

Lemma object_bytes_whole (src : list byte) (n : Z) :
  Z.of_nat (length src) = n -> object_bytes src n = Ok src.
Proof.
  intros Hn. unfold object_bytes. rewrite read_bytes_Ok by lia.
  rewrite drop_0, take_ge by lia. reflexivity.
Qed.

Lemma take_drop_slice {A : Type} (l : list A) (off N o n : nat) :
  (o + n <= N)%nat ->
  take n (drop o (take N (drop off l))) = take n (drop (off + o) l).
Proof.
  intros Hb. apply list_eq. intros i.
  rewrite !lookup_take. destruct (decide (i < n)%nat); [|reflexivity].
  rewrite lookup_drop, lookup_take, !lookup_drop.
  destruct (decide (o + i < N)%nat); [|lia]. f_equal. lia.
Qed.

(** ** The row codec *)

Lemma valid_row_lengths (r : Row) :
  valid_row r ->
  length (username r) = 33%nat /\ length (email r) = 256%nat /\
  length (bytes_of_row r) = 293%nat.
Proof.
  intros (_ & Hu & He). unfold USERNAME_SIZE, EMAIL_SIZE,
    COLUMN_USERNAME_SIZE, COLUMN_EMAIL_SIZE in *.
  unfold bytes_of_row. rewrite !length_app, length_uint32_bytes. lia.
Qed.

Lemma row_of_bytes_of_row (r : Row) :
  valid_row r -> row_of_bytes (bytes_of_row r) = r.
Proof.
  intros Hv. destruct (valid_row_lengths r Hv) as (Hu & He & _).
  destruct Hv as (Hid & _ & _). destruct r as [i u e]. simpl in *.
  unfold row_of_bytes, bytes_of_row. simpl id. simpl username. simpl email.
  f_equal.
  - change (Z.to_nat ID_OFFSET) with 0%nat. change (Z.to_nat ID_SIZE) with 4%nat.
    rewrite drop_0.
    rewrite (take_app_length' (uint32_bytes i)) by reflexivity.
    apply bytes_uint32_bytes. exact Hid.
  - change (Z.to_nat USERNAME_OFFSET) with 4%nat.
    change (Z.to_nat USERNAME_SIZE) with 33%nat.
    rewrite (drop_app_length' (uint32_bytes i)) by reflexivity.
    apply take_app_length'. symmetry. exact Hu.
  - change (Z.to_nat EMAIL_OFFSET) with 37%nat.
    change (Z.to_nat EMAIL_SIZE) with 256%nat.
    rewrite app_assoc.
    rewrite drop_app_length' by (rewrite length_app, length_uint32_bytes; lia).
    apply take_ge. lia.
Qed.

(** ** The page cache *)

Lemma cached_page_Some (pager : Pager) (page_num : Z) (page : list byte) :
  cached_page pager page_num = Some page ->
  0 <= page_num /\ (Z.to_nat page_num < length (pages pager))%nat /\
  pages pager !! Z.to_nat page_num = Some (Some page).
Proof.
  unfold cached_page. case_bool_decide as Hn; [|discriminate].
  destruct (pages pager !! Z.to_nat page_num) as [[p|]|] eqn:Hp;
    simpl; try discriminate.
  intros [= ->]. split; [exact Hn|]. split; [|reflexivity].
  apply lookup_lt_Some in Hp. exact Hp.
Qed.

Lemma cached_set_page_eq (pager : Pager) (page_num : Z) (page : list byte) :
  0 <= page_num -> (Z.to_nat page_num < length (pages pager))%nat ->
  cached_page (set_page pager page_num page) page_num = Some page.
Proof.
  intros Hn Hlt. unfold cached_page, set_page. simpl.
  rewrite bool_decide_eq_true_2 by exact Hn.
  rewrite list_lookup_insert_eq by exact Hlt. reflexivity.
Qed.

Lemma cached_set_page_ne (pager : Pager) (page_num other : Z) (page : list byte) :
  0 <= page_num -> page_num <> other ->
  cached_page (set_page pager page_num page) other = cached_page pager other.
Proof.
  intros Hn Hne. unfold cached_page, set_page. simpl.
  case_bool_decide as Ho; [|reflexivity].
  rewrite list_lookup_insert_ne by lia. reflexivity.
Qed.

Lemma set_page_set_page (pager : Pager) (page_num : Z) (p1 p2 : list byte) :
  set_page (set_page pager page_num p1) page_num p2 = set_page pager page_num p2.
Proof.
  unfold set_page. simpl. rewrite list_insert_insert_eq. reflexivity.
Qed.

Lemma memcpy_to_spec (pager : Pager) (page_num off : Z) (page src : list byte) (n : Z) :
  cached_page pager page_num = Some page ->
  0 <= off -> off + n <= Z.of_nat (length page) ->
  Z.of_nat (length src) = n ->
  memcpy_to pager {| ptr_page := page_num; ptr_offset := off |} src n =
  Ok (set_page pager page_num (splice page (Z.to_nat off) src)).
Proof.
  intros Hc Hoff Hb Hn. unfold memcpy_to. simpl. rewrite Hc.
  rewrite (object_bytes_whole src n Hn). simpl.
  rewrite write_bytes_Ok by lia. reflexivity.
Qed.

Lemma serialize_row_spec (r : Row) (pager : Pager) (page_num off : Z)
    (page : list byte) :
  valid_row r ->
  cached_page pager page_num = Some page ->
  0 <= off -> off + ROW_SIZE <= Z.of_nat (length page) ->
  serialize_row r {| ptr_page := page_num; ptr_offset := off |} pager =
  Ok (set_page pager page_num (splice page (Z.to_nat off) (bytes_of_row r))).
Proof.
  intros Hv Hc Hoff Hb.
  destruct (valid_row_lengths r Hv) as (Hu & He & _).
  destruct (cached_page_Some _ _ _ Hc) as (Hn & Hlt & _).
  change ROW_SIZE with 293 in Hb.
  pose proof (length_uint32_bytes (id r)) as Hi.
  set (p1 := splice page (Z.to_nat (off + 0)) (uint32_bytes (id r))).
  set (p2 := splice p1 (Z.to_nat (off + 4)) (username r)).
  assert (length p1 = length page) as Hp1
    by (apply length_splice; lia).
  assert (length p2 = length page) as Hp2
    by (unfold p2; rewrite length_splice; lia).
  unfold serialize_row, ptr_add. simpl.
  change ID_OFFSET with 0. change USERNAME_OFFSET with 4.
  change EMAIL_OFFSET with 37.
  rewrite (memcpy_to_spec pager page_num (off + 0) page _ ID_SIZE Hc)
    by (change ID_SIZE with 4; lia).
  simpl. fold p1.
  rewrite (memcpy_to_spec _ page_num (off + 4) p1 _ USERNAME_SIZE)
    by (try (apply cached_set_page_eq; assumption);
        change USERNAME_SIZE with 33; lia).
  simpl. fold p2. rewrite set_page_set_page.
  rewrite (memcpy_to_spec _ page_num (off + 37) p2 _ EMAIL_SIZE)
    by (try (apply cached_set_page_eq; assumption);
        change EMAIL_SIZE with 256; lia).
  rewrite set_page_set_page. do 2 f_equal.
  unfold p2, p1, bytes_of_row.
  replace (Z.to_nat (off + 4))
    with (Z.to_nat (off + 0) + length (uint32_bytes (id r)))%nat by lia.
  rewrite splice_splice by lia.
  replace (Z.to_nat (off + 0) + length (uint32_bytes (id r)))%nat
    with (Z.to_nat (off + 37) - 33)%nat by lia.
  replace (Z.to_nat (off + 37))
    with (Z.to_nat (off + 0) + length (uint32_bytes (id r) ++ username r))%nat
    by (rewrite length_app; lia).
  rewrite splice_splice by (rewrite length_app; lia).
  rewrite <- app_assoc. f_equal. lia.
Qed.

Lemma deserialize_row_spec (pager : Pager) (page_num off : Z) (page : list byte) :
  cached_page pager page_num = Some page ->
  0 <= off -> off + ROW_SIZE <= Z.of_nat (length page) ->
  deserialize_row {| ptr_page := page_num; ptr_offset := off |} pager =
  Ok (row_of_bytes (take (Z.to_nat ROW_SIZE) (drop (Z.to_nat off) page))).
Proof.
  intros Hc Hoff Hb. change ROW_SIZE with 293 in *.
  unfold deserialize_row, memcpy_from, ptr_add. simpl. rewrite Hc.
  change ID_OFFSET with 0. change USERNAME_OFFSET with 4.
  change EMAIL_OFFSET with 37. change ID_SIZE with 4.
  change USERNAME_SIZE with 33. change EMAIL_SIZE with 256.
  rewrite !read_bytes_Ok by lia. simpl.
  unfold row_of_bytes.
  change ID_OFFSET with 0. change USERNAME_OFFSET with 4.
  change EMAIL_OFFSET with 37. change ID_SIZE with 4.
  change USERNAME_SIZE with 33. change EMAIL_SIZE with 256.
  rewrite !take_drop_slice by lia.
  rewrite <- !Z2Nat.inj_add by lia. reflexivity.
Qed.

Lemma length_page_from_file (pager : Pager) (page_num : Z) :
  Z.of_nat (length (page_from_file pager page_num)) = PAGE_SIZE.
Proof.
  unfold page_from_file. case_bool_decide.
  - rewrite length_app, length_drop, length_replicate, length_take.
    unfold PAGE_SIZE. lia.
  - rewrite length_replicate. unfold PAGE_SIZE. lia.
Qed.

Lemma length_page_view (pager : Pager) (page_num : Z) :
  pager_ok pager -> Z.of_nat (length (page_view pager page_num)) = PAGE_SIZE.
Proof.
  intros [_ Hp]. unfold page_view.
  destruct (cached_page pager page_num) as [page|] eqn:Hc; simpl.
  - exact (Hp _ _ Hc).
  - apply length_page_from_file.
Qed.

Lemma page_view_set_page_eq (pager : Pager) (page_num : Z) (page : list byte) :
  0 <= page_num -> (Z.to_nat page_num < length (pages pager))%nat ->
  page_view (set_page pager page_num page) page_num = page.
Proof.
  intros Hn Hlt. unfold page_view.
  rewrite cached_set_page_eq by assumption. reflexivity.
Qed.

Lemma page_view_set_page_ne (pager : Pager) (page_num other : Z) (page : list byte) :
  0 <= page_num -> page_num <> other ->
  page_view (set_page pager page_num page) other = page_view pager other.
Proof.
  intros Hn Hne. unfold page_view.
  rewrite cached_set_page_ne by assumption. reflexivity.
Qed.

Lemma page_view_set_page_view (pager : Pager) (page_num other : Z) :
  0 <= page_num < TABLE_MAX_PAGES -> pager_ok pager ->
  page_view (set_page pager page_num (page_view pager page_num)) other =
  page_view pager other.
Proof.
  intros Hn [Hlen _]. destruct (Z.eq_dec page_num other) as [<-|Hne].
  - apply page_view_set_page_eq; lia.
  - apply page_view_set_page_ne; lia.
Qed.

Lemma pager_ok_set_page (pager : Pager) (page_num : Z) (page : list byte) :
  pager_ok pager -> 0 <= page_num ->
  Z.of_nat (length page) = PAGE_SIZE ->
  pager_ok (set_page pager page_num page).
Proof.
  intros [Hlen Hp] Hn Hpage. split.
  - unfold set_page. simpl. rewrite length_insert. exact Hlen.
  - intros m q Hq. destruct (Z.eq_dec page_num m) as [<-|Hne].
    + destruct (cached_page_Some _ _ _ Hq) as (_ & Hlt & _).
      unfold set_page in Hlt. simpl in Hlt. rewrite length_insert in Hlt.
      rewrite cached_set_page_eq in Hq by assumption.
      injection Hq as <-. exact Hpage.
    + rewrite cached_set_page_ne in Hq by assumption. exact (Hp _ _ Hq).
Qed.

Lemma get_page_spec (pager : Pager) (page_num : Z) :
  pager_ok pager -> 0 <= page_num < TABLE_MAX_PAGES ->
  get_page pager page_num =
  Ok (set_page pager page_num (page_view pager page_num),
      {| ptr_page := page_num; ptr_offset := 0 |}).
Proof.
  intros [Hlen Hp] Hn. unfold get_page, page_view.
  rewrite bool_decide_eq_true_2 by exact Hn.
  destruct (cached_page pager page_num) as [page|] eqn:Hc; simpl; [|reflexivity].
  destruct (cached_page_Some _ _ _ Hc) as (_ & _ & Hl).
  do 2 f_equal. unfold set_page. rewrite list_insert_id by exact Hl.
  destruct pager; reflexivity.
Qed.

Lemma get_page_out_of_bounds (pager : Pager) (page_num : Z) :
  ~ (0 <= page_num < TABLE_MAX_PAGES) ->
  get_page pager page_num = Fault CapacityExhausted.
Proof.
  intros Hn. unfold get_page. rewrite bool_decide_eq_false_2 by exact Hn.
  reflexivity.
Qed.

(** ** Row slots *)

Section RowStore.
Context {L : Limits}.
Hypothesis HL : limits_ok L.

Lemma rows_per_page_pos : 0 < ROWS_PER_PAGE.
Proof. apply HL. Qed.

Lemma slot_offset_bounds (row_num : Z) :
  0 <= (row_num mod ROWS_PER_PAGE) * ROW_SIZE /\
  (row_num mod ROWS_PER_PAGE) * ROW_SIZE + ROW_SIZE <= PAGE_SIZE.
Proof.
  destruct HL as (Hpos & Hfit & _).
  pose proof (Z.mod_pos_bound row_num ROWS_PER_PAGE Hpos) as Hm.
  change ROW_SIZE with 293 in *. nia.
Qed.

Lemma slot_page_bounds (row_num : Z) :
  0 <= row_num < TABLE_MAX_ROWS ->
  0 <= row_num / ROWS_PER_PAGE < TABLE_MAX_PAGES.
Proof.
  destruct HL as (Hpos & _ & Hmax). intros Hr. split.
  - apply Z.div_pos; lia.
  - apply Z.div_lt_upper_bound; lia.
Qed.

Lemma row_slot_spec (table : Table) (row_num : Z) :
  pager_ok (pager table) ->
  0 <= row_num / ROWS_PER_PAGE < TABLE_MAX_PAGES ->
  row_slot table row_num =
  Ok ({| pager := set_page (pager table) (row_num / ROWS_PER_PAGE)
                    (page_view (pager table) (row_num / ROWS_PER_PAGE));
         num_rows := num_rows table |},
      {| ptr_page := row_num / ROWS_PER_PAGE;
         ptr_offset := 0 + (row_num mod ROWS_PER_PAGE) * ROW_SIZE |}).
Proof.
  intros Hok Hp. unfold row_slot.
  rewrite (get_page_spec _ _ Hok Hp). simpl.
  pose proof (slot_offset_bounds row_num) as Hb.
  rewrite (Z.mod_small (_ * ROW_SIZE) UINT32_MOD); [reflexivity|].
  unfold UINT32_MOD. change PAGE_SIZE with 4096 in Hb.
  change ROW_SIZE with 293 in *. lia.
Qed.

Lemma slot_bytes_written (table : Table) (row_num : Z) (data : list byte)
    (count : Z) (i : Z) :
  pager_ok (pager table) ->
  0 <= row_num / ROWS_PER_PAGE < TABLE_MAX_PAGES ->
  Z.of_nat (length data) = ROW_SIZE ->
  slot_bytes
    {| pager := set_page (pager table) (row_num / ROWS_PER_PAGE)
                  (splice (page_view (pager table) (row_num / ROWS_PER_PAGE))
                     (Z.to_nat ((row_num mod ROWS_PER_PAGE) * ROW_SIZE)) data);
       num_rows := count |} i =
  if bool_decide (i = row_num) then data else slot_bytes table i.
Proof.
  intros Hok Hp Hd. pose proof Hok as [Hlen _].
  pose proof (length_page_view _ (row_num / ROWS_PER_PAGE) Hok) as Hpv.
  pose proof (slot_offset_bounds row_num) as Hb.
  pose proof (slot_offset_bounds i) as Hbi.
  pose proof rows_per_page_pos as Hpos.
  change TABLE_MAX_PAGES with 100 in *. change PAGE_SIZE with 4096 in *.
  unfold slot_bytes. simpl pager.
  destruct (Z.eq_dec (row_num / ROWS_PER_PAGE) (i / ROWS_PER_PAGE)) as [Heq|Hne].
  - rewrite <- Heq. rewrite page_view_set_page_eq by lia.
    case_bool_decide as Hi.
    + subst i. replace (Z.to_nat ROW_SIZE) with (length data) by lia.
      apply splice_read_same. lia.
    + apply splice_read_other; [lia|].
      assert (i mod ROWS_PER_PAGE <> row_num mod ROWS_PER_PAGE) as Hm.
      { intros Hm. apply Hi.
        rewrite (Z.div_mod i ROWS_PER_PAGE), (Z.div_mod row_num ROWS_PER_PAGE) by lia.
        rewrite Heq, Hm. reflexivity. }
      change ROW_SIZE with 293 in *. lia.
  - rewrite page_view_set_page_ne by lia.
    rewrite bool_decide_eq_false_2; [reflexivity|].
    intros ->. apply Hne. reflexivity.
Qed.

Lemma execute_insert_full (statement : Statement) (table : Table) :
  num_rows table >= TABLE_MAX_ROWS ->
  execute_insert statement table = Ok (EXECUTE_TABLE_FULL, table).
Proof.
  intros Hfull. unfold execute_insert.
  rewrite bool_decide_eq_true_2 by exact Hfull. reflexivity.
Qed.

Lemma table_max_rows_uint32 : TABLE_MAX_ROWS < UINT32_MOD.
Proof.
  destruct HL as (Hpos & Hfit & Hmax). unfold UINT32_MOD.
  change ROW_SIZE with 293 in *. change PAGE_SIZE with 4096 in *.
  change TABLE_MAX_PAGES with 100 in *. nia.
Qed.

Lemma execute_insert_success (statement : Statement) (table : Table) :
  table_ok table ->
  valid_row (row_to_insert statement) ->
  num_rows table < TABLE_MAX_ROWS ->
  exists table',
    execute_insert statement table = Ok (EXECUTE_SUCCESS, table') /\
    table_ok table' /\
    num_rows table' = num_rows table + 1 /\
    file_descriptor (pager table') = file_descriptor (pager table) /\
    file_length (pager table') = file_length (pager table) /\
    forall i, slot_bytes table' i =
              if bool_decide (i = num_rows table)
              then bytes_of_row (row_to_insert statement)
              else slot_bytes table i.
Proof.
  intros [Hok Hrows] Hv Hroom.
  pose proof (slot_page_bounds (num_rows table) ltac:(lia)) as Hp.
  pose proof (slot_offset_bounds (num_rows table)) as Hb.
  pose proof table_max_rows_uint32 as Hmax.
  pose proof (length_page_view _ (num_rows table / ROWS_PER_PAGE) Hok) as Hpv.
  pose proof Hok as [Hlen _].
  destruct (valid_row_lengths _ Hv) as (_ & _ & Hbytes).
  change TABLE_MAX_PAGES with 100 in *.
  unfold execute_insert.
  rewrite bool_decide_eq_false_2 by lia.
  rewrite (row_slot_spec _ _ Hok) by exact Hp. simpl.
  erewrite serialize_row_spec;
    [ | exact Hv | apply cached_set_page_eq; lia | lia | lia ].
  simpl. rewrite set_page_set_page.
  rewrite (Z.mod_small (num_rows table + 1) UINT32_MOD) by lia.
  replace (0 + num_rows table mod ROWS_PER_PAGE * ROW_SIZE)
    with (num_rows table mod ROWS_PER_PAGE * ROW_SIZE) by lia.
  eexists. split; [reflexivity|].
  split.
  { split; [|simpl; lia]. simpl.
    apply pager_ok_set_page; [exact Hok|lia|].
    rewrite length_splice; [exact Hpv|].
    change ROW_SIZE with 293 in *. change PAGE_SIZE with 4096 in *. lia. }
  split; [reflexivity|]. split; [reflexivity|]. split; [reflexivity|].
  intros i. apply slot_bytes_written; [exact Hok|exact Hp|].
  change ROW_SIZE with 293. lia.
Qed.


Lemma stored_rows_insert (table table' : Table) (row : Row) :
  valid_row row ->
  0 <= num_rows table ->
  num_rows table' = num_rows table + 1 ->
  (forall i, slot_bytes table' i =
             if bool_decide (i = num_rows table)
             then bytes_of_row row else slot_bytes table i) ->
  stored_rows table' = stored_rows table ++ [row].
Proof.
  intros Hv H0 Hn Hs. unfold stored_rows. rewrite Hn.
  replace (Z.to_nat (num_rows table + 1)) with (Z.to_nat (num_rows table) + 1)%nat by lia.
  rewrite seq_app, map_app. cbn [seq map].
  apply (f_equal2 (@app Row)).
  - apply map_ext_in. intros k Hk. apply in_seq in Hk.
    rewrite Hs. rewrite bool_decide_eq_false_2 by lia. reflexivity.
  - rewrite Hs. rewrite bool_decide_eq_true_2 by lia.
    rewrite row_of_bytes_of_row by exact Hv. reflexivity.
Qed.




Lemma insert_all_spec (rows : list Row) :
  forall table : Table,
    table_ok table ->
    Forall valid_row rows ->
    num_rows table + Z.of_nat (length rows) <= TABLE_MAX_ROWS ->
    exists table',
      insert_all rows table =
      Ok (replicate (length rows) EXECUTE_SUCCESS, table') /\
      table_ok table' /\
      num_rows table' = num_rows table + Z.of_nat (length rows) /\
      file_descriptor (pager table') = file_descriptor (pager table) /\
      file_length (pager table') = file_length (pager table) /\
      stored_rows table' = stored_rows table ++ rows.
Proof.
  induction rows as [|row rows IH]; intros table Hok Hv Hroom.
  - exists table. simpl. rewrite app_nil_r.
    repeat split; try reflexivity; try apply Hok. lia.
  - apply Forall_cons in Hv as [Hrow Hv]. simpl length in Hroom.
    destruct (execute_insert_success (insert_statement row) table Hok Hrow ltac:(lia))
      as (table1 & Hins & Hok1 & Hn1 & Hfd1 & Hfl1 & Hs1).
    destruct (IH table1 Hok1 Hv ltac:(lia))
      as (table' & Hall & Hok' & Hn' & Hfd' & Hfl' & Hs').
    exists table'. split.
    + simpl. rewrite Hins. simpl. rewrite Hall. reflexivity.
    + split; [exact Hok'|]. split; [simpl length; lia|].
      split; [congruence|]. split; [congruence|].
      rewrite Hs'.
      rewrite (stored_rows_insert table table1 row Hrow ltac:(apply Hok) Hn1 Hs1).
      rewrite <- app_assoc. reflexivity.
Qed.

End RowStore.

Lemma pager_ok_empty : pager_ok (pager empty_table).
Proof.
  split; [apply length_replicate|].
  intros page_num page Hc. exfalso. clear -Hc.
  unfold cached_page, empty_table in Hc. cbn [pager pages] in Hc.
  case_bool_decide; [|discriminate].
  destruct (replicate (Z.to_nat TABLE_MAX_PAGES) (@None (list byte))
              !! Z.to_nat page_num) as [p|] eqn:Hp; [|discriminate].
  apply lookup_replicate in Hp as [-> _]. discriminate.
Qed.

Lemma table_ok_empty {L : Limits} : limits_ok L -> table_ok empty_table.
Proof.
  intros (_ & _ & Hmax). split; [apply pager_ok_empty|]. simpl. lia.
Qed.

Lemma limits_ok_default : limits_ok default_limits.
Proof. unfold limits_ok. simpl. vm_compute. intuition discriminate. Qed.

Lemma length_c_array (size : nat) (s : string) : length (c_array size s) = size.
Proof.
  unfold c_array. rewrite length_take, length_app, length_replicate. lia.
Qed.

Lemma valid_make_row (key : Z) (name mail : string) :
  0 <= key < UINT32_MOD -> valid_row (make_row key name mail).
Proof.
  intros Hk. split; [exact Hk|]. unfold make_row. cbn [username email].
  rewrite !length_c_array.
  change USERNAME_SIZE with 33. change EMAIL_SIZE with 256. lia.
Qed.

(** ** The claims on the row store *)

(** C2. Round trip of the row codec: for every valid row [r] and every
    destination slot that lies inside a cached page, serialize_row
    succeeds and deserialize_row reads back from the written bytes a row
    equal to [r]. *)
Theorem deserialize_serialize_row (r : Row) (pager : Pager) (destination : ptr)
    (page : list byte) :
  valid_row r ->
  cached_page pager (ptr_page destination) = Some page ->
  0 <= ptr_offset destination ->
  ptr_offset destination + ROW_SIZE <= Z.of_nat (length page) ->
  exists pager',
    serialize_row r destination pager = Ok pager' /\
    deserialize_row destination pager' = Ok r.
Proof.
  intros Hv Hc Hoff Hb. destruct destination as [page_num off]. simpl in *.
  destruct (cached_page_Some _ _ _ Hc) as (Hn & Hlt & _).
  destruct (valid_row_lengths r Hv) as (_ & _ & Hlen).
  eexists. split; [apply serialize_row_spec; eassumption|].
  change ROW_SIZE with 293 in *.
  erewrite deserialize_row_spec;
    [ | apply cached_set_page_eq; assumption | exact Hoff
      | rewrite length_splice by lia; exact Hb ].
  change (Z.to_nat ROW_SIZE) with 293%nat. rewrite <- Hlen.
  rewrite splice_read_same by lia.
  rewrite row_of_bytes_of_row by exact Hv. reflexivity.
Qed.

Lemma deserialize_serialize_row_witness :
  exists pager',
    serialize_row (make_row 7 "alice" "alice@example.com")
      {| ptr_page := 0; ptr_offset := 293 |}
      (set_page (pager empty_table) 0 (page_from_file (pager empty_table) 0))
    = Ok pager' /\
    deserialize_row {| ptr_page := 0; ptr_offset := 293 |} pager'
    = Ok (make_row 7 "alice" "alice@example.com").
Proof.
  apply (deserialize_serialize_row _ _ _ (page_from_file (pager empty_table) 0)).
  - apply valid_make_row. vm_compute. split; [discriminate|reflexivity].
  - reflexivity.
  - simpl. lia.
  - vm_compute. discriminate.
Defined.

(** C9. For every row number [r], row_slot addresses the page
    [r / ROWS_PER_PAGE] at the byte offset
    [(r mod ROWS_PER_PAGE) * ROW_SIZE]: it returns that pointer whenever
    the page is below the page cap (and stops with the pager's capacity
    fault otherwise); the [ROW_SIZE] bytes from that offset lie inside the
    page, whose buffer has [PAGE_SIZE] bytes, so no row spans two pages;
    and two distinct row numbers have distinct pages or disjoint byte
    ranges. *)
Theorem row_slot_layout {L : Limits} (table : Table) (r : Z) :
  limits_ok L ->
  pager_ok (pager table) ->
  0 <= r ->
  let page_num := r / ROWS_PER_PAGE in
  let byte_offset := (r mod ROWS_PER_PAGE) * ROW_SIZE in
  (page_num < TABLE_MAX_PAGES ->
   exists table' page,
     row_slot table r =
       Ok (table', {| ptr_page := page_num; ptr_offset := byte_offset |}) /\
     cached_page (pager table') page_num = Some page /\
     Z.of_nat (length page) = PAGE_SIZE) /\
  (TABLE_MAX_PAGES <= page_num ->
   row_slot table r = Fault CapacityExhausted) /\
  0 <= byte_offset /\ byte_offset + ROW_SIZE <= PAGE_SIZE /\
  forall r',
    0 <= r' -> r' <> r ->
    r' / ROWS_PER_PAGE <> page_num \/
    (r' mod ROWS_PER_PAGE) * ROW_SIZE + ROW_SIZE <= byte_offset \/
    byte_offset + ROW_SIZE <= (r' mod ROWS_PER_PAGE) * ROW_SIZE.
Proof.
  intros HL Hok Hr page_num byte_offset.
  pose proof (rows_per_page_pos HL) as Hpos.
  pose proof (slot_offset_bounds HL r) as Hb.
  assert (0 <= page_num) as Hp0 by (apply Z.div_pos; lia).
  split; [|split; [|split; [apply Hb|split; [apply Hb|]]]].
  - intros Hcap.
    rewrite (row_slot_spec HL table r Hok) by (fold page_num; lia).
    eexists _, _. split.
    + replace (0 + r mod ROWS_PER_PAGE * ROW_SIZE) with byte_offset
        by (unfold byte_offset; lia).
      reflexivity.
    + simpl. pose proof Hok as [Hlen _]. split.
      * apply cached_set_page_eq; [exact Hp0|].
        fold page_num. change TABLE_MAX_PAGES with 100 in *. lia.
      * apply length_page_view. exact Hok.
  - intros Hcap. unfold row_slot. fold page_num.
    rewrite get_page_out_of_bounds by lia. reflexivity.
  - intros r' Hr' Hne.
    destruct (Z.eq_dec (r' / ROWS_PER_PAGE) page_num) as [Heq|Hd]; [|left; exact Hd].
    right.
    assert (r' mod ROWS_PER_PAGE <> r mod ROWS_PER_PAGE) as Hm.
    { intros Hm. apply Hne.
      rewrite (Z.div_mod r' ROWS_PER_PAGE), (Z.div_mod r ROWS_PER_PAGE) by lia.
      fold page_num. rewrite Heq, Hm. reflexivity. }
    unfold byte_offset. change ROW_SIZE with 293. lia.
Qed.

Lemma row_slot_layout_witness :
  exists table' page,
    @row_slot default_limits empty_table 27 =
      Ok (table', {| ptr_page := 2; ptr_offset := 293 |}) /\
    cached_page (pager table') 2 = Some page /\
    Z.of_nat (length page) = PAGE_SIZE.
Proof.
  refine (proj1 (@row_slot_layout default_limits empty_table 27 _ _ _) _).
  - unfold limits_ok. vm_compute. intuition discriminate.
  - apply pager_ok_empty.
  - lia.
  - vm_compute. reflexivity.
Defined.

Lemma execute_insert_inv {L : Limits} (statement : Statement) (table : Table)
    (r : ExecuteResult) (table' : Table) :
  execute_insert statement table = Ok (r, table') ->
  (r = EXECUTE_TABLE_FULL /\ table' = table /\ num_rows table >= TABLE_MAX_ROWS) \/
  (r = EXECUTE_SUCCESS /\ num_rows table < TABLE_MAX_ROWS).
Proof.
  unfold execute_insert. case_bool_decide as Hfull.
  - intros [= <- <-]. left. repeat split. exact Hfull.
  - destruct (row_slot table (num_rows table)) as [[table1 slot]|e]; simpl;
      [|discriminate].
    destruct (serialize_row (row_to_insert statement) slot (pager table1))
      as [pager'|e]; simpl; [|discriminate].
    intros [= <- <-]. right. split; [reflexivity|lia].
Qed.

(** C10. An execute_insert that returns EXECUTE_SUCCESS adds one to the
    row count and writes the slot of the old row count only: that slot
    holds the serialized row, and the bytes of every other slot, in
    particular of every row below the old count, are as before. *)
Theorem execute_insert_frame {L : Limits} (statement : Statement)
    (table table' : Table) :
  limits_ok L ->
  pager_ok (pager table) ->
  0 <= num_rows table ->
  valid_row (row_to_insert statement) ->
  execute_insert statement table = Ok (EXECUTE_SUCCESS, table') ->
  num_rows table' = num_rows table + 1 /\
  slot_bytes table' (num_rows table) = bytes_of_row (row_to_insert statement) /\
  (forall i, i <> num_rows table -> slot_bytes table' i = slot_bytes table i) /\
  (forall i, 0 <= i < num_rows table -> slot_bytes table' i = slot_bytes table i).
Proof.
  intros HL Hpg H0 Hv Hins.
  destruct (execute_insert_inv _ _ _ _ Hins) as [(Hr & _)|(_ & Hroom)];
    [discriminate|].
  assert (table_ok table) as Hok by (split; [exact Hpg|lia]).
  destruct (execute_insert_success HL statement table Hok Hv Hroom)
    as (table1 & Hins1 & _ & Hn & _ & _ & Hs).
  rewrite Hins in Hins1. injection Hins1 as <-.
  split; [exact Hn|]. split; [|split].
  - rewrite Hs. rewrite bool_decide_eq_true_2 by reflexivity. reflexivity.
  - intros i Hi. rewrite Hs. rewrite bool_decide_eq_false_2 by exact Hi.
    reflexivity.
  - intros i Hi. rewrite Hs. rewrite bool_decide_eq_false_2 by lia.
    reflexivity.
Qed.

Lemma execute_insert_frame_witness :
  exists table',
    @execute_insert default_limits
      (insert_statement (make_row 3 "carol" "carol@example.com"))
      {| pager := set_page (pager empty_table) 0
                    (splice (page_from_file (pager empty_table) 0) 0
                       (bytes_of_row (make_row 1 "alice" "alice@example.com")));
         num_rows := 1 |}
    = Ok (EXECUTE_SUCCESS, table') /\
    num_rows table' = 1 + 1 /\
    @slot_bytes default_limits table' 1 =
      bytes_of_row (make_row 3 "carol" "carol@example.com") /\
    @slot_bytes default_limits table' 0 =
      bytes_of_row (make_row 1 "alice" "alice@example.com") /\
    (forall i, i <> 1 ->
               @slot_bytes default_limits table' i =
               @slot_bytes default_limits
                 {| pager := set_page (pager empty_table) 0
                               (splice (page_from_file (pager empty_table) 0) 0
                                  (bytes_of_row
                                     (make_row 1 "alice" "alice@example.com")));
                    num_rows := 1 |} i).
Proof.
  eexists. split; [vm_compute; reflexivity|].
  match goal with
  | |- num_rows ?t = _ /\ _ =>
      pose proof (@execute_insert_frame default_limits
                    (insert_statement (make_row 3 "carol" "carol@example.com"))
                    {| pager := set_page (pager empty_table) 0
                                  (splice (page_from_file (pager empty_table) 0) 0
                                     (bytes_of_row
                                        (make_row 1 "alice" "alice@example.com")));
                       num_rows := 1 |} t) as H
  end.
  destruct H as (Hn & Hslot & Hother & Hbelow).
  - exact limits_ok_default.
  - apply pager_ok_set_page; [apply pager_ok_empty|simpl; lia|].
    vm_compute. reflexivity.
  - simpl. lia.
  - apply valid_make_row. vm_compute. split; [discriminate|reflexivity].
  - vm_compute. reflexivity.
  - split; [exact Hn|]. split; [exact Hslot|]. split; [|exact Hother].
    rewrite (Hbelow 0) by (cbn [num_rows]; lia). vm_compute. reflexivity.
Defined.

(** C4. Inserting rows one at a time into the empty table succeeds for
    every insert up to and including the [TABLE_MAX_ROWS]-th; the next
    insert returns EXECUTE_TABLE_FULL; and an insert that returns
    EXECUTE_TABLE_FULL leaves the table (row count, page cache and so the
    stored rows) as it was. *)
Theorem insert_until_table_full {L : Limits} (rows : list Row) (next : Row) :
  limits_ok L ->
  Forall valid_row rows ->
  Z.of_nat (length rows) = TABLE_MAX_ROWS ->
  (exists table,
     insert_all rows empty_table =
       Ok (replicate (length rows) EXECUTE_SUCCESS, table) /\
     num_rows table = TABLE_MAX_ROWS /\
     stored_rows table = rows /\
     execute_insert (insert_statement next) table = Ok (EXECUTE_TABLE_FULL, table)) /\
  (forall statement table table',
     execute_insert statement table = Ok (EXECUTE_TABLE_FULL, table') ->
     table' = table).
Proof.
  intros HL Hv Hlen. split.
  - destruct (insert_all_spec HL rows empty_table (table_ok_empty HL) Hv)
      as (table & Hall & Hok & Hn & _ & _ & Hs).
    { simpl. lia. }
    exists table. split; [exact Hall|]. simpl in Hn.
    split; [lia|]. split; [exact Hs|].
    apply execute_insert_full. lia.
  - intros statement table table' Hins.
    destruct (execute_insert_inv _ _ _ _ Hins) as [(_ & Ht & _)|(Hr & _)];
      [exact Ht|discriminate].
Qed.

Lemma insert_until_table_full_witness :
  exists table,
    @insert_all default_limits
      (replicate 1300 (make_row 1 "user" "user@example.com")) empty_table =
      Ok (replicate 1300 EXECUTE_SUCCESS, table) /\
    num_rows table = 1300 /\
    @execute_insert default_limits
      (insert_statement (make_row 2 "late" "late@example.com")) table =
      Ok (EXECUTE_TABLE_FULL, table).
Proof.
  destruct (@insert_until_table_full default_limits
              (replicate 1300 (make_row 1 "user" "user@example.com"))
              (make_row 2 "late" "late@example.com")) as [(table & Hall & Hn & _ & Hfull) _].
  - unfold limits_ok. vm_compute. intuition discriminate.
  - apply Forall_replicate. apply valid_make_row.
    vm_compute. split; [discriminate|reflexivity].
  - rewrite length_replicate. vm_compute. reflexivity.
  - exists table. rewrite length_replicate in Hall.
    split; [exact Hall|]. split; [exact Hn|exact Hfull].
Defined.

(** What the scan of the rows 3, 1, 2 writes to the standard output. *)
Example printed_rows :
  printed [make_row 3 "carol" "carol@example.com";
           make_row 1 "alice" "alice@example.com";
           make_row 4294967295 "bob" "bob@example.com"] =
  [ Ok (String.append "(3, carol, carol@example.com)" (String "010"%char EmptyString));
    Ok (String.append "(1, alice, alice@example.com)" (String "010"%char EmptyString));
    Ok (String.append "(-1, bob, bob@example.com)" (String "010"%char EmptyString)) ].
Proof. vm_compute. reflexivity. Qed.








(** ** The claims on the front end and on opening *)

(** prepare_statement has no path to the two validation results of
    PrepareResult. *)
Lemma prepare_statement_never_validates (input_buffer : InputBuffer)
    (statement statement' : Statement) (r : PrepareResult) :
  prepare_statement input_buffer statement = Ok (r, statement') ->
  r <> PREPARE_NEGATIVE_ID /\ r <> PREPARE_STRING_TOO_LONG.
Proof.
  unfold prepare_statement.
  destruct (strncmp _ _ 6 =? 0).
  - destruct (sscanf_insert _ _) as [[args row]|e]; simpl; [|discriminate].
    destruct (args <? 3); intros [= <- _]; split; discriminate.
  - destruct (strcmp _ _ =? 0); intros [= <- _]; split; discriminate.
Qed.

(** An over-long username is not rejected either: sscanf stores it past
    the end of the char array. *)
Lemma prepare_statement_long_username :
  prepare_statement
    (input_line "insert 1 aaaaaaaaaaaaaaaaaaaaaaaaaaaaaaaaa a@example.com")
    blank_statement
  = Fault MemoryFault.
Proof. vm_compute. reflexivity. Qed.

(** C5 fails on the code: the line "insert -1 user1 person1@example.com",
    whose id is negative, is prepared with PREPARE_SUCCESS (the id becomes
    4294967295), and executing the prepared statement changes the table:
    the row is stored. *)
Theorem prepare_statement_accepts_negative_id :
  prepare_statement (input_line "insert -1 user1 person1@example.com")
    blank_statement
  = Ok (PREPARE_SUCCESS,
        insert_statement (make_row 4294967295 "user1" "person1@example.com")) /\
  exists table',
    @execute_statement default_limits
      (insert_statement (make_row 4294967295 "user1" "person1@example.com"))
      empty_table
    = Ok (EXECUTE_SUCCESS, table', []) /\
    num_rows table' = 1 /\
    @stored_rows default_limits table' =
      [make_row 4294967295 "user1" "person1@example.com"].
Proof.
  split; [vm_compute; reflexivity|].
  eexists. split; [vm_compute; reflexivity|].
  split; vm_compute; reflexivity.
Qed.

(** C7. Opening a table on a file of length zero succeeds and gives the
    empty table (no rows, nothing cached), and a full scan of it returns
    EXECUTE_SUCCESS and prints no row. *)
Theorem select_after_open_empty_file {L : Limits} (fs : gmap string (list byte))
    (filename : string) :
  fs !! filename = Some [] ->
  db_open fs filename = Ok (<[filename := []]> fs, empty_table) /\
  num_rows empty_table = 0 /\
  execute_select select_statement empty_table =
    Ok (EXECUTE_SUCCESS, empty_table, []).
Proof.
  intros Hfile. unfold db_open, pager_open. rewrite Hfile. simpl.
  split; [reflexivity|]. split; reflexivity.
Qed.

Lemma select_after_open_empty_file_witness :
  db_open {[ "mydb.db"%string := [] ]} "mydb.db" =
    Ok (<["mydb.db"%string := []]> {[ "mydb.db"%string := [] ]}, empty_table) /\
  num_rows empty_table = 0 /\
  @execute_select default_limits select_statement empty_table
  = Ok (EXECUTE_SUCCESS, empty_table, []).
Proof.
  apply (@select_after_open_empty_file default_limits
           {[ "mydb.db"%string := [] ]} "mydb.db").
  apply lookup_singleton_eq.
Defined.

(** C8. Opening records the file length and fails with an IOError for
    exactly the files whose length is not a whole multiple of the page
    size: db_open (through pager_open) returns [Fault IOError] for such a
    file, and otherwise succeeds with a pager that holds the file length,
    the file existing afterwards (created empty if it was absent). *)
Theorem open_checks_file_length (fs : gmap string (list byte)) (filename : string) :
  let contents := default [] (fs !! filename) in
  let len := Z.of_nat (length contents) in
  (len mod PAGE_SIZE <> 0 ->
   pager_open fs filename = Fault IOError /\
   db_open fs filename = Fault IOError) /\
  (len mod PAGE_SIZE = 0 ->
   exists fs' pager,
     pager_open fs filename = Ok (fs', pager) /\
     file_length pager = len /\
     file_descriptor pager = contents /\
     fs' !! filename = Some contents /\
     db_open fs filename =
       Ok (fs', {| pager := pager; num_rows := len / ROW_SIZE |})).
Proof.
  intros contents len. split.
  - intros Hbad. unfold db_open, pager_open. fold contents. fold len.
    rewrite bool_decide_eq_false_2 by exact Hbad. split; reflexivity.
  - intros Hgood. unfold db_open, pager_open. fold contents. fold len.
    rewrite bool_decide_eq_true_2 by exact Hgood.
    eexists _, _. split; [reflexivity|]. simpl.
    split; [reflexivity|]. split; [reflexivity|].
    split; [apply lookup_insert_eq|reflexivity].
Qed.

Lemma open_checks_file_length_witness :
  (pager_open {[ "mydb.db"%string := replicate 293 x00 ]} "mydb.db" = Fault IOError /\
   db_open {[ "mydb.db"%string := replicate 293 x00 ]} "mydb.db" = Fault IOError) /\
  exists fs' pager,
    pager_open ∅ "mydb.db" = Ok (fs', pager) /\
    file_length pager = 0 /\
    file_descriptor pager = [] /\
    fs' !! "mydb.db"%string = Some [] /\
    db_open ∅ "mydb.db" = Ok (fs', {| pager := pager; num_rows := 0 |}).
Proof.
  split.
  - apply (proj1 (open_checks_file_length
                    {[ "mydb.db"%string := replicate 293 x00 ]} "mydb.db")).
    rewrite lookup_singleton_eq. vm_compute. discriminate.
  - pose proof (proj2 (open_checks_file_length ∅ "mydb.db")) as Hopen.
    rewrite lookup_empty in Hopen. apply Hopen. reflexivity.
Defined.

(** ** The B+tree search *)

Section BTreeSearch.
Import BTree.

Lemma sorted_lookup_lt (keys : list Z) (i j : nat) (a b : Z) :
  StronglySorted Z.lt keys ->
  keys !! i = Some a -> keys !! j = Some b -> (i < j)%nat -> a < b.
Proof.
  intros Hs Hi Hj Hlt.
  rewrite <- (take_drop j keys) in Hs.
  apply (StronglySorted_app_1_elem_of _ _ _ a b Hs).
  - apply list_elem_of_lookup. exists i. rewrite lookup_take_lt by exact Hlt.
    exact Hi.
  - apply list_elem_of_lookup. exists 0%nat. rewrite lookup_drop.
    rewrite Nat.add_0_r. exact Hj.
Qed.

Lemma key_at_lookup (keys : list Z) (index : Z) :
  0 <= index < Z.of_nat (length keys) ->
  keys !! Z.to_nat index = Some (key_at keys index).
Proof.
  intros Hi. unfold key_at.
  destruct (keys !! Z.to_nat index) as [k|] eqn:Hk; [reflexivity|].
  apply lookup_ge_None in Hk. lia.
Qed.

(** What both binary searches keep true of the interval they narrow. *)
Lemma leaf_search_spec (keys : list Z) (key : Z) :
  StronglySorted Z.lt keys ->
  forall (fuel : nat) (lo hi : Z),
    0 <= lo <= hi -> hi <= Z.of_nat (length keys) ->
    hi - lo <= Z.of_nat fuel ->
    (forall j k, (j < Z.to_nat lo)%nat -> keys !! j = Some k -> k < key) ->
    (forall j k, (Z.to_nat hi <= j)%nat -> keys !! j = Some k -> key <= k) ->
    0 <= leaf_search fuel keys key lo hi /\
    insertion_point keys key (Z.to_nat (leaf_search fuel keys key lo hi)).
Proof.
  intros Hs. induction fuel as [|fuel IH]; intros lo hi Hlo Hhi Hfuel Hbelow Habove.
  - simpl. assert (lo = hi) as -> by lia.
    split; [lia|]. split; [lia|]. split; assumption.
  - simpl. case_bool_decide as Hempty.
    { assert (lo = hi) as -> by lia.
      split; [lia|]. split; [lia|]. split; assumption. }
    set (index := (lo + hi) / 2).
    assert (lo <= index < hi) as Hindex.
    { unfold index. split.
      - apply Z.div_le_lower_bound; lia.
      - apply Z.div_lt_upper_bound; lia. }
    pose proof (key_at_lookup keys index ltac:(lia)) as Hk.
    case_bool_decide as Heq.
    { split; [lia|]. split; [lia|]. split.
      - intros j k Hj Hjk. rewrite Heq.
        exact (sorted_lookup_lt keys _ _ _ _ Hs Hjk Hk Hj).
      - intros j k Hj Hjk. rewrite Heq.
        destruct (decide (j = Z.to_nat index)) as [->|Hne].
        + rewrite Hk in Hjk. injection Hjk as Hjk. lia.
        + pose proof (sorted_lookup_lt keys _ _ _ _ Hs Hk Hjk ltac:(lia)). lia. }
    case_bool_decide as Hlt.
    + apply IH; [lia|lia|lia|exact Hbelow|].
      intros j k Hj Hjk.
      destruct (decide (j = Z.to_nat index)) as [->|Hne].
      * rewrite Hk in Hjk. injection Hjk as Hjk. lia.
      * pose proof (sorted_lookup_lt keys _ _ _ _ Hs Hk Hjk ltac:(lia)). lia.
    + apply IH; [lia|lia|lia| |exact Habove].
      intros j k Hj Hjk.
      destruct (decide (j = Z.to_nat index)) as [->|Hne].
      * rewrite Hk in Hjk. injection Hjk as Hjk. lia.
      * pose proof (sorted_lookup_lt keys _ _ _ _ Hs Hjk Hk ltac:(lia)). lia.
Qed.

Lemma internal_search_spec (keys : list Z) (key : Z) :
  StronglySorted Z.lt keys ->
  forall (fuel : nat) (lo hi : Z),
    0 <= lo <= hi -> hi <= Z.of_nat (length keys) ->
    hi - lo <= Z.of_nat fuel ->
    (forall j k, (j < Z.to_nat lo)%nat -> keys !! j = Some k -> k < key) ->
    (forall j k, (Z.to_nat hi <= j)%nat -> keys !! j = Some k -> key <= k) ->
    0 <= internal_search fuel keys key lo hi /\
    insertion_point keys key (Z.to_nat (internal_search fuel keys key lo hi)).
Proof.
  intros Hs. induction fuel as [|fuel IH]; intros lo hi Hlo Hhi Hfuel Hbelow Habove.
  - simpl. assert (lo = hi) as -> by lia.
    split; [lia|]. split; [lia|]. split; assumption.
  - simpl. case_bool_decide as Hempty.
    { assert (lo = hi) as -> by lia.
      split; [lia|]. split; [lia|]. split; assumption. }
    set (index := (lo + hi) / 2).
    assert (lo <= index < hi) as Hindex.
    { unfold index. split.
      - apply Z.div_le_lower_bound; lia.
      - apply Z.div_lt_upper_bound; lia. }
    pose proof (key_at_lookup keys index ltac:(lia)) as Hk.
    case_bool_decide as Hge.
    + apply IH; [lia|lia|lia|exact Hbelow|].
      intros j k Hj Hjk.
      destruct (decide (j = Z.to_nat index)) as [->|Hne].
      * rewrite Hk in Hjk. injection Hjk as Hjk. lia.
      * pose proof (sorted_lookup_lt keys _ _ _ _ Hs Hk Hjk ltac:(lia)). lia.
    + apply IH; [lia|lia|lia| |exact Habove].
      intros j k Hj Hjk.
      destruct (decide (j = Z.to_nat index)) as [->|Hne].
      * rewrite Hk in Hjk. injection Hjk as Hjk. lia.
      * pose proof (sorted_lookup_lt keys _ _ _ _ Hs Hjk Hk ltac:(lia)). lia.
Qed.

Lemma leaf_search_point (keys : list Z) (key : Z) :
  StronglySorted Z.lt keys ->
  0 <= leaf_search (length keys) keys key 0 (Z.of_nat (length keys)) /\
  insertion_point keys key
    (Z.to_nat (leaf_search (length keys) keys key 0 (Z.of_nat (length keys)))).
Proof.
  intros Hs.
  apply (leaf_search_spec keys key Hs (length keys) 0 (Z.of_nat (length keys)));
    [lia|lia|lia| |].
  - intros j k Hj. lia.
  - intros j k Hj Hjk. apply lookup_lt_Some in Hjk. lia.
Qed.

Lemma internal_search_point (keys : list Z) (key : Z) :
  StronglySorted Z.lt keys ->
  0 <= internal_search (length keys) keys key 0 (Z.of_nat (length keys)) /\
  insertion_point keys key
    (Z.to_nat (internal_search (length keys) keys key 0 (Z.of_nat (length keys)))).
Proof.
  intros Hs.
  apply (internal_search_spec keys key Hs (length keys) 0 (Z.of_nat (length keys)));
    [lia|lia|lia| |].
  - intros j k Hj. lia.
  - intros j k Hj Hjk. apply lookup_lt_Some in Hjk. lia.
Qed.

(** *** The keyed children of an internal node *)

Lemma children_impl (P Q : Z -> list (Z * Row) -> list Z -> Prop)
    (cells : list (Z * Z)) (rows : list (Z * Row)) (used : list Z) :
  children P cells rows used ->
  (forall child rows' used',
     P child rows' used' -> (forall x, x ∈ used' -> x ∈ used) ->
     Q child rows' used') ->
  children Q cells rows used.
Proof.
  induction 1 as [|key child cells rows used rows' used' HP Hlast Hc IH];
    intros HPQ.
  - constructor.
  - constructor.
    + apply HPQ; [exact HP|]. intros x Hx. apply elem_of_app. left. exact Hx.
    + exact Hlast.
    + apply IH. intros c r u Hc' Hsub. apply HPQ; [exact Hc'|].
      intros x Hx. apply elem_of_app. right. apply Hsub. exact Hx.
Qed.

Lemma children_app_inv (P : Z -> list (Z * Row) -> list Z -> Prop)
    (cells1 cells2 : list (Z * Z)) (key child : Z)
    (rows : list (Z * Row)) (used : list Z) :
  children P (cells1 ++ (key, child) :: cells2) rows used ->
  exists rows1 used1 rows_c used_c rows2 used2,
    children P cells1 rows1 used1 /\
    P child rows_c used_c /\
    last (rows_c.*1) = Some key /\
    children P cells2 rows2 used2 /\
    rows = rows1 ++ rows_c ++ rows2 /\
    used = used1 ++ used_c ++ used2.
Proof.
  revert rows used. induction cells1 as [|[k c] cells1 IH]; intros rows used Hc.
  - simpl in Hc. inversion Hc as [|? ? ? rows_c used_c rows2 used2 HP Hl Hc2]; subst.
    exists [], [], rows_c, used_c, rows2, used2.
    repeat split; try assumption. constructor.
  - simpl in Hc. inversion Hc as [|? ? ? rows0 used0 rows' used' HP Hl Hc']; subst.
    destruct (IH _ _ Hc')
      as (rows1 & used1 & rows_c & used_c & rows2 & used2
          & H1 & HPc & Hlc & H2 & -> & ->).
    exists (rows0 ++ rows1), (used0 ++ used1), rows_c, used_c, rows2, used2.
    repeat split; try assumption.
    + constructor; assumption.
    + rewrite <- app_assoc. reflexivity.
    + rewrite <- app_assoc. reflexivity.
Qed.

Lemma children_app (P : Z -> list (Z * Row) -> list Z -> Prop)
    (cells1 cells2 : list (Z * Z)) (key child : Z)
    (rows1 rows_c rows2 : list (Z * Row)) (used1 used_c used2 : list Z) :
  children P cells1 rows1 used1 ->
  P child rows_c used_c ->
  last (rows_c.*1) = Some key ->
  children P cells2 rows2 used2 ->
  children P (cells1 ++ (key, child) :: cells2)
    (rows1 ++ rows_c ++ rows2) (used1 ++ used_c ++ used2).
Proof.
  intros H1 HP Hl H2. induction H1 as [|k c cells rows used rows' used' HPc Hlc Hc IH].
  - simpl. constructor; assumption.
  - simpl. rewrite <- !app_assoc. constructor; assumption.
Qed.

Lemma children_last (P : Z -> list (Z * Row) -> list Z -> Prop)
    (cells : list (Z * Z)) (rows : list (Z * Row)) (used : list Z) :
  children P cells rows used -> last (rows.*1) = last (cells.*1).
Proof.
  induction 1 as [|key child cells rows used rows' used' HP Hlast Hc IH].
  - reflexivity.
  - rewrite fmap_app, last_app, IH.
    destruct cells as [|cell cells]; [exact Hlast|].
    change (((key, child) :: cell :: cells).*1)
      with (key :: (cell :: cells).*1).
    change ((cell :: cells).*1) with (cell.1 :: cells.*1).
    rewrite (last_cons key).
    destruct (last (cell.1 :: cells.*1)) as [y|] eqn:Hy; [reflexivity|].
    apply last_None in Hy. discriminate Hy.
Qed.

Lemma children_keys_elem (P : Z -> list (Z * Row) -> list Z -> Prop)
    (cells : list (Z * Z)) (rows : list (Z * Row)) (used : list Z) (k : Z) :
  children P cells rows used -> k ∈ cells.*1 -> k ∈ rows.*1.
Proof.
  induction 1 as [|key child cells rows used rows' used' HP Hlast Hc IH];
    intros Hk.
  - inversion Hk.
  - rewrite fmap_app. apply elem_of_app. simpl in Hk.
    apply elem_of_cons in Hk as [->|Hk].
    + left. apply last_Some_elem_of. exact Hlast.
    + right. apply IH. exact Hk.
Qed.

Lemma children_keys_sorted (P : Z -> list (Z * Row) -> list Z -> Prop)
    (cells : list (Z * Z)) (rows : list (Z * Row)) (used : list Z) :
  children P cells rows used ->
  StronglySorted Z.lt (rows.*1) -> StronglySorted Z.lt (cells.*1).
Proof.
  induction 1 as [|key child cells rows used rows' used' HP Hlast Hc IH];
    intros Hs.
  - constructor.
  - rewrite fmap_app in Hs. simpl. constructor.
    + apply IH. exact (StronglySorted_app_1_r _ _ _ Hs).
    + apply Forall_forall. intros k Hk.
      apply (StronglySorted_app_1_elem_of _ _ _ key k Hs).
      * apply last_Some_elem_of. exact Hlast.
      * apply (children_keys_elem _ _ _ _ _ Hc). exact Hk.
Qed.

(** In an increasing list every key is at most the last. *)
Lemma sorted_le_last (keys : list Z) (k m : Z) :
  StronglySorted Z.lt keys -> last keys = Some m -> k ∈ keys -> k <= m.
Proof.
  intros Hs Hl Hk. apply last_Some in Hl as [keys' ->].
  apply elem_of_app in Hk as [Hk|Hk].
  - pose proof (StronglySorted_app_1_elem_of _ _ _ k m Hs Hk) as Hlt.
    assert (m ∈ [m]) as Hm by (apply list_elem_of_singleton; reflexivity).
    specialize (Hlt Hm). lia.
  - apply list_elem_of_singleton in Hk. lia.
Qed.

(** *** Subtrees *)

Lemma subtree_frame (pgs : gmap Z Node) (other : Z) (node : Node) (h : nat) :
  forall page_num rows used,
    subtree pgs h page_num rows used ->
    other ∉ used ->
    subtree (<[other := node]> pgs) h page_num rows used.
Proof.
  induction h as [|h IH]; intros page_num rows used Hsub Hother.
  - destruct Hsub as (is_root & parent & Hb & Hp & ->).
    exists is_root, parent. split; [exact Hb|]. split; [|reflexivity].
    rewrite lookup_insert_ne; [exact Hp|].
    intros ->. apply Hother. apply list_elem_of_singleton. reflexivity.
  - destruct Hsub as (is_root & parent & cells & right_child & rows_l & used_l
                      & rows_r & used_r & Hb & Hp & Hc & Hr & -> & ->).
    exists is_root, parent, cells, right_child, rows_l, used_l, rows_r, used_r.
    split; [exact Hb|]. split.
    { rewrite lookup_insert_ne; [exact Hp|].
      intros ->. apply Hother. apply elem_of_cons. left. reflexivity. }
    split.
    { apply (children_impl _ _ _ _ _ Hc). intros c r u Hcu Hsub.
      apply IH; [exact Hcu|]. intros Hin. apply Hother.
      apply elem_of_cons. right. apply elem_of_app. left. apply Hsub. exact Hin. }
    split; [|split; reflexivity].
    apply IH; [exact Hr|]. intros Hin. apply Hother.
    apply elem_of_cons. right. apply elem_of_app. right. exact Hin.
Qed.

Lemma children_used_bounds (P : Z -> list (Z * Row) -> list Z -> Prop)
    (cells : list (Z * Z)) (rows : list (Z * Row)) (used : list Z) :
  children P cells rows used ->
  (forall c r u, P c r u -> Forall (fun p => 0 <= p < TABLE_MAX_PAGES) u) ->
  Forall (fun p => 0 <= p < TABLE_MAX_PAGES) used.
Proof.
  induction 1 as [|key child cells rows used rows' used' HP Hlast Hc IH];
    intros HPb.
  - constructor.
  - apply Forall_app. split; [exact (HPb _ _ _ HP)|]. apply IH. exact HPb.
Qed.

Lemma subtree_used (pgs : gmap Z Node) (h : nat) :
  forall page_num rows used,
    subtree pgs h page_num rows used ->
    (h < length used)%nat /\
    page_num ∈ used /\
    Forall (fun p => 0 <= p < TABLE_MAX_PAGES) used.
Proof.
  induction h as [|h IH]; intros page_num rows used Hsub.
  - destruct Hsub as (is_root & parent & Hb & Hp & ->).
    split; [simpl; lia|]. split.
    + apply list_elem_of_singleton. reflexivity.
    + constructor; [exact Hb|constructor].
  - destruct Hsub as (is_root & parent & cells & right_child & rows_l & used_l
                      & rows_r & used_r & Hb & Hp & Hc & Hr & -> & ->).
    destruct (IH _ _ _ Hr) as (Hlen & _ & Hbr).
    split; [simpl; rewrite length_app; lia|]. split.
    + apply elem_of_cons. left. reflexivity.
    + constructor; [exact Hb|]. apply Forall_app. split; [|exact Hbr].
      apply (children_used_bounds _ _ _ _ Hc).
      intros c r u Hcu. apply (IH _ _ _ Hcu).
Qed.

(** A tree of height [h] has more than [h] pages, all below the cap. *)
Lemma subtree_height (pgs : gmap Z Node) (h : nat) (page_num : Z)
    (rows : list (Z * Row)) (used : list Z) :
  subtree pgs h page_num rows used -> NoDup used ->
  (h < Z.to_nat TABLE_MAX_PAGES)%nat.
Proof.
  intros Hsub Hnd. destruct (subtree_used _ _ _ _ _ Hsub) as (Hlen & _ & Hb).
  assert (used ⊆+ seqZ 0 TABLE_MAX_PAGES) as Hsubm.
  { apply NoDup_submseteq; [exact Hnd|]. intros x Hx.
    apply elem_of_seqZ. rewrite Forall_forall in Hb. specialize (Hb x Hx). lia. }
  apply submseteq_length in Hsubm. rewrite length_seqZ in Hsubm. lia.
Qed.

Lemma scan_from_spec (pager : Pager) (h : nat) :
  forall fuel page_num rows used,
    subtree (pages pager) h page_num rows used ->
    (h < fuel)%nat ->
    scan_from fuel pager page_num = Ok rows.
Proof.
  induction h as [|h IH]; intros fuel page_num rows used Hsub Hfuel.
  - destruct Hsub as (is_root & parent & Hb & Hp & ->).
    destruct fuel as [|fuel]; [lia|]. simpl. unfold get_page.
    rewrite bool_decide_eq_true_2 by exact Hb. rewrite Hp. reflexivity.
  - destruct Hsub as (is_root & parent & cells & right_child & rows_l & used_l
                      & rows_r & used_r & Hb & Hp & Hc & Hr & -> & ->).
    destruct fuel as [|fuel]; [lia|]. simpl. unfold get_page at 1.
    rewrite bool_decide_eq_true_2 by exact Hb. rewrite Hp. simpl.
    assert ((fix scan_children (cells : list (Z * Z)) : result (list (Z * Row)) :=
               match cells with
               | [] => Ok []
               | (_, child) :: cells' =>
                   rows ← scan_from fuel pager child;
                   rows' ← scan_children cells';
                   Ok (rows ++ rows')
               end) cells = Ok rows_l) as ->.
    { clear Hp. induction Hc as [|key child cells rows used rows' used' HP Hlast Hc IHc].
      - reflexivity.
      - rewrite (IH fuel _ _ _ HP) by lia. simpl. rewrite IHc. reflexivity. }
    simpl. rewrite (IH fuel _ _ _ Hr) by lia. reflexivity.
Qed.

Lemma children_frame (pgs : gmap Z Node) (other : Z) (node : Node) (h : nat)
    (cells : list (Z * Z)) (rows : list (Z * Row)) (used : list Z) :
  children (subtree pgs h) cells rows used ->
  other ∉ used ->
  children (subtree (<[other := node]> pgs) h) cells rows used.
Proof.
  intros Hc Hother. apply (children_impl _ _ _ _ _ Hc).
  intros c r u Hcu Hsub. apply subtree_frame; [exact Hcu|].
  intros Hin. apply Hother. apply Hsub. exact Hin.
Qed.

Lemma children_rows_below (P : Z -> list (Z * Row) -> list Z -> Prop)
    (cells : list (Z * Z)) (rows : list (Z * Row)) (used : list Z) (key : Z) :
  children P cells rows used ->
  StronglySorted Z.lt (rows.*1) ->
  (forall k, k ∈ cells.*1 -> k < key) ->
  Forall (fun x => x.1 < key) rows.
Proof.
  intros Hc Hs Hk. apply Forall_forall. intros x Hx.
  assert (x.1 ∈ rows.*1) as Hx1 by (apply list_elem_of_fmap_2; exact Hx).
  destruct (last (rows.*1)) as [m|] eqn:Hm.
  - pose proof (sorted_le_last _ _ _ Hs Hm Hx1) as Hle.
    rewrite (children_last _ _ _ _ Hc) in Hm.
    apply last_Some_elem_of in Hm. specialize (Hk m Hm). lia.
  - apply last_None in Hm. rewrite Hm in Hx1. inversion Hx1.
Qed.

Lemma fst_elem_app (a b : list (Z * Row)) (k : Z) :
  k ∈ (a ++ b).*1 <-> k ∈ a.*1 \/ k ∈ b.*1.
Proof. rewrite fmap_app. apply elem_of_app. Qed.

Lemma get_page_node (pager : Pager) (page_num : Z) (node : Node) :
  0 <= page_num < TABLE_MAX_PAGES ->
  pages pager !! page_num = Some node ->
  get_page pager page_num = Ok node.
Proof.
  intros Hb Hp. unfold get_page.
  rewrite bool_decide_eq_true_2 by exact Hb. rewrite Hp. reflexivity.
Qed.

Lemma last_insert_before (a b : list Z) (x : Z) :
  b <> [] -> last (a ++ x :: b) = last (a ++ b).
Proof.
  intros Hb. destruct b as [|y b]; [contradiction|].
  rewrite (last_app_cons a), (last_app_cons a), last_cons_cons. reflexivity.
Qed.

Lemma insertion_point_take_drop (cells : list (Z * Row)) (key : Z) (index : nat) :
  insertion_point (cells.*1) key index ->
  Forall (fun x => x.1 < key) (take index cells) /\
  Forall (fun x => key <= x.1) (drop index cells).
Proof.
  intros (Hlen & Hbelow & Habove). split; apply Forall_forall; intros x Hx.
  - apply list_elem_of_lookup in Hx as [j Hj].
    pose proof (lookup_lt_Some _ _ _ Hj) as Hjlt.
    rewrite length_take in Hjlt.
    rewrite lookup_take_lt in Hj by lia.
    apply (Hbelow j); [lia|]. rewrite list_lookup_fmap, Hj. reflexivity.
  - apply list_elem_of_lookup in Hx as [j Hj]. rewrite lookup_drop in Hj.
    apply (Habove (index + j)%nat); [lia|].
    rewrite list_lookup_fmap, Hj. reflexivity.
Qed.

(** The descent of the search, from any page of a tree. *)
Lemma find_from_spec (table : Table) (key : Z) (h : nat) :
  forall fuel pn rows used,
    subtree (pages (pager table)) h pn rows used ->
    StronglySorted Z.lt (rows.*1) ->
    (h < fuel)%nat ->
    exists cursor is_root parent cells pre post,
      find_from fuel table pn key = Ok cursor /\
      BTree.table cursor = table /\
      page_num cursor ∈ used /\
      0 <= page_num cursor < TABLE_MAX_PAGES /\
      pages (pager table) !! page_num cursor = Some (LeafNode is_root parent cells) /\
      0 <= cell_num cursor /\
      insertion_point (cells.*1) key (Z.to_nat (cell_num cursor)) /\
      rows = pre ++ cells ++ post /\
      Forall (fun x => x.1 < key) pre /\
      Forall (fun x => key < x.1) post /\
      (key ∉ rows.*1 -> NoDup used -> forall value,
         subtree
           (<[page_num cursor :=
                LeafNode is_root parent
                  (insert_cell cells (Z.to_nat (cell_num cursor)) (key, value))]>
              (pages (pager table))) h pn
           (pre ++ insert_cell cells (Z.to_nat (cell_num cursor)) (key, value)
              ++ post) used).
Proof.
  induction h as [|h IH]; intros fuel pn rows used Hsub Hs Hfuel.
  - destruct Hsub as (is_root & parent & Hb & Hp & ->).
    destruct fuel as [|fuel]; [lia|].
    destruct (leaf_search_point (rows.*1) key Hs) as [Hnn Hpoint].
    eexists _, is_root, parent, rows, [], [].
    split.
    { simpl. rewrite (get_page_node _ _ _ Hb Hp). simpl.
      unfold leaf_node_find. rewrite (get_page_node _ _ _ Hb Hp). simpl.
      reflexivity. }
    simpl. rewrite length_fmap in *.
    split; [reflexivity|]. split; [apply list_elem_of_singleton; reflexivity|].
    split; [exact Hb|]. split; [exact Hp|]. split; [exact Hnn|].
    split; [exact Hpoint|]. split; [rewrite app_nil_r; reflexivity|].
    split; [constructor|]. split; [constructor|].
    intros _ _ value. exists is_root, parent. split; [exact Hb|].
    split; [|reflexivity]. rewrite app_nil_r. apply lookup_insert_eq.
  - destruct Hsub as (is_root & parent & cells & right_child & rows_l & used_l
                      & rows_r & used_r & Hb & Hp & Hc & Hr & -> & ->).
    destruct fuel as [|fuel]; [lia|].
    rewrite fmap_app in Hs.
    pose proof (StronglySorted_app_1_l _ _ _ Hs) as Hs_l.
    pose proof (StronglySorted_app_1_r _ _ _ Hs) as Hs_r.
    pose proof (children_keys_sorted _ _ _ _ Hc Hs_l) as Hks.
    destruct (internal_search_point (cells.*1) key Hks) as [Hnn Hpoint].
    assert (find_from (S fuel) table pn key =
            find_from fuel table (internal_node_child cells right_child key) key)
      as Hstep.
    { simpl. rewrite (get_page_node _ _ _ Hb Hp). reflexivity. }
    rewrite Hstep. clear Hstep. unfold internal_node_child.
    set (index := Z.to_nat (internal_search (length (cells.*1)) (cells.*1) key 0
                              (Z.of_nat (length (cells.*1))))) in *.
    destruct Hpoint as (Hlen & Hbelow & Habove). rewrite length_fmap in Hlen.
    destruct (cells !! index) as [[k_c child]|] eqn:Hcell.
    + (* a keyed child *)
      pose proof (take_drop_middle _ _ _ Hcell) as Hsplit.
      rewrite <- Hsplit in Hc.
      destruct (children_app_inv _ _ _ _ _ _ _ Hc)
        as (rows1 & used1 & rows_c & used_c & rows2 & used2
            & Hc1 & Hsub_c & Hlast_c & Hc2 & -> & ->).
      assert (key <= k_c) as Hkc.
      { apply (Habove index); [lia|]. rewrite list_lookup_fmap, Hcell. reflexivity. }
      rewrite !fmap_app in Hs_l.
      pose proof (StronglySorted_app_1_l _ _ _ Hs_l) as Hs1.
      pose proof (StronglySorted_app_1_l _ _ _ (StronglySorted_app_1_r _ _ _ Hs_l))
        as Hs_c.
      destruct (IH fuel child rows_c used_c Hsub_c Hs_c ltac:(lia))
        as (cursor & r & p & leaf & pre & post & Hfind & Htable & Hin & Hpb & Hleaf
            & Hcn & Hip & -> & Hpre & Hpost & Hupd).
      exists cursor, r, p, leaf, (rows1 ++ pre), (post ++ rows2 ++ rows_r).
      split; [exact Hfind|]. split; [exact Htable|].
      split.
      { apply elem_of_cons. right. apply elem_of_app. left.
        apply elem_of_app. right. apply elem_of_app. left. exact Hin. }
      split; [exact Hpb|]. split; [exact Hleaf|]. split; [exact Hcn|].
      split; [exact Hip|].
      split; [rewrite <- !app_assoc; reflexivity|].
      assert (Forall (fun x => x.1 < key) rows1) as Hrows1.
      { apply (children_rows_below _ _ _ _ _ Hc1 Hs1). intros k Hk.
        apply list_elem_of_lookup in Hk as [j Hj].
        pose proof (lookup_lt_Some _ _ _ Hj) as Hjlt.
        rewrite length_fmap, length_take in Hjlt.
        rewrite fmap_take in Hj.
        rewrite lookup_take_lt in Hj by lia.
        apply (Hbelow j); [lia|exact Hj]. }
      assert (k_c ∈ (pre ++ leaf ++ post).*1) as Hkc_in
        by (apply last_Some_elem_of; exact Hlast_c).
      assert (Forall (fun x => key < x.1) (rows2 ++ rows_r)) as Hafter.
      { apply Forall_forall. intros x Hx.
        assert (x.1 ∈ (rows2 ++ rows_r).*1) as Hx1
          by (apply list_elem_of_fmap_2; exact Hx).
        rewrite fmap_app in Hx1.
        assert (k_c < x.1); [|lia].
        apply elem_of_app in Hx1 as [Hx2|Hxr].
        - apply (StronglySorted_app_1_elem_of _ _ _ k_c (x.1)
                   (StronglySorted_app_1_r _ _ _ Hs_l)); assumption.
        - apply (StronglySorted_app_1_elem_of _ _ _ k_c (x.1) Hs); [|exact Hxr].
          apply fst_elem_app. right. apply fst_elem_app. left. exact Hkc_in. }
      split; [apply Forall_app; split; assumption|].
      split; [apply Forall_app; split; assumption|].
      intros Habsent Hnd value.
      apply NoDup_cons in Hnd as [Hpn Hnd].
      apply NoDup_app in Hnd as (Hnd_l & Hdisj_lr & Hnd_r).
      apply NoDup_app in Hnd_l as (Hnd1 & Hdisj_1 & Hnd_c2).
      apply NoDup_app in Hnd_c2 as (Hnd_c & Hdisj_c2 & Hnd2).
      set (leaf' := insert_cell leaf (Z.to_nat (cell_num cursor)) (key, value)) in *.
      set (node' := LeafNode r p leaf').
      assert (key ∉ (pre ++ leaf ++ post).*1) as Habsent_c.
      { intros Hin'. apply Habsent.
        apply fst_elem_app. left. apply fst_elem_app. right.
        apply fst_elem_app. left. exact Hin'. }
      specialize (Hupd Habsent_c Hnd_c value). fold leaf' in Hupd.
      assert (last ((pre ++ leaf' ++ post).*1) = Some k_c) as Hlast'.
      { rewrite <- Hlast_c.
        destruct (insertion_point_take_drop _ _ _ Hip) as [Htake Hdrop].
        assert (key < k_c) as Hlt.
        { destruct (Z.eq_dec key k_c) as [->|Hne]; [|lia].
          contradiction. }
        unfold leaf', insert_cell.
        rewrite <- (take_drop (Z.to_nat (cell_num cursor)) leaf) at 3.
        replace ((pre ++ (take (Z.to_nat (cell_num cursor)) leaf ++
                          (key, value) :: drop (Z.to_nat (cell_num cursor)) leaf) ++ post).*1)
          with ((pre ++ take (Z.to_nat (cell_num cursor)) leaf).*1 ++
                key :: (drop (Z.to_nat (cell_num cursor)) leaf ++ post).*1)
          by (rewrite !fmap_app, !fmap_cons, <- !app_assoc; reflexivity).
        replace ((pre ++ (take (Z.to_nat (cell_num cursor)) leaf ++
                          drop (Z.to_nat (cell_num cursor)) leaf) ++ post).*1)
          with ((pre ++ take (Z.to_nat (cell_num cursor)) leaf).*1 ++
                (drop (Z.to_nat (cell_num cursor)) leaf ++ post).*1)
          by (rewrite !fmap_app, <- !app_assoc; reflexivity).
        apply last_insert_before. intros Hnil.
        rewrite <- (take_drop (Z.to_nat (cell_num cursor)) leaf) in Hkc_in.
        replace ((pre ++ (take (Z.to_nat (cell_num cursor)) leaf ++
                          drop (Z.to_nat (cell_num cursor)) leaf) ++ post).*1)
          with ((pre ++ take (Z.to_nat (cell_num cursor)) leaf).*1 ++
                (drop (Z.to_nat (cell_num cursor)) leaf ++ post).*1) in Hkc_in
          by (rewrite !fmap_app, <- !app_assoc; reflexivity).
        rewrite Hnil, app_nil_r in Hkc_in.
        apply list_elem_of_fmap in Hkc_in as (x & -> & Hx).
        apply elem_of_app in Hx as [Hx|Hx].
        - rewrite Forall_forall in Hpre. specialize (Hpre x Hx). lia.
        - rewrite Forall_forall in Htake. specialize (Htake x Hx). lia. }
      assert (page_num cursor <> pn) as Hne_pn.
      { intros Heq. apply Hpn. rewrite <- Heq.
        apply elem_of_app. left. apply elem_of_app. right.
        apply elem_of_app. left. exact Hin. }
      exists is_root, parent, cells, right_child,
        (rows1 ++ (pre ++ leaf' ++ post) ++ rows2), (used1 ++ used_c ++ used2),
        rows_r, used_r.
      split; [exact Hb|].
      split; [rewrite lookup_insert_ne by exact Hne_pn; exact Hp|].
      split.
      { rewrite <- Hsplit. apply children_app.
        - apply children_frame; [exact Hc1|].
          intros Hin1. apply (Hdisj_1 _ Hin1). apply elem_of_app. left. exact Hin.
        - exact Hupd.
        - exact Hlast'.
        - apply children_frame; [exact Hc2|].
          intros Hin2. apply (Hdisj_c2 _ Hin). exact Hin2. }
      split.
      { apply subtree_frame; [exact Hr|]. intros Hinr.
        apply (Hdisj_lr (page_num cursor)); [|exact Hinr].
        apply elem_of_app. right. apply elem_of_app. left. exact Hin. }
      split; [|reflexivity].
      rewrite <- !app_assoc. reflexivity.
    + (* the rightmost child *)
      apply lookup_ge_None in Hcell.
      assert (Forall (fun x => x.1 < key) rows_l) as Hrows_l.
      { apply (children_rows_below _ _ _ _ _ Hc Hs_l). intros k Hk.
        apply list_elem_of_lookup in Hk as [j Hj].
        pose proof (lookup_lt_Some _ _ _ Hj) as Hjlt. rewrite length_fmap in Hjlt.
        apply (Hbelow j); [lia|exact Hj]. }
      destruct (IH fuel right_child rows_r used_r Hr Hs_r ltac:(lia))
        as (cursor & r & p & leaf & pre & post & Hfind & Htable & Hin & Hpb & Hleaf
            & Hcn & Hip & -> & Hpre & Hpost & Hupd).
      exists cursor, r, p, leaf, (rows_l ++ pre), post.
      split; [exact Hfind|]. split; [exact Htable|].
      split.
      { apply elem_of_cons. right. apply elem_of_app. right. exact Hin. }
      split; [exact Hpb|]. split; [exact Hleaf|]. split; [exact Hcn|].
      split; [exact Hip|].
      split; [rewrite <- !app_assoc; reflexivity|].
      split; [apply Forall_app; split; assumption|].
      split; [exact Hpost|].
      intros Habsent Hnd value.
      apply NoDup_cons in Hnd as [Hpn Hnd].
      apply NoDup_app in Hnd as (Hnd_l & Hdisj_lr & Hnd_r).
      assert (key ∉ (pre ++ leaf ++ post).*1) as Habsent_r.
      { intros Hin'. apply Habsent. apply fst_elem_app. right. exact Hin'. }
      specialize (Hupd Habsent_r Hnd_r value).
      assert (page_num cursor <> pn) as Hne_pn.
      { intros Heq. apply Hpn. rewrite <- Heq. apply elem_of_app. right. exact Hin. }
      eexists is_root, parent, cells, right_child, rows_l, used_l, _, used_r.
      split; [exact Hb|].
      split; [rewrite lookup_insert_ne by exact Hne_pn; exact Hp|].
      split.
      { apply children_frame; [exact Hc|].
        intros Hinl. apply (Hdisj_lr _ Hinl). exact Hin. }
      split; [exact Hupd|]. split; [|reflexivity].
      rewrite <- !app_assoc. reflexivity.
Qed.

Lemma sorted_insert_between (before after : list Z) (key : Z) :
  StronglySorted Z.lt (before ++ after) ->
  Forall (fun k => k < key) before ->
  Forall (fun k => key < k) after ->
  StronglySorted Z.lt (before ++ key :: after).
Proof.
  intros Hs Hb Ha. apply StronglySorted_app in Hs as (Hcross & Hsb & Hsa).
  apply StronglySorted_app_2; [|exact Hsb|].
  - intros x1 x2 H1 H2. apply elem_of_cons in H2 as [->|H2].
    + rewrite Forall_forall in Hb. exact (Hb _ H1).
    + exact (Hcross _ _ H1 H2).
  - constructor; [exact Hsa|exact Ha].
Qed.

End BTreeSearch.

(** C6. For every table whose pages form a B+tree (the invariants of the
    data model: increasing keys, every internal key the greatest key of
    its child, all leaves at one depth, no page used twice) and every key:
    table_find returns a cursor into a leaf; if the key is stored (with
    any row), the cursor is exactly at the cell that holds it; if the key
    is not stored, the cursor is at the index where it belongs, the keys
    before it in the leaf being smaller and the keys from it on greater,
    and writing the key there leaves a B+tree whose full scan is the old
    scan with the new cell added, in strictly increasing key order. *)
Theorem table_find_position (table : BTree.Table) (h : nat)
    (rows : list (Z * Row)) (key : Z) :
  BTree.well_formed table h rows ->
  exists cursor is_root parent cells,
    BTree.table_find table key = Ok cursor /\
    BTree.scan table = Ok rows /\
    BTree.pages (BTree.pager table) !! BTree.page_num cursor =
      Some (BTree.LeafNode is_root parent cells) /\
    0 <= BTree.cell_num cursor <= Z.of_nat (length cells) /\
    (forall value,
       (key, value) ∈ rows ->
       cells !! Z.to_nat (BTree.cell_num cursor) = Some (key, value)) /\
    (key ∉ rows.*1 ->
     (forall j k, (j < Z.to_nat (BTree.cell_num cursor))%nat ->
                  cells.*1 !! j = Some k -> k < key) /\
     (forall j k, (Z.to_nat (BTree.cell_num cursor) <= j)%nat ->
                  cells.*1 !! j = Some k -> key < k) /\
     forall value,
     exists table' rows',
       BTree.insert_at_cursor cursor key value = Ok table' /\
       BTree.well_formed table' h rows' /\
       BTree.scan table' = Ok rows' /\
       StronglySorted Z.lt (rows'.*1) /\
       rows' ≡ₚ (key, value) :: rows).
Proof.
  intros (used & Hsub & Hs & Hnd).
  pose proof (subtree_height _ _ _ _ _ Hsub Hnd) as Hh.
  destruct (find_from_spec table key h (Z.to_nat TABLE_MAX_PAGES) _ _ _ Hsub Hs Hh)
    as (cursor & r & p & cells & pre & post & Hfind & Htable & Hin & Hpb & Hleaf
        & Hcn & Hip & -> & Hpre & Hpost & Hupd).
  pose proof Hip as (Hlen & Hbelow & Habove). rewrite length_fmap in Hlen.
  assert (StronglySorted Z.lt (cells.*1)) as Hs_cells.
  { rewrite !fmap_app in Hs.
    exact (StronglySorted_app_1_l _ _ _ (StronglySorted_app_1_r _ _ _ Hs)). }
  exists cursor, r, p, cells.
  split; [exact Hfind|].
  split; [exact (scan_from_spec _ _ _ _ _ _ Hsub Hh)|].
  split; [exact Hleaf|]. split; [lia|]. split.
  - intros value Hval.
    apply elem_of_app in Hval as [Hval|Hval].
    { rewrite Forall_forall in Hpre. specialize (Hpre _ Hval). simpl in Hpre. lia. }
    apply elem_of_app in Hval as [Hval|Hval].
    2:{ rewrite Forall_forall in Hpost. specialize (Hpost _ Hval).
        simpl in Hpost. lia. }
    apply list_elem_of_lookup in Hval as [j Hj].
    assert (cells.*1 !! j = Some key) as Hjk
      by (rewrite list_lookup_fmap, Hj; reflexivity).
    destruct (Nat.lt_trichotomy j (Z.to_nat (BTree.cell_num cursor)))
      as [Hlt|[->|Hgt]].
    + specialize (Hbelow j key Hlt Hjk). lia.
    + exact Hj.
    + destruct (cells.*1 !! Z.to_nat (BTree.cell_num cursor)) as [k|] eqn:Hk.
      * pose proof (Habove _ k (Nat.le_refl _) Hk).
        pose proof (sorted_lookup_lt _ _ _ _ _ Hs_cells Hk Hjk Hgt). lia.
      * apply lookup_ge_None in Hk. apply lookup_lt_Some in Hjk. lia.
  - intros Habsent.
    assert (forall j k, (Z.to_nat (BTree.cell_num cursor) <= j)%nat ->
                        cells.*1 !! j = Some k -> key < k) as Habove'.
    { intros j k Hj Hjk. pose proof (Habove j k Hj Hjk) as Hle.
      destruct (Z.eq_dec key k) as [->|Hne]; [|lia].
      exfalso. apply Habsent. apply fst_elem_app. right. apply fst_elem_app. left.
      apply list_elem_of_lookup. exists j. exact Hjk. }
    split; [exact Hbelow|]. split; [exact Habove'|].
    intros value.
    set (index := Z.to_nat (BTree.cell_num cursor)) in *.
    set (cells' := BTree.insert_cell cells index (key, value)) in *.
    specialize (Hupd Habsent Hnd value).
    exists (BTree.set_node table (BTree.page_num cursor) (BTree.LeafNode r p cells')),
      (pre ++ cells' ++ post).
    assert (StronglySorted Z.lt ((pre ++ cells' ++ post).*1)) as Hs'.
    { unfold cells', BTree.insert_cell.
      replace ((pre ++ (take index cells ++ (key, value) :: drop index cells) ++ post).*1)
        with ((pre ++ take index cells).*1 ++ key :: (drop index cells ++ post).*1)
        by (rewrite !fmap_app, !fmap_cons, <- !app_assoc; reflexivity).
      destruct (insertion_point_take_drop _ _ _ Hip) as [Htake _].
      apply sorted_insert_between.
      - rewrite <- fmap_app, <- app_assoc, (app_assoc (take index cells)),
          take_drop. exact Hs.
      - apply Forall_fmap. apply Forall_app. split; [exact Hpre|exact Htake].
      - apply Forall_fmap. apply Forall_app. split; [|exact Hpost].
        apply Forall_forall. intros x Hx.
        apply list_elem_of_lookup in Hx as [j Hj]. rewrite lookup_drop in Hj.
        apply (Habove' (index + j)%nat x.1); [lia|].
        rewrite list_lookup_fmap, Hj. reflexivity. }
    split.
    { unfold BTree.insert_at_cursor. rewrite Htable.
      rewrite (get_page_node _ _ _ Hpb Hleaf). reflexivity. }
    split; [exists used; split; [exact Hupd|split; [exact Hs'|exact Hnd]]|].
    split.
    { exact (scan_from_spec
               (BTree.pager (BTree.set_node table (BTree.page_num cursor)
                               (BTree.LeafNode r p cells')))
               _ _ _ _ _ Hupd Hh). }
    split; [exact Hs'|].
    unfold cells', BTree.insert_cell.
    rewrite <- (take_drop index cells) at 3.
    rewrite <- !app_assoc. rewrite <- app_comm_cons.
    rewrite (app_assoc pre). rewrite <- Permutation_middle.
    rewrite <- app_assoc. reflexivity.
Qed.

Lemma example_tree_well_formed :
  BTree.well_formed BTree.example_tree 1
    [(1, make_row 1 "alice" "alice@example.com");
     (2, make_row 2 "bob" "bob@example.com");
     (5, make_row 5 "eve" "eve@example.com")].
Proof.
  exists [0; 1; 2]. split; [|split].
  - exists true, 0, [(2, 1)], 2,
      [(1, make_row 1 "alice" "alice@example.com");
       (2, make_row 2 "bob" "bob@example.com")], [1],
      [(5, make_row 5 "eve" "eve@example.com")], [2].
    split; [simpl; unfold TABLE_MAX_PAGES; lia|]. split; [reflexivity|].
    split; [|split; [|split; reflexivity]].
    + rewrite <- (app_nil_r [(1, make_row 1 "alice" "alice@example.com");
                             (2, make_row 2 "bob" "bob@example.com")]).
      apply (BTree.children_cons _ 2 1 [] _ [1] [] []).
      * exists false, 0. split; [unfold TABLE_MAX_PAGES; lia|].
        split; reflexivity.
      * reflexivity.
      * constructor.
    + exists false, 0. split; [unfold TABLE_MAX_PAGES; lia|]. split; reflexivity.
  - simpl. repeat constructor; lia.
  - apply NoDup_ListNoDup. repeat constructor; simpl; intuition lia.
Qed.

Lemma table_find_position_witness :
  exists cursor is_root parent cells,
    BTree.table_find BTree.example_tree 2 = Ok cursor /\
    BTree.pages (BTree.pager BTree.example_tree) !! BTree.page_num cursor =
      Some (BTree.LeafNode is_root parent cells) /\
    cells !! Z.to_nat (BTree.cell_num cursor) =
      Some (2, make_row 2 "bob" "bob@example.com").
Proof.
  destruct (table_find_position BTree.example_tree 1 _ 2 example_tree_well_formed)
    as (cursor & is_root & parent & cells & Hfind & _ & Hleaf & _ & Hfound & _).
  exists cursor, is_root, parent, cells.
  split; [exact Hfind|]. split; [exact Hleaf|].
  apply Hfound. apply elem_of_cons. right. apply elem_of_cons. left. reflexivity.
Defined.

(** * Further properties of the sources *)

(** ** The C library calls *)

Lemma char_code_inj (c1 c2 : ascii) : char_code c1 = char_code c2 -> c1 = c2.
Proof.
  unfold char_code. intros Hc. apply N2Z.inj in Hc.
  rewrite <- (ascii_N_embedding c1), <- (ascii_N_embedding c2), Hc. reflexivity.
Qed.

Lemma c_chars_nonzero (s : string) :
  Forall (fun c => char_code c <> 0) (c_chars s).
Proof.
  induction s as [|c s IH]; simpl; [constructor|].
  destruct (char_code c =? 0) eqn:Hc; [constructor|].
  constructor; [|exact IH]. apply Z.eqb_neq. exact Hc.
Qed.

Lemma c_chars_string (chars : list ascii) :
  Forall (fun c => char_code c <> 0) chars ->
  c_chars (string_of_list_ascii chars) = chars.
Proof.
  induction 1 as [|c chars Hc _ IH]; simpl; [reflexivity|].
  rewrite (proj2 (Z.eqb_neq _ _) Hc), IH. reflexivity.
Qed.

Lemma strcmp_eq (s1 s2 : list ascii) :
  Forall (fun c => char_code c <> 0) s1 ->
  Forall (fun c => char_code c <> 0) s2 ->
  strcmp s1 s2 = 0 <-> s1 = s2.
Proof.
  intros H1. revert s2. induction H1 as [|c1 s1 Hc1 _ IH]; intros s2 H2.
  - destruct H2 as [|c2 s2 Hc2 _]; simpl; split; try reflexivity;
      try discriminate. lia.
  - destruct H2 as [|c2 s2 Hc2 H2]; simpl.
    + split; [lia|discriminate].
    + destruct (char_code c1 =? char_code c2) eqn:Hc.
      * apply Z.eqb_eq, char_code_inj in Hc. subst c2.
        rewrite (IH s2 H2). split; [intros ->; reflexivity|].
        intros [= ->]. reflexivity.
      * apply Z.eqb_neq in Hc. split; [lia|].
        intros [= -> _]. contradiction.
Qed.

Lemma strncmp_eq (n : nat) :
  forall s1 s2 : list ascii,
    Forall (fun c => char_code c <> 0) s1 ->
    Forall (fun c => char_code c <> 0) s2 ->
    strncmp s1 s2 n = 0 <-> take n s1 = take n s2.
Proof.
  induction n as [|n IH]; intros s1 s2 H1 H2.
  - destruct s1; simpl; split; reflexivity.
  - destruct H1 as [|c1 s1 Hc1 H1], H2 as [|c2 s2 Hc2 H2]; simpl.
    + split; reflexivity.
    + split; [lia|discriminate].
    + split; [lia|discriminate].
    + destruct (char_code c1 =? char_code c2) eqn:Hc.
      * apply Z.eqb_eq, char_code_inj in Hc. subst c2.
        rewrite (IH s1 s2 H1 H2). split; [intros ->; reflexivity|].
        intros [= ->]. reflexivity.
      * apply Z.eqb_neq in Hc. split; [lia|].
        intros [= -> _]. contradiction.
Qed.

Lemma skip_spaces_whitespace (ws rest : list ascii) :
  whitespace ws -> skip_spaces (ws ++ rest) = skip_spaces rest.
Proof.
  induction 1 as [|c ws Hc _ IH]; simpl; [reflexivity|].
  rewrite Hc. exact IH.
Qed.

Lemma skip_spaces_field (c : ascii) (rest : list ascii) :
  isspace c = false -> skip_spaces (c :: rest) = c :: rest.
Proof. intros Hc. simpl. rewrite Hc. reflexivity. Qed.

Lemma scan_word_field (word rest : list ascii) :
  Forall (fun c => isspace c = false /\ char_code c <> 0) word ->
  field_end rest ->
  scan_word (word ++ rest) = (word, rest).
Proof.
  intros Hw Hend. induction Hw as [|c word [Hc _] _ IH]; simpl.
  - destruct rest as [|c rest]; [reflexivity|].
    destruct Hend as [Hc _]. simpl. rewrite Hc. reflexivity.
  - rewrite Hc, IH. reflexivity.
Qed.

Lemma scan_string_field (ws word rest : list ascii) :
  whitespace ws -> field word -> field_end rest ->
  scan_string (ws ++ word ++ rest) = Converted word rest.
Proof.
  intros Hws [Hne Hw] Hend. unfold scan_string.
  rewrite skip_spaces_whitespace by exact Hws.
  destruct word as [|c word]; [contradiction|].
  pose proof (Forall_inv Hw) as [Hc _].
  change ((c :: word) ++ rest) with (c :: (word ++ rest)).
  rewrite (skip_spaces_field c _ Hc).
  change (c :: (word ++ rest)) with ((c :: word) ++ rest).
  rewrite (scan_word_field _ _ Hw Hend). reflexivity.
Qed.

Lemma scan_string_end (ws : list ascii) :
  whitespace ws -> scan_string ws = InputFailure.
Proof.
  intros Hws. unfold scan_string.
  rewrite <- (app_nil_r ws), skip_spaces_whitespace by exact Hws. reflexivity.
Qed.

(** ** Decimal numbers: what [%d] prints, [%d] reads *)

Lemma scan_digits_stop (acc : Z) (rest : list ascii) :
  not_digit_next rest -> scan_digits acc rest = (acc, rest).
Proof.
  destruct rest as [|c rest]; simpl; [reflexivity|].
  intros ->. reflexivity.
Qed.

Lemma scan_digits_acc (d : Decimal.uint) :
  forall (acc : positive) (rest : list ascii),
    not_digit_next rest ->
    scan_digits (Z.pos acc)
      (list_ascii_of_string (NilEmpty.string_of_uint d) ++ rest) =
    (Z.pos (Pos.of_uint_acc d acc), rest).
Proof.
  induction d as [|d IH|d IH|d IH|d IH|d IH|d IH|d IH|d IH|d IH|d IH];
    intros acc rest Hrest;
    [apply scan_digits_stop; exact Hrest|..];
    cbn [NilEmpty.string_of_uint list_ascii_of_string app scan_digits
         Pos.of_uint_acc];
    match goal with
    | |- (if isdigit ?c then _ else _) = _ =>
        change (isdigit c) with true; cbv iota
    end;
    match goal with
    | |- scan_digits ?a _ = (Z.pos (Pos.of_uint_acc _ ?p), _) =>
        replace a with (Z.pos p) by (vm_compute char_code; lia)
    end;
    apply IH; exact Hrest.
Qed.

Lemma scan_digits_uint (d : Decimal.uint) (rest : list ascii) :
  not_digit_next rest ->
  scan_digits 0 (list_ascii_of_string (NilEmpty.string_of_uint d) ++ rest) =
  (Z.of_N (Pos.of_uint d), rest).
Proof.
  revert rest.
  induction d as [|d IH|d IH|d IH|d IH|d IH|d IH|d IH|d IH|d IH|d IH];
    intros rest Hrest;
    [apply scan_digits_stop; exact Hrest|..];
    cbn [NilEmpty.string_of_uint list_ascii_of_string app scan_digits
         Pos.of_uint];
    match goal with
    | |- (if isdigit ?c then _ else _) = _ =>
        change (isdigit c) with true; cbv iota
    end.
  - change (10 * 0 + (char_code "0" - 48)) with 0. apply IH. exact Hrest.
  - change (10 * 0 + (char_code "1" - 48)) with (Z.pos 1).
    rewrite scan_digits_acc by exact Hrest. reflexivity.
  - change (10 * 0 + (char_code "2" - 48)) with (Z.pos 2).
    rewrite scan_digits_acc by exact Hrest. reflexivity.
  - change (10 * 0 + (char_code "3" - 48)) with (Z.pos 3).
    rewrite scan_digits_acc by exact Hrest. reflexivity.
  - change (10 * 0 + (char_code "4" - 48)) with (Z.pos 4).
    rewrite scan_digits_acc by exact Hrest. reflexivity.
  - change (10 * 0 + (char_code "5" - 48)) with (Z.pos 5).
    rewrite scan_digits_acc by exact Hrest. reflexivity.
  - change (10 * 0 + (char_code "6" - 48)) with (Z.pos 6).
    rewrite scan_digits_acc by exact Hrest. reflexivity.
  - change (10 * 0 + (char_code "7" - 48)) with (Z.pos 7).
    rewrite scan_digits_acc by exact Hrest. reflexivity.
  - change (10 * 0 + (char_code "8" - 48)) with (Z.pos 8).
    rewrite scan_digits_acc by exact Hrest. reflexivity.
  - change (10 * 0 + (char_code "9" - 48)) with (Z.pos 9).
    rewrite scan_digits_acc by exact Hrest. reflexivity.
Qed.

Lemma isdigit_codes (c : ascii) :
  isdigit c = true ->
  isspace c = false /\ (char_code c =? 45) = false /\ (char_code c =? 43) = false.
Proof.
  unfold isdigit, isspace. intros Hd.
  apply andb_true_iff in Hd as [H1 H2].
  apply Z.leb_le in H1, H2.
  repeat split.
  - apply orb_false_iff. split; [apply Z.eqb_neq; lia|].
    apply andb_false_iff. right. apply Z.leb_gt. lia.
  - apply Z.eqb_neq. lia.
  - apply Z.eqb_neq. lia.
Qed.

Lemma scan_int_digits (c : ascii) (rest : list ascii) :
  isdigit c = true ->
  scan_int (c :: rest) =
  Converted (scan_digits 0 (c :: rest)).1 (scan_digits 0 (c :: rest)).2.
Proof.
  intros Hd. destruct (isdigit_codes c Hd) as (Hs & H45 & H43).
  unfold scan_int. rewrite (skip_spaces_field c rest Hs).
  rewrite H45, H43, Hd. destruct (scan_digits 0 (c :: rest)). reflexivity.
Qed.

Lemma scan_int_minus (c : ascii) (rest : list ascii) :
  isdigit c = true ->
  scan_int ("-"%char :: c :: rest) =
  Converted (- (scan_digits 0 (c :: rest)).1) (scan_digits 0 (c :: rest)).2.
Proof.
  intros Hd. unfold scan_int.
  rewrite (skip_spaces_field "-"%char (c :: rest)) by reflexivity.
  change (char_code "-" =? 45) with true. cbv iota. rewrite Hd.
  destruct (scan_digits 0 (c :: rest)). reflexivity.
Qed.

Lemma uint_text_digit (d : Decimal.uint) :
  d <> Decimal.Nil ->
  exists c chars,
    list_ascii_of_string (NilEmpty.string_of_uint d) = c :: chars /\
    isdigit c = true.
Proof.
  destruct d; [contradiction|..]; intros _; eexists _, _; split;
    reflexivity.
Qed.

Lemma uint_text_nonnil (d : Decimal.uint) :
  d <> Decimal.Nil ->
  NilZero.string_of_uint d = NilEmpty.string_of_uint d.
Proof. destruct d; [contradiction|..]; reflexivity. Qed.

(** What [%d] prints, [%d] reads back. *)
Lemma scan_int_text (v : Z) (rest : list ascii) :
  not_digit_next rest ->
  scan_int (int_text v ++ rest) = Converted v rest.
Proof.
  intros Hrest. unfold int_text.
  assert (forall d, d <> Decimal.Nil ->
            scan_digits 0 (list_ascii_of_string (NilZero.string_of_uint d) ++ rest) =
            (Z.of_N (Pos.of_uint d), rest) /\
            exists c chars,
              list_ascii_of_string (NilZero.string_of_uint d) = c :: chars /\
              isdigit c = true) as Huint.
  { intros d Hd. rewrite (uint_text_nonnil d Hd). split.
    - apply scan_digits_uint. exact Hrest.
    - apply uint_text_digit. exact Hd. }
  destruct v as [|p|p].
  - destruct (Huint (Decimal.D0 Decimal.Nil) ltac:(discriminate))
      as (Hscan & c & chars & Htext & Hd).
    change (Z.to_int 0) with (Decimal.Pos (Decimal.D0 Decimal.Nil)).
    cbn [NilZero.string_of_int]. rewrite Htext in *.
    change ((c :: chars) ++ rest) with (c :: (chars ++ rest)) in *.
    rewrite (scan_int_digits c _ Hd), Hscan. reflexivity.
  - destruct (Huint (Pos.to_uint p) (DecimalPos.Unsigned.to_uint_nonnil p))
      as (Hscan & c & chars & Htext & Hd).
    change (Z.to_int (Z.pos p)) with (Decimal.Pos (Pos.to_uint p)).
    cbn [NilZero.string_of_int]. rewrite Htext in *.
    change ((c :: chars) ++ rest) with (c :: (chars ++ rest)) in *.
    rewrite (scan_int_digits c _ Hd), Hscan. simpl.
    rewrite DecimalPos.Unsigned.of_to. reflexivity.
  - destruct (Huint (Pos.to_uint p) (DecimalPos.Unsigned.to_uint_nonnil p))
      as (Hscan & c & chars & Htext & Hd).
    change (Z.to_int (Z.neg p)) with (Decimal.Neg (Pos.to_uint p)).
    cbn [NilZero.string_of_int list_ascii_of_string]. rewrite Htext in *.
    change (("-"%char :: c :: chars) ++ rest) with ("-"%char :: c :: (chars ++ rest)).
    change ((c :: chars) ++ rest) with (c :: (chars ++ rest)) in *.
    rewrite (scan_int_minus c _ Hd), Hscan. simpl.
    rewrite DecimalPos.Unsigned.of_to. reflexivity.
Qed.

(** ** prepare_statement *)

Lemma whitespace_nonzero (ws : list ascii) :
  whitespace ws -> Forall (fun c => char_code c <> 0) ws.
Proof.
  intros Hws. apply (Forall_impl _ _ _ Hws).
  intros c Hc Hz. unfold isspace in Hc. rewrite Hz in Hc. discriminate Hc.
Qed.

Lemma whitespace_not_digit (c : ascii) : isspace c = true -> isdigit c = false.
Proof.
  unfold isspace, isdigit. intros Hs.
  apply orb_true_iff in Hs as [Hs|Hs].
  - apply Z.eqb_eq in Hs. rewrite Hs. reflexivity.
  - apply andb_true_iff in Hs as [_ Hs]. apply Z.leb_le in Hs.
    apply andb_false_iff. left. apply Z.leb_gt. lia.
Qed.

Lemma whitespace_field_end (ws rest : list ascii) :
  whitespace ws -> field_end rest -> field_end (ws ++ rest).
Proof.
  intros Hws Hrest. destruct Hws as [|c ws Hc _]; [exact Hrest|].
  split; [exact Hc|]. intros Hz. unfold isspace in Hc. rewrite Hz in Hc.
  discriminate Hc.
Qed.

Lemma field_end_not_digit (rest : list ascii) :
  field_end rest -> not_digit_next rest.
Proof.
  destruct rest as [|c rest]; [intros _; exact I|]. intros [Hc _].
  apply whitespace_not_digit. exact Hc.
Qed.

Lemma field_nonzero (chars : list ascii) :
  field chars -> Forall (fun c => char_code c <> 0) chars.
Proof.
  intros [_ Hf]. apply (Forall_impl _ _ _ Hf). intros c [_ Hc]. exact Hc.
Qed.

Lemma uint_text_nonzero (d : Decimal.uint) :
  Forall (fun c => char_code c <> 0)
    (list_ascii_of_string (NilEmpty.string_of_uint d)).
Proof.
  induction d; cbn [NilEmpty.string_of_uint list_ascii_of_string];
    constructor; try exact IHd; discriminate.
Qed.

Lemma int_text_nonzero (v : Z) : Forall (fun c => char_code c <> 0) (int_text v).
Proof.
  unfold int_text.
  assert (forall d, Forall (fun c => char_code c <> 0)
                      (list_ascii_of_string (NilZero.string_of_uint d))) as Hu.
  { intros d. destruct d; try apply uint_text_nonzero.
    repeat constructor. discriminate. }
  destruct (Z.to_int v) as [d|d]; cbn [NilZero.string_of_int list_ascii_of_string].
  - apply Hu.
  - constructor; [discriminate|apply Hu].
Qed.

Lemma scan_int_whitespace (ws rest : list ascii) :
  whitespace ws -> scan_int (ws ++ rest) = scan_int rest.
Proof.
  intros Hws. unfold scan_int. rewrite skip_spaces_whitespace by exact Hws.
  reflexivity.
Qed.

Lemma scan_int_end (ws : list ascii) :
  whitespace ws -> scan_int ws = InputFailure.
Proof.
  intros Hws. unfold scan_int.
  rewrite <- (app_nil_r ws), skip_spaces_whitespace by exact Hws. reflexivity.
Qed.

Lemma store_string_fits (array : list byte) (chars : list ascii) :
  (length chars < length array)%nat ->
  exists array',
    store_string array chars = Ok array' /\
    length array' = length array /\
    holds_string array' chars.
Proof.
  intros Hfit. unfold store_string.
  rewrite write_bytes_Ok by (rewrite ?length_app, ?length_map; simpl; lia).
  eexists. split; [reflexivity|]. split.
  - apply length_splice. rewrite length_app, length_map. simpl. lia.
  - unfold splice. simpl. rewrite <- app_assoc. eexists. reflexivity.
Qed.

Lemma store_string_inv (array array' : list byte) (chars : list ascii) :
  store_string array chars = Ok array' ->
  (length chars < length array)%nat /\
  length array' = length array /\
  holds_string array' chars.
Proof.
  unfold store_string. intros Hw. apply write_bytes_inv in Hw as (_ & Hb & ->).
  rewrite length_app, length_map in Hb. simpl in Hb.
  split; [lia|]. split.
  - apply length_splice. rewrite length_app, length_map. simpl. lia.
  - unfold splice. simpl. rewrite <- app_assoc. eexists. reflexivity.
Qed.

Lemma insert_line_chars (rest : list ascii) :
  Forall (fun c => char_code c <> 0) rest ->
  let line := list_ascii_of_string "insert" ++ rest in
  c_chars (string_of_list_ascii line) = line /\
  (strncmp line (list_ascii_of_string "insert") 6 =? 0) = true /\
  scan_literal (list_ascii_of_string "insert") line = Converted tt rest.
Proof.
  intros Hrest line. split; [|split].
  - apply c_chars_string. apply Forall_app. split; [|exact Hrest].
    repeat constructor; discriminate.
  - apply Z.eqb_eq. apply strncmp_eq.
    + apply Forall_app. split; [|exact Hrest]. repeat constructor; discriminate.
    + repeat constructor; discriminate.
    + reflexivity.
  - reflexivity.
Qed.

(** The assignments sscanf makes for zero, one, two and three fields. *)
Lemma sscanf_insert_no_field (ws : list ascii) (row : Row) :
  whitespace ws ->
  sscanf_insert (list_ascii_of_string "insert" ++ ws) row = Ok (EOF, row).
Proof.
  intros Hws. unfold sscanf_insert.
  change (scan_literal (list_ascii_of_string "insert")
            (list_ascii_of_string "insert" ++ ws)) with (Converted tt ws).
  cbv iota beta. rewrite (scan_int_end ws Hws). reflexivity.
Qed.

Lemma sscanf_insert_id (ws1 rest : list ascii) (v : Z) (row : Row) :
  whitespace ws1 -> field_end rest -> INT_MIN <= v <= INT_MAX ->
  sscanf_insert (list_ascii_of_string "insert" ++ ws1 ++ int_text v ++ rest) row =
  match scan_string rest with
  | Converted word input =>
      username' ← store_string (username row) word;
      match scan_string input with
      | Converted word' _ =>
          email' ← store_string (email row) word';
          Ok (3, {| id := v mod UINT32_MOD; username := username';
                    email := email' |})
      | _ => Ok (2, {| id := v mod UINT32_MOD; username := username';
                       email := email row |})
      end
  | _ => Ok (1, {| id := v mod UINT32_MOD; username := username row;
                   email := email row |})
  end.
Proof.
  intros Hws Hend Hv. unfold sscanf_insert.
  change (scan_literal (list_ascii_of_string "insert")
            (list_ascii_of_string "insert" ++ ws1 ++ int_text v ++ rest))
    with (Converted tt (ws1 ++ int_text v ++ rest)).
  cbv iota beta.
  rewrite (scan_int_whitespace ws1 _ Hws).
  rewrite (scan_int_text v rest (field_end_not_digit _ Hend)).
  rewrite bool_decide_eq_true_2 by exact Hv. reflexivity.
Qed.

Lemma skip_spaces_Forall (P : ascii -> Prop) (input : list ascii) :
  Forall P input -> Forall P (skip_spaces input).
Proof.
  induction 1 as [|c input Hc Hall IH]; simpl; [constructor|].
  destruct (isspace c); [exact IH|]. constructor; assumption.
Qed.

Lemma skip_spaces_head (input : list ascii) (c : ascii) (chars : list ascii) :
  skip_spaces input = c :: chars -> isspace c = false.
Proof.
  induction input as [|a input IH]; [discriminate|]. simpl.
  destruct (isspace a) eqn:Ha; [exact IH|]. intros [= -> _]. exact Ha.
Qed.

Lemma scan_digits_Forall (P : ascii -> Prop) (input : list ascii) :
  forall acc, Forall P input -> Forall P (snd (scan_digits acc input)).
Proof.
  induction input as [|c input IH]; intros acc Hall; simpl; [constructor|].
  destruct (isdigit c); [|exact Hall].
  apply IH. exact (Forall_inv_tail Hall).
Qed.

Lemma scan_word_Forall (P : ascii -> Prop) (input : list ascii) :
  Forall P input ->
  (Forall P (fst (scan_word input))) /\
  (Forall P (snd (scan_word input))) /\
  (Forall (fun c => isspace c = false) (fst (scan_word input))).
Proof.
  induction 1 as [|c input Hc Hall IH]; simpl; [repeat constructor|].
  destruct (isspace c) eqn:Hs.
  - simpl. split; [constructor|]. split; [constructor; assumption|constructor].
  - destruct (scan_word input) as [w r]. simpl in *.
    destruct IH as (Hw & Hr & Hns).
    split; [constructor; assumption|]. split; [exact Hr|].
    constructor; assumption.
Qed.

Lemma scan_literal_Forall (P : ascii -> Prop) (literal : list ascii) :
  forall input rest,
    Forall P input -> scan_literal literal input = Converted tt rest ->
    Forall P rest.
Proof.
  induction literal as [|l literal IH]; intros input rest Hall; simpl.
  - intros [= <-]. exact Hall.
  - destruct input as [|c input]; [discriminate|].
    destruct (char_code c =? char_code l); [|discriminate].
    apply IH. exact (Forall_inv_tail Hall).
Qed.

Lemma scan_int_Forall (P : ascii -> Prop) (input rest : list ascii) (v : Z) :
  Forall P input -> scan_int input = Converted v rest -> Forall P rest.
Proof.
  intros Hall. apply (skip_spaces_Forall P) in Hall. unfold scan_int.
  destruct (skip_spaces input) as [|c chars]; [discriminate|].
  assert (forall (negative : bool) digits,
            Forall P digits ->
            match digits with
            | [] => MatchingFailure
            | d :: _ =>
                if isdigit d
                then let '(v0, rest') := scan_digits 0 digits in
                     Converted (if negative then - v0 else v0) rest'
                else MatchingFailure
            end = Converted v rest -> Forall P rest) as Hdigits.
  { intros negative digits Hd. destruct digits as [|d digits]; [discriminate|].
    destruct (isdigit d); [|discriminate].
    pose proof (scan_digits_Forall P (d :: digits) 0 Hd) as Hrest.
    destruct (scan_digits 0 (d :: digits)) as [v0 rest']. intros [= _ <-].
    exact Hrest. }
  destruct (char_code c =? 45);
    [apply (Hdigits true chars); exact (Forall_inv_tail Hall)|].
  destruct (char_code c =? 43);
    [apply (Hdigits false chars); exact (Forall_inv_tail Hall)|].
  apply (Hdigits false (c :: chars)). exact Hall.
Qed.

Lemma scan_string_field_inv (input word rest : list ascii) :
  Forall (fun c => char_code c <> 0) input ->
  scan_string input = Converted word rest ->
  field word /\ Forall (fun c => char_code c <> 0) rest.
Proof.
  intros Hall. apply (skip_spaces_Forall _) in Hall. unfold scan_string.
  destruct (skip_spaces input) as [|c chars] eqn:Hskip; [discriminate|].
  pose proof (skip_spaces_head _ _ _ Hskip) as Hc.
  destruct (scan_word_Forall _ _ Hall) as (Hw & Hr & Hns).
  destruct (scan_word (c :: chars)) as [w r] eqn:Hscan. intros [= <- <-].
  simpl in Hw, Hr, Hns. split; [|exact Hr]. split.
  - simpl in Hscan. rewrite Hc in Hscan.
    destruct (scan_word chars). injection Hscan as <- _. discriminate.
  - apply Forall_forall. intros a Ha. rewrite Forall_forall in Hw, Hns.
    split; [exact (Hns a Ha)|exact (Hw a Ha)].
Qed.

Lemma sscanf_insert_inv (line : list ascii) (row row' : Row) (n : Z) :
  Forall (fun c => char_code c <> 0) line ->
  valid_row row ->
  sscanf_insert line row = Ok (n, row') ->
  valid_row row' /\
  n <= 3 /\
  (n < 3 -> email row' = email row) /\
  (n = 3 ->
   exists name mail,
     holds_string (username row') name /\ holds_string (email row') mail /\
     Z.of_nat (length name) <= COLUMN_USERNAME_SIZE /\
     Z.of_nat (length mail) <= COLUMN_EMAIL_SIZE /\
     field name /\ field mail).
Proof.
  intros Hline Hv. pose proof Hv as (Hid & Hu & He).
  assert (forall v u e,
            length u = length (username row) -> length e = length (email row) ->
            valid_row {| id := v mod UINT32_MOD; username := u; email := e |})
    as Hvalid.
  { intros v u e Hlu Hle. split; [|split]; simpl.
    - apply Z.mod_pos_bound. reflexivity.
    - rewrite Hlu. exact Hu.
    - rewrite Hle. exact He. }
  unfold sscanf_insert.
  destruct (scan_literal _ line) as [[] input| |] eqn:Hlit;
    [|intros [= <- <-]; unfold EOF; repeat split; try assumption; try lia;
      try reflexivity..].
  pose proof (scan_literal_Forall _ _ _ _ Hline Hlit) as Hinput.
  destruct (scan_int input) as [v input'| |] eqn:Hint;
    [|intros [= <- <-]; unfold EOF; repeat split; try assumption; try lia;
      try reflexivity..].
  pose proof (scan_int_Forall _ _ _ _ Hinput Hint) as Hinput'.
  case_bool_decide as Hrange; [|discriminate].
  destruct (scan_string input') as [name input''| |] eqn:Hname;
    [|intros [= <- <-]; split; [apply Hvalid; reflexivity|];
      split; [lia|]; split; [reflexivity|lia]..].
  cbn [username email id].
  destruct (store_string (username row) name) as [username'|e] eqn:Hstore;
    [|discriminate].
  apply store_string_inv in Hstore as (Hfit & Hlen & Hholds).
  destruct (scan_string_field_inv _ _ _ Hinput' Hname) as [Hfname Hinput''].
  cbn [mbind result_bind].
  destruct (scan_string input'') as [mail input'''| |] eqn:Hmail;
    [|intros [= <- <-]; split; [apply Hvalid; [exact Hlen|reflexivity]|];
      split; [lia|]; split; [reflexivity|lia]..].
  cbn [username email id].
  destruct (store_string (email row) mail) as [email'|e] eqn:Hstore';
    [|discriminate].
  apply store_string_inv in Hstore' as (Hfit' & Hlen' & Hholds').
  destruct (scan_string_field_inv _ _ _ Hinput'' Hmail) as [Hfmail _].
  cbn [mbind result_bind]. intros [= <- <-].
  split; [apply Hvalid; assumption|]. split; [lia|]. split; [lia|].
  intros _. exists name, mail. cbn [username email].
  unfold USERNAME_SIZE, EMAIL_SIZE in *.
  split; [exact Hholds|]. split; [exact Hholds'|].
  split; [lia|]. split; [lia|]. split; assumption.
Qed.

Lemma prepare_statement_insert (rest : list ascii) (statement : Statement) :
  Forall (fun c => char_code c <> 0) rest ->
  prepare_statement
    (input_line (string_of_list_ascii (list_ascii_of_string "insert" ++ rest)))
    statement =
  '(args_assigned, row) ←
     sscanf_insert (list_ascii_of_string "insert" ++ rest) (row_to_insert statement);
  if args_assigned <? 3
  then Ok (PREPARE_SYNTAX_ERROR, {| type := STATEMENT_INSERT; row_to_insert := row |})
  else Ok (PREPARE_SUCCESS, {| type := STATEMENT_INSERT; row_to_insert := row |}).
Proof.
  intros Hrest. destruct (insert_line_chars rest Hrest) as (Hchars & Hcmp & _).
  unfold prepare_statement, input_line. cbn [buffer].
  rewrite Hchars, Hcmp. reflexivity.
Qed.

Lemma prepare_insert_fields (statement : Statement) (v : Z)
    (ws1 ws2 ws3 name mail tail : list ascii) :
  valid_row (row_to_insert statement) ->
  INT_MIN <= v <= INT_MAX ->
  whitespace ws1 -> whitespace ws2 -> ws2 <> [] -> whitespace ws3 -> ws3 <> [] ->
  field name -> field mail -> field_end tail ->
  Forall (fun c => char_code c <> 0) tail ->
  Z.of_nat (length name) <= COLUMN_USERNAME_SIZE ->
  Z.of_nat (length mail) <= COLUMN_EMAIL_SIZE ->
  exists row,
    prepare_statement
      (input_line
         (string_of_list_ascii
            (list_ascii_of_string "insert" ++ ws1 ++ int_text v ++ ws2 ++ name
               ++ ws3 ++ mail ++ tail)))
      statement
    = Ok (PREPARE_SUCCESS, {| type := STATEMENT_INSERT; row_to_insert := row |}) /\
    id row = v mod UINT32_MOD /\
    holds_string (username row) name /\
    holds_string (email row) mail /\
    valid_row row.
Proof.
  intros Hv Hrange Hws1 Hws2 Hne2 Hws3 Hne3 Hname Hmail Hend Htail Hlname Hlmail.
  pose proof Hv as (_ & Hu & He).
  unfold USERNAME_SIZE, EMAIL_SIZE in Hu, He.
  assert (field_end (ws3 ++ mail ++ tail)) as Hend3.
  { destruct Hws3 as [|c ws3 Hc Hws3]; [contradiction|]. split; [exact Hc|].
    intros Hz. unfold isspace in Hc. rewrite Hz in Hc. discriminate Hc. }
  assert (field_end (ws2 ++ name ++ ws3 ++ mail ++ tail)) as Hend2.
  { destruct Hws2 as [|c ws2 Hc Hws2]; [contradiction|]. split; [exact Hc|].
    intros Hz. unfold isspace in Hc. rewrite Hz in Hc. discriminate Hc. }
  rewrite prepare_statement_insert.
  2:{ repeat (apply Forall_app; split);
        auto using whitespace_nonzero, int_text_nonzero, field_nonzero. }
  rewrite (sscanf_insert_id ws1 _ v _ Hws1 Hend2 Hrange).
  rewrite (scan_string_field ws2 name _ Hws2 Hname Hend3).
  destruct (store_string_fits (username (row_to_insert statement)) name)
    as (username' & -> & Hlen & Hholds); [lia|].
  cbn [mbind result_bind].
  rewrite (scan_string_field ws3 mail _ Hws3 Hmail Hend).
  destruct (store_string_fits (email (row_to_insert statement)) mail)
    as (email' & -> & Hlen' & Hholds'); [lia|].
  cbn [mbind result_bind]. change (3 <? 3) with false. cbv iota.
  eexists. split; [reflexivity|]. cbn [id username email].
  split; [reflexivity|]. split; [exact Hholds|]. split; [exact Hholds'|].
  split; [|split]; cbn [id username email].
  - apply Z.mod_pos_bound. reflexivity.
  - rewrite Hlen. apply Hv.
  - rewrite Hlen'. apply Hv.
Qed.

(** X1. An insert line with its three fields is prepared into the statement:
    the number [%d] reads (as [print_row] would print it), and the two
    words as C strings; white space between the fields, even none after
    the keyword, and anything after the third field do not matter. *)
Theorem prepare_statement_insert_line (statement : Statement) (v : Z)
    (ws1 ws2 ws3 name mail tail : list ascii) :
  valid_row (row_to_insert statement) ->
  INT_MIN <= v <= INT_MAX ->
  whitespace ws1 -> whitespace ws2 -> ws2 <> [] -> whitespace ws3 -> ws3 <> [] ->
  field name -> field mail -> field_end tail ->
  Forall (fun c => char_code c <> 0) tail ->
  Z.of_nat (length name) <= COLUMN_USERNAME_SIZE ->
  Z.of_nat (length mail) <= COLUMN_EMAIL_SIZE ->
  exists row,
    prepare_statement
      (input_line
         (string_of_list_ascii
            (list_ascii_of_string "insert" ++ ws1 ++ int_text v ++ ws2 ++ name
               ++ ws3 ++ mail ++ tail)))
      statement
    = Ok (PREPARE_SUCCESS, {| type := STATEMENT_INSERT; row_to_insert := row |}) /\
    id row = v mod UINT32_MOD /\
    holds_string (username row) name /\
    holds_string (email row) mail /\
    valid_row row.
Proof.
  intros Hv Hrange Hws1 Hws2 Hne2 Hws3 Hne3 Hname Hmail Hend Htail Hlname Hlmail.
  exact (prepare_insert_fields statement v ws1 ws2 ws3 name mail tail Hv Hrange
           Hws1 Hws2 Hne2 Hws3 Hne3 Hname Hmail Hend Htail Hlname Hlmail).
Qed.

Lemma prepare_statement_insert_line_witness :
  exists row,
    prepare_statement
      (input_line
         (string_of_list_ascii
            (list_ascii_of_string "insert" ++ [] ++ int_text (-7)
               ++ list_ascii_of_string " " ++ list_ascii_of_string "alice"
               ++ list_ascii_of_string "  " ++ list_ascii_of_string "a@example.com"
               ++ list_ascii_of_string " and more")))
      blank_statement
    = Ok (PREPARE_SUCCESS, {| type := STATEMENT_INSERT; row_to_insert := row |}) /\
    id row = (-7) mod UINT32_MOD /\
    holds_string (username row) (list_ascii_of_string "alice") /\
    holds_string (email row) (list_ascii_of_string "a@example.com") /\
    valid_row row.
Proof.
  apply (prepare_statement_insert_line blank_statement (-7) []
           (list_ascii_of_string " ") (list_ascii_of_string "  ")
           (list_ascii_of_string "alice") (list_ascii_of_string "a@example.com")
           (list_ascii_of_string " and more")).
  - apply valid_make_row. vm_compute. split; [discriminate|reflexivity].
  - vm_compute. split; discriminate.
  - constructor.
  - repeat constructor.
  - discriminate.
  - repeat constructor.
  - discriminate.
  - split; [discriminate|]. repeat constructor; discriminate.
  - split; [discriminate|]. repeat constructor; discriminate.
  - split; [reflexivity|discriminate].
  - repeat constructor; discriminate.
  - vm_compute. discriminate.
  - vm_compute. discriminate.
Defined.

(** X2. A line that starts with "insert" but has fewer than three fields is a
    PREPARE_SYNTAX_ERROR; the fields sscanf has read before it gives up are
    in the statement all the same. *)
Theorem prepare_statement_missing_fields (statement : Statement) (v : Z)
    (ws1 ws2 ws3 name : list ascii) :
  valid_row (row_to_insert statement) ->
  INT_MIN <= v <= INT_MAX ->
  whitespace ws1 -> whitespace ws2 -> whitespace ws3 ->
  field name -> Z.of_nat (length name) <= COLUMN_USERNAME_SIZE ->
  prepare_statement
    (input_line (string_of_list_ascii (list_ascii_of_string "insert" ++ ws1)))
    statement
  = Ok (PREPARE_SYNTAX_ERROR,
        {| type := STATEMENT_INSERT; row_to_insert := row_to_insert statement |}) /\
  prepare_statement
    (input_line
       (string_of_list_ascii
          (list_ascii_of_string "insert" ++ ws1 ++ int_text v ++ ws2)))
    statement
  = Ok (PREPARE_SYNTAX_ERROR,
        {| type := STATEMENT_INSERT;
           row_to_insert :=
             {| id := v mod UINT32_MOD;
                username := username (row_to_insert statement);
                email := email (row_to_insert statement) |} |}) /\
  (ws2 <> [] ->
   exists username',
     prepare_statement
       (input_line
          (string_of_list_ascii
             (list_ascii_of_string "insert" ++ ws1 ++ int_text v ++ ws2 ++ name
                ++ ws3)))
       statement
     = Ok (PREPARE_SYNTAX_ERROR,
           {| type := STATEMENT_INSERT;
              row_to_insert :=
                {| id := v mod UINT32_MOD;
                   username := username';
                   email := email (row_to_insert statement) |} |}) /\
     holds_string username' name).
Proof.
  intros Hv Hrange Hws1 Hws2 Hws3 Hname Hlname.
  pose proof Hv as (_ & Hu & _). unfold USERNAME_SIZE in Hu.
  split; [|split].
  - rewrite prepare_statement_insert by (apply whitespace_nonzero; exact Hws1).
    rewrite (sscanf_insert_no_field ws1 _ Hws1). reflexivity.
  - rewrite prepare_statement_insert
      by (repeat (apply Forall_app; split);
          auto using whitespace_nonzero, int_text_nonzero).
    rewrite (sscanf_insert_id ws1 ws2 v _ Hws1
               ltac:(rewrite <- (app_nil_r ws2);
                     apply whitespace_field_end; [exact Hws2|exact I]) Hrange).
    rewrite (scan_string_end ws2 Hws2). reflexivity.
  - intros Hne2.
    assert (field_end (ws2 ++ name ++ ws3)) as Hend2.
    { destruct Hws2 as [|c ws2 Hc Hws2]; [contradiction|]. split; [exact Hc|].
      intros Hz. unfold isspace in Hc. rewrite Hz in Hc. discriminate Hc. }
    assert (field_end ws3) as Hend3.
    { rewrite <- (app_nil_r ws3). apply whitespace_field_end; [exact Hws3|exact I]. }
    rewrite prepare_statement_insert
      by (repeat (apply Forall_app; split);
          auto using whitespace_nonzero, int_text_nonzero, field_nonzero).
    rewrite (sscanf_insert_id ws1 _ v _ Hws1 Hend2 Hrange).
    rewrite (scan_string_field ws2 name ws3 Hws2 Hname Hend3).
    destruct (store_string_fits (username (row_to_insert statement)) name)
      as (username' & -> & _ & Hholds); [lia|].
    cbn [mbind result_bind]. rewrite (scan_string_end ws3 Hws3).
    exists username'. split; [reflexivity|exact Hholds].
Qed.

Lemma prepare_statement_missing_fields_witness :
  prepare_statement
    (input_line (string_of_list_ascii (list_ascii_of_string "insert" ++ [])))
    blank_statement
  = Ok (PREPARE_SYNTAX_ERROR,
        {| type := STATEMENT_INSERT; row_to_insert := row_to_insert blank_statement |}).
Proof.
  refine (proj1 (prepare_statement_missing_fields blank_statement 1 []
                   (list_ascii_of_string " ") []
                   (list_ascii_of_string "alice") _ _ _ _ _ _ _)).
  - apply valid_make_row. vm_compute. split; [discriminate|reflexivity].
  - vm_compute. split; discriminate.
  - constructor.
  - repeat constructor.
  - constructor.
  - split; [discriminate|]. repeat constructor; discriminate.
  - vm_compute. discriminate.
Defined.

(** X3. Which lines prepare_statement recognizes: "insert" as a prefix of the
    line (sscanf then decides between success and syntax error), "select"
    as the whole line; every other line is unrecognized and leaves the
    statement as it was. *)
Theorem prepare_statement_keywords (input_buffer : InputBuffer)
    (statement : Statement) :
  let line := c_chars (buffer input_buffer) in
  (take 6 line = list_ascii_of_string "insert" ->
   forall r statement',
     prepare_statement input_buffer statement = Ok (r, statement') ->
     type statement' = STATEMENT_INSERT /\
     (r = PREPARE_SUCCESS \/ r = PREPARE_SYNTAX_ERROR)) /\
  (line = list_ascii_of_string "select" ->
   prepare_statement input_buffer statement =
   Ok (PREPARE_SUCCESS,
       {| type := STATEMENT_SELECT; row_to_insert := row_to_insert statement |})) /\
  (take 6 line <> list_ascii_of_string "insert" ->
   line <> list_ascii_of_string "select" ->
   prepare_statement input_buffer statement =
   Ok (PREPARE_UNRECOGNIZED_STATEMENT, statement)).
Proof.
  intros line.
  assert (Forall (fun c => char_code c <> 0) (list_ascii_of_string "insert")) as Hi
    by (repeat constructor; discriminate).
  assert (Forall (fun c => char_code c <> 0) (list_ascii_of_string "select")) as Hs
    by (repeat constructor; discriminate).
  pose proof (c_chars_nonzero (buffer input_buffer)) as Hline. fold line in Hline.
  pose proof (strncmp_eq 6 line _ Hline Hi) as Hncmp.
  pose proof (strcmp_eq line _ Hline Hs) as Hcmp.
  change (take 6 (list_ascii_of_string "insert"))
    with (list_ascii_of_string "insert") in Hncmp.
  unfold prepare_statement. fold line.
  split; [|split].
  - intros Hprefix r statement'.
    rewrite (proj2 (Z.eqb_eq _ _) (proj2 Hncmp Hprefix)).
    destruct (sscanf_insert line (row_to_insert statement)) as [[args row]|e];
      [|discriminate].
    cbn [mbind result_bind]. destruct (args <? 3); intros [= <- <-];
      (split; [reflexivity|]); [right|left]; reflexivity.
  - intros Hselect.
    assert (take 6 line <> list_ascii_of_string "insert") as Hno
      by (rewrite Hselect; discriminate).
    rewrite (proj2 (Z.eqb_neq _ _) (fun H => Hno (proj1 Hncmp H))).
    rewrite (proj2 (Z.eqb_eq _ _) (proj2 Hcmp Hselect)). reflexivity.
  - intros Hno Hnot.
    rewrite (proj2 (Z.eqb_neq _ _) (fun H => Hno (proj1 Hncmp H))).
    rewrite (proj2 (Z.eqb_neq _ _) (fun H => Hnot (proj1 Hcmp H))). reflexivity.
Qed.

Lemma prepare_statement_keywords_witness :
  prepare_statement (input_line "select ") blank_statement =
  Ok (PREPARE_UNRECOGNIZED_STATEMENT, blank_statement).
Proof.
  refine (proj2 (proj2 (prepare_statement_keywords (input_line "select ")
                          blank_statement)) _ _).
  - vm_compute. discriminate.
  - vm_compute. discriminate.
Defined.

Lemma scan_literal_insert (line : list ascii) :
  take 6 line = list_ascii_of_string "insert" ->
  scan_literal (list_ascii_of_string "insert") line = Converted tt (drop 6 line).
Proof.
  intros Hprefix. rewrite <- (take_drop 6 line) at 1. rewrite Hprefix. reflexivity.
Qed.

Lemma store_string_fault (array : list byte) (word : list ascii) (e : fault) :
  store_string array word = Fault e ->
  e = MemoryFault /\ (length array <= length word)%nat.
Proof.
  unfold store_string, write_bytes. rewrite length_app, length_map. cbn [length].
  case_bool_decide as Hfit; [discriminate|]. intros [= <-].
  split; [reflexivity|lia].
Qed.

(** The two ways sscanf can go wrong on an insert line: the number [%d]
    reads is no [int], or a word [%s] reads is longer than its array. *)
Lemma sscanf_insert_fault (line : list ascii) (row : Row) (e : fault) :
  Forall (fun c => char_code c <> 0) line ->
  valid_row row ->
  sscanf_insert line row = Fault e ->
  exists input v rest,
    scan_literal (list_ascii_of_string "insert") line = Converted tt input /\
    scan_int input = Converted v rest /\
    ((e = UndefinedBehavior /\ ~ INT_MIN <= v <= INT_MAX) \/
     (e = MemoryFault /\ INT_MIN <= v <= INT_MAX /\
      exists name rest',
        scan_string rest = Converted name rest' /\ field name /\
        (COLUMN_USERNAME_SIZE < Z.of_nat (length name) \/
         exists mail rest'',
           scan_string rest' = Converted mail rest'' /\ field mail /\
           COLUMN_EMAIL_SIZE < Z.of_nat (length mail)))).
Proof.
  intros Hline (_ & Hu & He). unfold USERNAME_SIZE in Hu. unfold EMAIL_SIZE in He.
  unfold sscanf_insert.
  destruct (scan_literal _ line) as [[] input| |] eqn:Hlit; try discriminate.
  pose proof (scan_literal_Forall _ _ _ _ Hline Hlit) as Hinput.
  destruct (scan_int input) as [v rest| |] eqn:Hint; try discriminate.
  pose proof (scan_int_Forall _ _ _ _ Hinput Hint) as Hrest.
  intros Hfault. exists input, v, rest.
  split; [first [exact Hlit|reflexivity]|].
  split; [first [exact Hint|reflexivity]|].
  case_bool_decide as Hrange; [right|left; split; [congruence|exact Hrange]].
  cbn [username email id] in Hfault.
  destruct (scan_string rest) as [name rest'| |] eqn:Hname; try discriminate.
  destruct (scan_string_field_inv _ _ _ Hrest Hname) as (Hfname & Hrest').
  destruct (store_string (username row) name) as [username'|e1] eqn:Hstore.
  - cbn [mbind result_bind username email id] in Hfault.
    destruct (scan_string rest') as [mail rest''| |] eqn:Hmail; try discriminate.
    destruct (scan_string_field_inv _ _ _ Hrest' Hmail) as (Hfmail & _).
    destruct (store_string (email row) mail) as [email'|e2] eqn:Hstore';
      [discriminate|].
    cbn [mbind result_bind] in Hfault. injection Hfault as <-.
    apply store_string_fault in Hstore' as (-> & Hlong).
    split; [reflexivity|]. split; [exact Hrange|].
    exists name, rest'. split; [first [exact Hname|reflexivity]|].
    split; [exact Hfname|].
    right. exists mail, rest''. split; [first [exact Hmail|reflexivity]|].
    split; [exact Hfmail|].
    unfold COLUMN_EMAIL_SIZE in *. lia.
  - cbn [mbind result_bind] in Hfault. injection Hfault as <-.
    apply store_string_fault in Hstore as (-> & Hlong).
    split; [reflexivity|]. split; [exact Hrange|].
    exists name, rest'. split; [first [exact Hname|reflexivity]|].
    split; [exact Hfname|].
    left. unfold COLUMN_USERNAME_SIZE in *. lia.
Qed.

(** X4. prepare_statement keeps the row of the statement well-formed on the
    lines sscanf can handle, and nothing in it sees to the others.  For
    every line, one of three: the call returns, the row is still a
    well-formed Row, and a successfully prepared insert holds two properly
    terminated C strings that fit their arrays, none of them empty or with
    white space; or the line starts with "insert" and the number [%d]
    reads is no [int], which has no defined conversion; or the line starts
    with "insert" and the word the first [%s] reads has more than
    COLUMN_USERNAME_SIZE characters, or the word the second reads more
    than COLUMN_EMAIL_SIZE, and is stored past the end of its array. *)
Theorem prepare_statement_keeps_rows_valid (input_buffer : InputBuffer)
    (statement : Statement) :
  valid_row (row_to_insert statement) ->
  let line := c_chars (buffer input_buffer) in
  (exists r statement',
     prepare_statement input_buffer statement = Ok (r, statement') /\
     valid_row (row_to_insert statement') /\
     (r = PREPARE_SUCCESS -> type statement' = STATEMENT_INSERT ->
      exists name mail,
        holds_string (username (row_to_insert statement')) name /\
        holds_string (email (row_to_insert statement')) mail /\
        Z.of_nat (length name) <= COLUMN_USERNAME_SIZE /\
        Z.of_nat (length mail) <= COLUMN_EMAIL_SIZE /\
        field name /\ field mail)) \/
  (exists v rest,
     take 6 line = list_ascii_of_string "insert" /\
     scan_int (drop 6 line) = Converted v rest /\
     ~ INT_MIN <= v <= INT_MAX /\
     prepare_statement input_buffer statement = Fault UndefinedBehavior) \/
  (exists v rest name rest',
     take 6 line = list_ascii_of_string "insert" /\
     scan_int (drop 6 line) = Converted v rest /\
     INT_MIN <= v <= INT_MAX /\
     scan_string rest = Converted name rest' /\ field name /\
     (COLUMN_USERNAME_SIZE < Z.of_nat (length name) \/
      exists mail rest'',
        scan_string rest' = Converted mail rest'' /\ field mail /\
        COLUMN_EMAIL_SIZE < Z.of_nat (length mail)) /\
     prepare_statement input_buffer statement = Fault MemoryFault).
Proof.
  intros Hv line.
  assert (Forall (fun c => char_code c <> 0) (list_ascii_of_string "insert")) as Hi
    by (repeat constructor; discriminate).
  pose proof (c_chars_nonzero (buffer input_buffer)) as Hline. fold line in Hline.
  pose proof (strncmp_eq 6 line _ Hline Hi) as Hncmp.
  change (take 6 (list_ascii_of_string "insert"))
    with (list_ascii_of_string "insert") in Hncmp.
  unfold prepare_statement. fold line.
  destruct (strncmp line _ 6 =? 0) eqn:Hcmp.
  - apply Z.eqb_eq in Hcmp. apply Hncmp in Hcmp.
    destruct (sscanf_insert line (row_to_insert statement)) as [[args row]|e]
      eqn:Hscan.
    + left.
      destruct (sscanf_insert_inv _ _ _ _ Hline Hv Hscan)
        as (Hv' & Hle & _ & Hthree).
      cbn [mbind result_bind]. destruct (args <? 3) eqn:Hargs.
      * eexists _, _. split; [reflexivity|]. split; [exact Hv'|]. discriminate.
      * eexists _, _. split; [reflexivity|]. split; [exact Hv'|].
        intros _ _. apply Hthree. apply Z.ltb_ge in Hargs. lia.
    + right.
      destruct (sscanf_insert_fault _ _ _ Hline Hv Hscan)
        as (input & v & rest & Hlit & Hint & Hcase).
      rewrite (scan_literal_insert line Hcmp) in Hlit. injection Hlit as <-.
      destruct Hcase as [(-> & Hout)|(-> & Hrange & name & rest' & Hname & Hf & Hlong)].
      * left. exists v, rest. repeat split; assumption || reflexivity.
      * right. exists v, rest, name, rest'.
        split; [exact Hcmp|]. split; [exact Hint|]. split; [exact Hrange|].
        split; [exact Hname|]. split; [exact Hf|]. split; [exact Hlong|reflexivity].
  - left. destruct (strcmp line _ =? 0).
    + eexists _, _. split; [reflexivity|]. split; [exact Hv|].
      intros _ Htype. discriminate Htype.
    + eexists _, _. split; [reflexivity|]. split; [exact Hv|]. discriminate.
Qed.

Lemma prepare_statement_keeps_rows_valid_witness :
  (exists name mail,
     holds_string (username (make_row 1 "alice" "alice@example.com")) name /\
     holds_string (email (make_row 1 "alice" "alice@example.com")) mail /\
     Z.of_nat (length name) <= COLUMN_USERNAME_SIZE /\
     Z.of_nat (length mail) <= COLUMN_EMAIL_SIZE /\
     field name /\ field mail) /\
  exists v rest name rest',
    scan_int
      (drop 6 (c_chars (buffer
         (input_line "insert 1 aaaaaaaaaaaaaaaaaaaaaaaaaaaaaaaaa e@x")))) =
      Converted v rest /\
    scan_string rest = Converted name rest' /\
    COLUMN_USERNAME_SIZE < Z.of_nat (length name) /\
    prepare_statement (input_line "insert 1 aaaaaaaaaaaaaaaaaaaaaaaaaaaaaaaaa e@x")
      blank_statement = Fault MemoryFault.
Proof.
  assert (valid_row (row_to_insert blank_statement)) as Hv
    by (apply valid_make_row; split; [lia|reflexivity]).
  split.
  - destruct (prepare_statement_keeps_rows_valid
                (input_line "insert 1 alice alice@example.com") blank_statement Hv)
      as [(r & statement' & Hprep & _ & Hheld)|[(v & rest & _ & _ & _ & Hf)|
          (v & rest & name & rest' & _ & _ & _ & _ & _ & _ & Hf)]].
    + assert (prepare_statement (input_line "insert 1 alice alice@example.com")
                blank_statement =
              Ok (PREPARE_SUCCESS,
                  insert_statement (make_row 1 "alice" "alice@example.com")))
        as Hrun by (vm_compute; reflexivity).
      rewrite Hrun in Hprep. injection Hprep as <- <-.
      exact (Hheld eq_refl eq_refl).
    + vm_compute in Hf. discriminate Hf.
    + vm_compute in Hf. discriminate Hf.
  - destruct (prepare_statement_keeps_rows_valid
                (input_line "insert 1 aaaaaaaaaaaaaaaaaaaaaaaaaaaaaaaaa e@x")
                blank_statement Hv)
      as [(r & statement' & Hprep & _)|[(v & rest & _ & _ & _ & Hf)|
          (v & rest & name & rest' & _ & Hint & _ & Hname & _ & Hlong & Hf)]].
    + vm_compute in Hprep. discriminate Hprep.
    + vm_compute in Hf. discriminate Hf.
    + exists v, rest, name, rest'. split; [exact Hint|]. split; [exact Hname|].
      split; [|exact Hf].
      destruct Hlong as [Hlong|(mail & rest'' & Hmail & _ & Hlong)]; [exact Hlong|].
      exfalso. vm_compute in Hint. injection Hint as <- <-.
      vm_compute in Hname. injection Hname as <- <-.
      vm_compute in Hmail. injection Hmail as <- <-.
      vm_compute in Hlong. discriminate Hlong.
Defined.

(** X5. What prepare_statement can return: never PREPARE_NEGATIVE_ID nor
    PREPARE_STRING_TOO_LONG, which PrepareResult declares; an unrecognized
    line leaves the statement as it was, while a syntax error has already
    made it an insert statement; and only a line that starts with "insert"
    can make the C library fail. *)
Theorem prepare_statement_results (input_buffer : InputBuffer)
    (statement : Statement) :
  (forall r statement',
     prepare_statement input_buffer statement = Ok (r, statement') ->
     r <> PREPARE_NEGATIVE_ID /\ r <> PREPARE_STRING_TOO_LONG /\
     (r = PREPARE_UNRECOGNIZED_STATEMENT -> statement' = statement) /\
     (r = PREPARE_SYNTAX_ERROR -> type statement' = STATEMENT_INSERT)) /\
  (forall e,
     prepare_statement input_buffer statement = Fault e ->
     take 6 (c_chars (buffer input_buffer)) = list_ascii_of_string "insert").
Proof.
  assert (Forall (fun c => char_code c <> 0) (list_ascii_of_string "insert")) as Hi
    by (repeat constructor; discriminate).
  pose proof (strncmp_eq 6 _ _ (c_chars_nonzero (buffer input_buffer)) Hi) as Hncmp.
  unfold prepare_statement.
  destruct (strncmp _ _ 6 =? 0) eqn:Hcmp.
  - split.
    + intros r statement'.
      destruct (sscanf_insert _ _) as [[args row]|e]; [|discriminate].
      cbn [mbind result_bind].
      destruct (args <? 3); intros [= <- <-];
        (split; [discriminate|]); (split; [discriminate|]);
        (split; [discriminate|]); reflexivity || discriminate.
    + intros e _. apply Z.eqb_eq in Hcmp. apply Hncmp in Hcmp. exact Hcmp.
  - split.
    + intros r statement'.
      destruct (strcmp _ _ =? 0); intros [= <- <-];
        (split; [discriminate|]); (split; [discriminate|]);
        (split; [discriminate || reflexivity|]); discriminate.
    + intros e. destruct (strcmp _ _ =? 0); discriminate.
Qed.

Lemma prepare_statement_results_witness :
  PREPARE_SYNTAX_ERROR <> PREPARE_NEGATIVE_ID /\
  PREPARE_SYNTAX_ERROR <> PREPARE_STRING_TOO_LONG.
Proof.
  destruct (proj1 (prepare_statement_results (input_line "insert 1 alice")
                     blank_statement)
              PREPARE_SYNTAX_ERROR
              (insert_statement (make_row 1 "alice" ""))
              ltac:(vm_compute; reflexivity))
    as (Hneg & Hlong & _).
  split; [exact Hneg|exact Hlong].
Defined.

(** X6. What prepare_statement does not check is not checked by the C library
    either: a number that no [int] holds has no defined conversion, and a
    username of more than COLUMN_USERNAME_SIZE characters, or an email of
    more than COLUMN_EMAIL_SIZE, is stored past the end of its array. *)
Theorem prepare_statement_overflow (statement : Statement) (v : Z)
    (ws1 ws2 ws3 name mail rest tail : list ascii) :
  valid_row (row_to_insert statement) ->
  whitespace ws1 -> whitespace ws2 -> ws2 <> [] -> whitespace ws3 -> ws3 <> [] ->
  field name -> field mail -> field_end rest -> field_end tail ->
  Forall (fun c => char_code c <> 0) rest ->
  Forall (fun c => char_code c <> 0) tail ->
  (~ INT_MIN <= v <= INT_MAX ->
   prepare_statement
     (input_line
        (string_of_list_ascii
           (list_ascii_of_string "insert" ++ ws1 ++ int_text v ++ rest)))
     statement = Fault UndefinedBehavior) /\
  (INT_MIN <= v <= INT_MAX ->
   COLUMN_USERNAME_SIZE < Z.of_nat (length name) ->
   prepare_statement
     (input_line
        (string_of_list_ascii
           (list_ascii_of_string "insert" ++ ws1 ++ int_text v ++ ws2 ++ name
              ++ rest)))
     statement = Fault MemoryFault) /\
  (INT_MIN <= v <= INT_MAX ->
   Z.of_nat (length name) <= COLUMN_USERNAME_SIZE ->
   COLUMN_EMAIL_SIZE < Z.of_nat (length mail) ->
   prepare_statement
     (input_line
        (string_of_list_ascii
           (list_ascii_of_string "insert" ++ ws1 ++ int_text v ++ ws2 ++ name
              ++ ws3 ++ mail ++ tail)))
     statement = Fault MemoryFault).
Proof.
  intros Hv Hws1 Hws2 Hne2 Hws3 Hne3 Hname Hmail Hend Hendt Hrest Htail.
  pose proof Hv as (_ & Hu & He). unfold USERNAME_SIZE in Hu. unfold EMAIL_SIZE in He.
  assert (forall ws more, whitespace ws -> ws <> [] -> field_end (ws ++ more))
    as Hspace.
  { intros ws more Hws Hne. destruct Hws as [|c ws Hc Hws]; [contradiction|].
    split; [exact Hc|]. intros Hz. unfold isspace in Hc. rewrite Hz in Hc.
    discriminate Hc. }
  assert (forall array word,
             length array < S (length word) ->
             store_string array word = Fault MemoryFault)%nat as Hstore.
  { intros array word Hlong. unfold store_string, write_bytes.
    rewrite length_app, length_map. cbn [length].
    case_bool_decide; [lia|reflexivity]. }
  split; [|split].
  - intros Hout.
    rewrite prepare_statement_insert
      by (repeat (apply Forall_app; split);
          auto using whitespace_nonzero, int_text_nonzero).
    unfold sscanf_insert.
    change (scan_literal (list_ascii_of_string "insert")
              (list_ascii_of_string "insert" ++ ws1 ++ int_text v ++ rest))
      with (Converted tt (ws1 ++ int_text v ++ rest)).
    cbv iota beta.
    rewrite (scan_int_whitespace ws1 _ Hws1).
    rewrite (scan_int_text v rest (field_end_not_digit _ Hend)).
    rewrite bool_decide_eq_false_2 by exact Hout. reflexivity.
  - intros Hrange Hlong.
    rewrite prepare_statement_insert
      by (repeat (apply Forall_app; split);
          auto using whitespace_nonzero, int_text_nonzero, field_nonzero).
    rewrite (sscanf_insert_id ws1 _ v _ Hws1 (Hspace ws2 _ Hws2 Hne2) Hrange).
    rewrite (scan_string_field ws2 name rest Hws2 Hname Hend).
    rewrite Hstore by lia. reflexivity.
  - intros Hrange Hfits Hlong.
    rewrite prepare_statement_insert
      by (repeat (apply Forall_app; split);
          auto using whitespace_nonzero, int_text_nonzero, field_nonzero).
    rewrite (sscanf_insert_id ws1 _ v _ Hws1 (Hspace ws2 _ Hws2 Hne2) Hrange).
    rewrite (scan_string_field ws2 name _ Hws2 Hname (Hspace ws3 _ Hws3 Hne3)).
    destruct (store_string_fits (username (row_to_insert statement)) name)
      as (username' & -> & _ & _); [lia|].
    cbn [mbind result_bind].
    rewrite (scan_string_field ws3 mail tail Hws3 Hmail Hendt).
    rewrite Hstore by lia. reflexivity.
Qed.

Lemma prepare_statement_overflow_witness :
  prepare_statement
    (input_line
       (string_of_list_ascii
          (list_ascii_of_string "insert" ++ list_ascii_of_string " "
             ++ int_text 4294967296 ++ list_ascii_of_string " a b")))
    blank_statement = Fault UndefinedBehavior.
Proof.
  apply (proj1 (prepare_statement_overflow blank_statement 4294967296
                  (list_ascii_of_string " ") (list_ascii_of_string " ")
                  (list_ascii_of_string " ") (list_ascii_of_string "a")
                  (list_ascii_of_string "b") (list_ascii_of_string " a b") []
                  ltac:(apply valid_make_row; split; [lia|reflexivity])
                  ltac:(repeat constructor) ltac:(repeat constructor)
                  ltac:(discriminate) ltac:(repeat constructor) ltac:(discriminate)
                  ltac:(split; [discriminate|repeat constructor; discriminate])
                  ltac:(split; [discriminate|repeat constructor; discriminate])
                  ltac:(split; [reflexivity|discriminate]) I
                  ltac:(repeat constructor; discriminate) ltac:(constructor))).
  vm_compute. intros [_ Hle]. apply Hle. reflexivity.
Defined.

(** ** The row codec, byte by byte *)

Lemma byte_of_Z_of_byte (b : byte) : byte_of_Z (Z_of_byte b) = b.
Proof. destruct b; reflexivity. Qed.

Lemma Z_of_byte_range (b : byte) : 0 <= Z_of_byte b < 256.
Proof. destruct b; vm_compute; (split; [discriminate|reflexivity]). Qed.

Lemma testbit_Z_of_byte (b : byte) (n : Z) :
  8 <= n -> Z.testbit (Z_of_byte b) n = false.
Proof.
  intros Hn. pose proof (Z_of_byte_range b) as Hb.
  destruct (Z.eq_dec (Z_of_byte b) 0) as [->|Hnz]; [apply Z.bits_0|].
  apply Z.bits_above_log2; [lia|].
  assert (Z.log2 (Z_of_byte b) < 8); [|lia].
  apply Z.log2_lt_pow2; lia.
Qed.

Lemma testbit_255 (n : Z) : 0 <= n -> Z.testbit 255 n = (n <? 8).
Proof.
  intros Hn. change 255 with (Z.ones 8).
  destruct (n <? 8) eqn:Hlt.
  - apply Z.ones_spec_low. lia.
  - apply Z.ones_spec_high. lia.
Qed.

Lemma uint32_bytes_uint32 (b0 b1 b2 b3 : byte) :
  uint32_bytes (bytes_uint32 [b0; b1; b2; b3]) = [b0; b1; b2; b3].
Proof.
  assert (forall k b,
             (forall n, 0 <= n < 8 ->
                        Z.testbit (bytes_uint32 [b0; b1; b2; b3]) (n + k) =
                        Z.testbit (Z_of_byte b) n) ->
             0 <= k ->
             byte_of_Z (Z.land (Z.shiftr (bytes_uint32 [b0; b1; b2; b3]) k) 255) = b)
    as Hbyte.
  { intros k b Hbits Hk. transitivity (byte_of_Z (Z_of_byte b)); [|apply byte_of_Z_of_byte]. f_equal.
    apply Z.bits_inj'. intros n Hn.
    rewrite Z.land_spec, Z.shiftr_spec, testbit_255 by lia.
    destruct (n <? 8) eqn:Hlt.
    - rewrite andb_true_r. apply Hbits. lia.
    - rewrite andb_false_r. symmetry. apply testbit_Z_of_byte. lia. }
  assert (forall b n, n < 0 -> Z.testbit (Z_of_byte b) n = false) as Hneg
    by (intros; apply Z.testbit_neg_r; assumption).
  unfold uint32_bytes. rewrite <- (Z.shiftr_0_r (bytes_uint32 _)) at 1.
  rewrite (Hbyte 0 b0), (Hbyte 8 b1), (Hbyte 16 b2), (Hbyte 24 b3);
    [reflexivity|..]; try lia;
    intros n Hn; unfold bytes_uint32;
    rewrite !Z.lor_spec, !Z.shiftl_spec by lia.
  - replace (n + 24 - 8) with (n + 16) by lia.
    replace (n + 24 - 16) with (n + 8) by lia.
    replace (n + 24 - 24) with n by lia.
    rewrite !testbit_Z_of_byte by lia. reflexivity.
  - replace (n + 16 - 8) with (n + 8) by lia.
    replace (n + 16 - 16) with n by lia.
    rewrite (testbit_Z_of_byte b0), (testbit_Z_of_byte b1) by lia.
    rewrite (Hneg b3) by lia. rewrite orb_false_r. reflexivity.
  - replace (n + 8 - 8) with n by lia.
    rewrite (testbit_Z_of_byte b0) by lia.
    rewrite (Hneg b2), (Hneg b3) by lia. rewrite !orb_false_r. reflexivity.
  - rewrite Z.add_0_r.
    rewrite (Hneg b1), (Hneg b2), (Hneg b3) by lia. rewrite !orb_false_r.
    reflexivity.
Qed.

Lemma bytes_uint32_range (bs : list byte) : 0 <= bytes_uint32 bs < UINT32_MOD.
Proof.
  assert (0 <= 0 < UINT32_MOD) as Hzero by (split; [lia|reflexivity]).
  destruct bs as [|b0 [|b1 [|b2 [|b3 [|b4 bs]]]]]; try exact Hzero.
  clear Hzero.
  pose proof (uint32_bytes_uint32 b0 b1 b2 b3) as Hround.
  assert (0 <= bytes_uint32 [b0; b1; b2; b3]) as Hpos.
  { unfold bytes_uint32.
    pose proof (Z_of_byte_range b0). pose proof (Z_of_byte_range b1).
    pose proof (Z_of_byte_range b2). pose proof (Z_of_byte_range b3).
    repeat (apply Z.lor_nonneg; split); try apply Z.shiftl_nonneg; lia. }
  split; [exact Hpos|].
  destruct (Z.eq_dec (bytes_uint32 [b0; b1; b2; b3]) 0) as [->|Hnz]; [reflexivity|].
  apply Z.log2_lt_pow2; [lia|].
  destruct (Z.lt_ge_cases (Z.log2 (bytes_uint32 [b0; b1; b2; b3])) 32) as [Hlt|Hge];
    [exact Hlt|exfalso].
  pose proof (Z.bit_log2 (bytes_uint32 [b0; b1; b2; b3]) ltac:(lia)) as Hbit.
  revert Hbit. unfold bytes_uint32 at 1.
  rewrite !Z.lor_spec, !Z.shiftl_spec by lia.
  rewrite !testbit_Z_of_byte by lia. discriminate.
Qed.

Lemma bytes_of_row_of_bytes (bs : list byte) :
  length bs = Z.to_nat ROW_SIZE -> bytes_of_row (row_of_bytes bs) = bs.
Proof.
  intros Hlen. change (Z.to_nat ROW_SIZE) with 293%nat in Hlen.
  unfold bytes_of_row, row_of_bytes. cbn [id username email].
  change (Z.to_nat ID_SIZE) with 4%nat. change (Z.to_nat ID_OFFSET) with 0%nat.
  change (Z.to_nat USERNAME_SIZE) with 33%nat.
  change (Z.to_nat USERNAME_OFFSET) with 4%nat.
  change (Z.to_nat EMAIL_SIZE) with 256%nat.
  change (Z.to_nat EMAIL_OFFSET) with 37%nat.
  destruct bs as [|b0 [|b1 [|b2 [|b3 bs]]]]; try discriminate Hlen.
  cbn [drop take]. rewrite uint32_bytes_uint32.
  cbn [app]. do 4 f_equal.
  cbn [length] in Hlen.
  rewrite <- (take_drop 33 bs) at 3. f_equal.
  change 37%nat with (4 + 33)%nat.
  change (drop (4 + 33) (b0 :: b1 :: b2 :: b3 :: bs)) with (drop 33 bs).
  apply take_ge. rewrite length_drop. lia.
Qed.

Lemma valid_row_of_bytes (bs : list byte) :
  length bs = Z.to_nat ROW_SIZE -> valid_row (row_of_bytes bs).
Proof.
  intros Hlen. change (Z.to_nat ROW_SIZE) with 293%nat in Hlen.
  unfold valid_row, row_of_bytes. cbn [id username email].
  split; [apply bytes_uint32_range|].
  rewrite !length_take, !length_drop, Hlen. split; reflexivity.
Qed.

Lemma splice_same (buf : list byte) (off n : nat) :
  (off + n <= length buf)%nat ->
  splice buf off (take n (drop off buf)) = buf.
Proof.
  intros Hlen. unfold splice.
  rewrite length_take, length_drop, Nat.min_l by lia.
  rewrite <- drop_drop, (take_drop n (drop off buf)).
  apply take_drop.
Qed.

Lemma set_page_same (pager : Pager) (page_num : Z) (page : list byte) :
  cached_page pager page_num = Some page -> set_page pager page_num page = pager.
Proof.
  intros Hc. apply cached_page_Some in Hc as (_ & _ & Hlook).
  unfold set_page. rewrite list_insert_id by exact Hlook.
  destruct pager; reflexivity.
Qed.

Lemma deserialize_row_inv (pager : Pager) (source : ptr) (page : list byte)
    (row : Row) :
  cached_page pager (ptr_page source) = Some page ->
  deserialize_row source pager = Ok row ->
  0 <= ptr_offset source /\
  ptr_offset source + ROW_SIZE <= Z.of_nat (length page).
Proof.
  intros Hc. unfold deserialize_row, memcpy_from. cbn [ptr_add ptr_page ptr_offset].
  rewrite Hc. intros Hd.
  apply bind_Ok in Hd as (id_bytes & Hid & Hd).
  apply bind_Ok in Hd as (name_bytes & Hname & Hd).
  apply bind_Ok in Hd as (mail_bytes & Hmail & _).
  apply read_bytes_inv in Hid as (Hid & _).
  apply read_bytes_inv in Hmail as (_ & _ & Hmail & _).
  unfold ID_OFFSET in Hid. unfold EMAIL_OFFSET, USERNAME_OFFSET, ID_OFFSET in Hmail.
  unfold ROW_SIZE. lia.
Qed.

Lemma memcpy_to_outside (pager : Pager) (dst : ptr) (page src : list byte) (n : Z) :
  cached_page pager (ptr_page dst) = Some page ->
  Z.of_nat (length src) = n ->
  ~ (0 <= ptr_offset dst /\ ptr_offset dst + n <= Z.of_nat (length page)) ->
  memcpy_to pager dst src n = Fault MemoryFault.
Proof.
  intros Hc Hlen Hout. unfold memcpy_to. rewrite Hc.
  rewrite (object_bytes_whole src n Hlen). cbn [mbind result_bind].
  unfold write_bytes. rewrite Hlen.
  case_bool_decide; [contradiction|reflexivity].
Qed.

Lemma memcpy_from_outside (pager : Pager) (src : ptr) (page : list byte) (n : Z) :
  cached_page pager (ptr_page src) = Some page ->
  0 <= n ->
  ~ (0 <= ptr_offset src /\ ptr_offset src + n <= Z.of_nat (length page)) ->
  memcpy_from pager src n = Fault MemoryFault.
Proof.
  intros Hc Hn Hout. unfold memcpy_from. rewrite Hc. unfold read_bytes.
  case_bool_decide as Hin; [|reflexivity]. exfalso. apply Hout. lia.
Qed.

Lemma cached_after_memcpy_to (pager pager' : Pager) (dst : ptr) (page src : list byte)
    (n : Z) :
  cached_page pager (ptr_page dst) = Some page ->
  Z.of_nat (length src) = n ->
  memcpy_to pager dst src n = Ok pager' ->
  exists page',
    cached_page pager' (ptr_page dst) = Some page' /\ length page' = length page.
Proof.
  intros Hc Hlen. unfold memcpy_to. rewrite Hc.
  rewrite (object_bytes_whole src n Hlen). cbn [mbind result_bind].
  intros Hw. apply bind_Ok in Hw as (page' & Hw & [= <-]).
  apply write_bytes_inv in Hw as (Hoff & Hfit & ->).
  apply cached_page_Some in Hc as (Hpos & Hin & _).
  exists (splice page (Z.to_nat (ptr_offset dst)) src). split.
  - apply cached_set_page_eq; assumption.
  - apply length_splice. lia.
Qed.

Lemma memcpy_to_fault (pager : Pager) (dst : ptr) (src : list byte) (n : Z)
    (e : fault) :
  memcpy_to pager dst src n = Fault e -> e = MemoryFault.
Proof.
  unfold memcpy_to, object_bytes, read_bytes, write_bytes.
  destruct (cached_page pager (ptr_page dst)); [|congruence].
  repeat (case_bool_decide; cbn [mbind result_bind]); congruence.
Qed.

Lemma memcpy_from_fault (pager : Pager) (src : ptr) (n : Z) (e : fault) :
  memcpy_from pager src n = Fault e -> e = MemoryFault.
Proof.
  unfold memcpy_from, read_bytes.
  destruct (cached_page pager (ptr_page src)); [|congruence].
  case_bool_decide; congruence.
Qed.

(** ** The row codec and the slots (src/table.c) *)

(** X7. serialize_row writes the ROW_SIZE bytes of its destination and nothing
    else: afterwards the slot holds the four bytes of the id, least
    significant first, then the username array, then the email array; the
    page keeps its length and its bytes outside the slot; no other page
    is touched, nor the file. *)
Theorem serialize_row_frame (r : Row) (pager : Pager) (destination : ptr)
    (page : list byte) :
  valid_row r ->
  cached_page pager (ptr_page destination) = Some page ->
  0 <= ptr_offset destination ->
  ptr_offset destination + ROW_SIZE <= Z.of_nat (length page) ->
  exists pager' page',
    serialize_row r destination pager = Ok pager' /\
    cached_page pager' (ptr_page destination) = Some page' /\
    length page' = length page /\
    take (Z.to_nat ROW_SIZE) (drop (Z.to_nat (ptr_offset destination)) page') =
      uint32_bytes (id r) ++ username r ++ email r /\
    (forall i : nat,
       Z.of_nat i < ptr_offset destination \/
       ptr_offset destination + ROW_SIZE <= Z.of_nat i ->
       page' !! i = page !! i) /\
    (forall other,
       other <> ptr_page destination ->
       cached_page pager' other = cached_page pager other) /\
    file_descriptor pager' = file_descriptor pager /\
    file_length pager' = file_length pager.
Proof.
  destruct destination as [page_num off]. cbn [ptr_page ptr_offset].
  intros Hv Hc Hoff Hfit.
  destruct (valid_row_lengths r Hv) as (_ & _ & Hlen).
  destruct (cached_page_Some _ _ _ Hc) as (Hpos & Hin & _).
  change ROW_SIZE with 293 in *.
  assert (Z.to_nat off + length (bytes_of_row r) <= length page)%nat as Hfit'
    by (rewrite Hlen; lia).
  exists (set_page pager page_num (splice page (Z.to_nat off) (bytes_of_row r))),
    (splice page (Z.to_nat off) (bytes_of_row r)).
  split; [apply serialize_row_spec; assumption|].
  split; [apply cached_set_page_eq; assumption|].
  split; [apply length_splice; exact Hfit'|].
  split; [|split; [|split; [|split; reflexivity]]].
  - change (Z.to_nat 293) with 293%nat. rewrite <- Hlen.
    apply splice_read_same. exact Hfit'.
  - intros i Hi. rewrite lookup_splice by exact Hfit'.
    case_bool_decide as Hin'; [lia|reflexivity].
  - intros other Hother. apply cached_set_page_ne; [exact Hpos|congruence].
Qed.

Lemma serialize_row_frame_witness :
  exists pager' page',
    serialize_row (make_row 7 "alice" "alice@example.com")
      {| ptr_page := 0; ptr_offset := 293 |}
      (set_page (pager empty_table) 0 (replicate 4096 x00)) = Ok pager' /\
    cached_page pager' 0 = Some page' /\
    length page' = 4096%nat /\
    take 4 (drop 293 page') = [x07; x00; x00; x00].
Proof.
  destruct (serialize_row_frame (make_row 7 "alice" "alice@example.com")
              (set_page (pager empty_table) 0 (replicate 4096 x00))
              {| ptr_page := 0; ptr_offset := 293 |} (replicate 4096 x00))
    as (pager' & page' & Hs & Hc & Hlen & Hslot & _).
  - apply valid_make_row. split; [lia|reflexivity].
  - reflexivity.
  - cbn [ptr_offset]. lia.
  - vm_compute. discriminate.
  - exists pager', page'. split; [exact Hs|]. split; [exact Hc|].
    split; [exact Hlen|].
    apply (f_equal (take 4)) in Hslot. rewrite take_take in Hslot. exact Hslot.
Defined.

(** X8. The codec checks no bound of its own: a slot that is not wholly inside
    a cached page makes serialize_row, and deserialize_row, access memory
    outside the page buffers. *)
Theorem row_codec_outside_page (r : Row) (pager : Pager) (slot : ptr) :
  valid_row r ->
  (cached_page pager (ptr_page slot) = None \/
   exists page,
     cached_page pager (ptr_page slot) = Some page /\
     ~ (0 <= ptr_offset slot /\
        ptr_offset slot + ROW_SIZE <= Z.of_nat (length page))) ->
  serialize_row r slot pager = Fault MemoryFault /\
  deserialize_row slot pager = Fault MemoryFault.
Proof.
  intros Hv Hout. destruct (valid_row_lengths r Hv) as (Hu & He & _).
  destruct slot as [page_num off]. cbn [ptr_page ptr_offset] in Hout.
  destruct Hout as [Hnone|(page & Hc & Hout)].
  - unfold serialize_row, deserialize_row, memcpy_to, memcpy_from.
    cbn [ptr_add ptr_page ptr_offset]. rewrite Hnone. split; reflexivity.
  - split.
    + unfold serialize_row.
      destruct (memcpy_to pager _ (uint32_bytes (id r)) ID_SIZE)
        as [pager1|e] eqn:H1.
      2:{ cbn [mbind result_bind]. f_equal. exact (memcpy_to_fault _ _ _ _ _ H1). }
      cbn [mbind result_bind].
      destruct (cached_after_memcpy_to pager pager1
                  (ptr_add {| ptr_page := page_num; ptr_offset := off |} ID_OFFSET)
                  page (uint32_bytes (id r)) ID_SIZE Hc eq_refl H1)
        as (page1 & Hc1 & Hlen1).
      cbn [ptr_add ptr_page] in Hc1.
      assert (0 <= off + ID_OFFSET /\
              off + ID_OFFSET + ID_SIZE <= Z.of_nat (length page)) as Hin1.
      { destruct (Z_le_dec 0 (off + ID_OFFSET)) as [Ha|Ha];
          [destruct (Z_le_dec (off + ID_OFFSET + ID_SIZE) (Z.of_nat (length page)))
             as [Hb|Hb]; [split; assumption|]|];
          rewrite (memcpy_to_outside pager
                     (ptr_add {| ptr_page := page_num; ptr_offset := off |} ID_OFFSET)
                     page (uint32_bytes (id r)) ID_SIZE Hc eq_refl) in H1;
          try discriminate H1; cbn [ptr_add ptr_offset]; lia. }
      assert (Z.of_nat (length (username r)) = USERNAME_SIZE) as Hu' by apply Hv.
      assert (Z.of_nat (length (email r)) = EMAIL_SIZE) as He' by apply Hv.
      destruct (memcpy_to pager1 _ (username r) USERNAME_SIZE)
        as [pager2|e] eqn:H2.
      2:{ cbn [mbind result_bind]. f_equal. exact (memcpy_to_fault _ _ _ _ _ H2). }
      cbn [mbind result_bind].
      destruct (cached_after_memcpy_to pager1 pager2
                  (ptr_add {| ptr_page := page_num; ptr_offset := off |}
                     USERNAME_OFFSET)
                  page1 _ _ Hc1 Hu' H2) as (page2 & Hc2 & Hlen2).
      cbn [ptr_add ptr_page] in Hc2.
      apply (memcpy_to_outside pager2
               (ptr_add {| ptr_page := page_num; ptr_offset := off |} EMAIL_OFFSET)
               page2 _ _ Hc2 He').
      cbn [ptr_add ptr_offset]. rewrite Hlen2, Hlen1.
      unfold ROW_SIZE, EMAIL_OFFSET, USERNAME_OFFSET, ID_OFFSET in *. lia.
    + unfold deserialize_row.
      destruct (memcpy_from pager _ ID_SIZE) as [id_bytes|e] eqn:H1.
      2:{ cbn [mbind result_bind]. f_equal. exact (memcpy_from_fault _ _ _ _ H1). }
      cbn [mbind result_bind].
      unfold memcpy_from in H1. cbn [ptr_add ptr_page ptr_offset] in H1.
      rewrite Hc in H1. apply read_bytes_inv in H1 as (Hoff & _).
      destruct (memcpy_from pager _ USERNAME_SIZE) as [name_bytes|e] eqn:H2.
      2:{ cbn [mbind result_bind]. f_equal. exact (memcpy_from_fault _ _ _ _ H2). }
      cbn [mbind result_bind].
      rewrite (memcpy_from_outside pager
                 (ptr_add {| ptr_page := page_num; ptr_offset := off |} EMAIL_OFFSET)
                 page EMAIL_SIZE Hc);
        [reflexivity|unfold EMAIL_SIZE, COLUMN_EMAIL_SIZE; lia|].
      cbn [ptr_add ptr_offset].
      unfold ROW_SIZE, EMAIL_OFFSET, USERNAME_OFFSET, ID_OFFSET in *. lia.
Qed.

Lemma row_codec_outside_page_witness :
  serialize_row (make_row 7 "alice" "alice@example.com")
    {| ptr_page := 0; ptr_offset := 3804 |}
    (set_page (pager empty_table) 0 (replicate 4096 x00)) = Fault MemoryFault /\
  deserialize_row {| ptr_page := 0; ptr_offset := 3804 |}
    (set_page (pager empty_table) 0 (replicate 4096 x00)) = Fault MemoryFault.
Proof.
  apply (row_codec_outside_page (make_row 7 "alice" "alice@example.com")).
  - apply valid_make_row. split; [lia|reflexivity].
  - right. exists (replicate 4096 x00). split; [reflexivity|].
    cbn [ptr_offset]. rewrite length_replicate. vm_compute.
    intros [_ H]. apply H. reflexivity.
Defined.

(** X9. The round trip of the codec the other way: the row deserialize_row
    reads from a slot is a well-formed row, and serialize_row of that row
    to the same slot leaves the pager, every byte of it, as it is. *)
Theorem serialize_deserialized_row (pager : Pager) (source : ptr)
    (page : list byte) (row : Row) :
  cached_page pager (ptr_page source) = Some page ->
  deserialize_row source pager = Ok row ->
  valid_row row /\ serialize_row row source pager = Ok pager.
Proof.
  intros Hc Hd.
  destruct (deserialize_row_inv pager source page row Hc Hd) as (Hoff & Hfit).
  destruct source as [page_num off]. cbn [ptr_page ptr_offset] in *.
  rewrite (deserialize_row_spec pager page_num off page Hc Hoff Hfit) in Hd.
  injection Hd as <-.
  assert (length (take (Z.to_nat ROW_SIZE) (drop (Z.to_nat off) page)) =
          Z.to_nat ROW_SIZE) as Hlen.
  { rewrite length_take, length_drop. change ROW_SIZE with 293 in *. lia. }
  split; [apply valid_row_of_bytes; exact Hlen|].
  rewrite (serialize_row_spec _ pager page_num off page
             (valid_row_of_bytes _ Hlen) Hc Hoff Hfit).
  rewrite (bytes_of_row_of_bytes _ Hlen).
  rewrite splice_same by (change ROW_SIZE with 293 in *; lia).
  rewrite (set_page_same pager page_num page Hc). reflexivity.
Qed.

Lemma serialize_deserialized_row_witness :
  valid_row (make_row 0 "" "") /\
  serialize_row (make_row 0 "" "") {| ptr_page := 0; ptr_offset := 293 |}
    (set_page (pager empty_table) 0 (replicate 4096 x00)) =
  Ok (set_page (pager empty_table) 0 (replicate 4096 x00)).
Proof.
  apply (serialize_deserialized_row
           (set_page (pager empty_table) 0 (replicate 4096 x00))
           {| ptr_page := 0; ptr_offset := 293 |} (replicate 4096 x00)).
  - reflexivity.
  - vm_compute. reflexivity.
Defined.

Lemma succ_div_mod (r n : Z) :
  0 < n -> 0 <= r ->
  ((r + 1) mod n <> 0 -> (r + 1) / n = r / n /\ (r + 1) mod n = r mod n + 1) /\
  ((r + 1) mod n = 0 -> (r + 1) / n = r / n + 1).
Proof.
  intros Hn Hr.
  pose proof (Z.div_mod r n ltac:(lia)) as Hdm.
  pose proof (Z.mod_pos_bound r n Hn) as Hm.
  destruct (Z.eq_dec (r mod n + 1) n) as [Heq|Hne].
  - assert (r + 1 = n * (r / n + 1) + 0) as Hnext by lia.
    pose proof (Z.div_unique (r + 1) n (r / n + 1) 0 ltac:(lia) Hnext) as Hd.
    pose proof (Z.mod_unique (r + 1) n (r / n + 1) 0 ltac:(lia) Hnext) as Hm'.
    split; [intros Hc; congruence|intros _; congruence].
  - assert (r + 1 = n * (r / n) + (r mod n + 1)) as Hnext by lia.
    pose proof (Z.div_unique (r + 1) n (r / n) (r mod n + 1) ltac:(lia) Hnext) as Hd.
    pose proof (Z.mod_unique (r + 1) n (r / n) (r mod n + 1) ltac:(lia) Hnext) as Hm'.
    split; [intros _; split; congruence|intros Hc; lia].
Qed.

Lemma row_slot_Ok_page {L : Limits} (table table' : Table) (r : Z) (slot : ptr) :
  row_slot table r = Ok (table', slot) ->
  0 <= r / ROWS_PER_PAGE < TABLE_MAX_PAGES.
Proof.
  intros Hslot. unfold row_slot, get_page in Hslot.
  case_bool_decide as Hin; [exact Hin|discriminate Hslot].
Qed.

(** X10. The slots are packed: once row_slot has handed out the slot of a row,
    asking again changes nothing (the page is cached); the slot of the
    next row starts where this one ends, in the same page, unless the next
    row number is a multiple of ROWS_PER_PAGE, when it is the start of the
    next page; and what the pages show is as before. *)
Theorem row_slot_packing {L : Limits} (table table1 : Table) (r : Z) (slot : ptr) :
  limits_ok L ->
  pager_ok (pager table) ->
  0 <= r ->
  row_slot table r = Ok (table1, slot) ->
  row_slot table1 r = Ok (table1, slot) /\
  (forall m, page_view (pager table1) m = page_view (pager table) m) /\
  ((r + 1) mod ROWS_PER_PAGE <> 0 ->
   row_slot table1 (r + 1) = Ok (table1, ptr_add slot ROW_SIZE)) /\
  ((r + 1) mod ROWS_PER_PAGE = 0 ->
   ptr_page slot + 1 < TABLE_MAX_PAGES ->
   exists table2,
     row_slot table1 (r + 1) =
     Ok (table2, {| ptr_page := ptr_page slot + 1; ptr_offset := 0 |})).
Proof.
  intros HL Hok Hr Hslot.
  pose proof (rows_per_page_pos HL) as Hpos.
  pose proof (row_slot_Ok_page _ _ _ _ Hslot) as Hp.
  rewrite (row_slot_spec HL table r Hok Hp) in Hslot.
  injection Hslot as <- <-.
  set (page_num := r / ROWS_PER_PAGE) in *.
  set (table1 := {| pager := set_page (pager table) page_num
                               (page_view (pager table) page_num);
                    num_rows := num_rows table |}).
  assert (pager_ok (pager table1)) as Hok1.
  { apply pager_ok_set_page; [exact Hok|lia|apply length_page_view; exact Hok]. }
  assert (set_page (pager table1) page_num (page_view (pager table1) page_num) =
          pager table1) as Hsame.
  { cbn [table1 pager]. rewrite page_view_set_page_eq.
    - apply set_page_set_page.
    - lia.
    - destruct Hok as [Hlen _]. rewrite Hlen.
      change TABLE_MAX_PAGES with 100 in *. lia. }
  destruct (succ_div_mod r ROWS_PER_PAGE Hpos Hr) as (Hin & Hnext).
  split; [|split; [|split]].
  - rewrite (row_slot_spec HL table1 r Hok1 Hp). fold page_num.
    rewrite Hsame. reflexivity.
  - intros m. cbn [table1 pager]. apply page_view_set_page_view; assumption.
  - intros Hm. destruct (Hin Hm) as (Hd & Hm').
    rewrite (row_slot_spec HL table1 (r + 1) Hok1) by (rewrite Hd; exact Hp).
    rewrite Hd, Hm'. fold page_num. rewrite Hsame.
    unfold ptr_add. cbn [ptr_page ptr_offset]. do 3 f_equal. lia.
  - intros Hm Hcap. cbn [ptr_page] in Hcap. specialize (Hnext Hm).
    rewrite (row_slot_spec HL table1 (r + 1) Hok1) by (rewrite Hnext; lia).
    rewrite Hnext, Hm. eexists. reflexivity.
Qed.

Lemma row_slot_packing_witness :
  exists table1 slot,
    @row_slot default_limits empty_table 12 = Ok (table1, slot) /\
    @row_slot default_limits table1 12 = Ok (table1, slot) /\
    exists table2,
      @row_slot default_limits table1 (12 + 1) =
      Ok (table2, {| ptr_page := ptr_page slot + 1; ptr_offset := 0 |}).
Proof.
  destruct (@row_slot default_limits empty_table 12) as [[table1 slot]|e] eqn:Hslot;
    [|vm_compute in Hslot; discriminate Hslot].
  destruct (@row_slot_packing default_limits empty_table table1 12 slot
              limits_ok_default pager_ok_empty ltac:(lia) Hslot)
    as (Hagain & _ & _ & Hnext).
  exists table1, slot. split; [reflexivity|]. split; [exact Hagain|].
  apply Hnext; [reflexivity|].
  vm_compute in Hslot. injection Hslot as _ <-. reflexivity.
Defined.

(** ** Statements on the row store (execute_insert, execute_select,
       execute_statement) *)








(** X14. The only guard of execute_insert is the row limit: were
    TABLE_MAX_ROWS more than the pages of the cache hold, the insert at the
    first row past the last page would stop in get_page, not with
    EXECUTE_TABLE_FULL. *)
Theorem execute_insert_beyond_cache {L : Limits} (statement : Statement)
    (table : Table) :
  0 < ROWS_PER_PAGE ->
  ROWS_PER_PAGE * TABLE_MAX_PAGES <= num_rows table < TABLE_MAX_ROWS ->
  execute_insert statement table = Fault CapacityExhausted.
Proof.
  intros Hpos [Hlow Hroom]. unfold execute_insert.
  case_bool_decide as Hfull; [lia|].
  unfold row_slot. rewrite get_page_out_of_bounds; [reflexivity|].
  intros [_ Hcap].
  assert (TABLE_MAX_PAGES <= num_rows table / ROWS_PER_PAGE); [|lia].
  apply Z.div_le_lower_bound; lia.
Qed.

Lemma execute_insert_beyond_cache_witness :
  @execute_insert {| ROWS_PER_PAGE := 13; TABLE_MAX_ROWS := 1400 |}
    (insert_statement (make_row 1 "alice" "alice@example.com"))
    {| pager := pager empty_table; num_rows := 1300 |} =
  Fault CapacityExhausted.
Proof.
  apply (@execute_insert_beyond_cache {| ROWS_PER_PAGE := 13; TABLE_MAX_ROWS := 1400 |}).
  - reflexivity.
  - cbn [ROWS_PER_PAGE TABLE_MAX_ROWS num_rows]. change TABLE_MAX_PAGES with 100. lia.
Defined.

(** X15. db_open counts the rows of a file as its length over ROW_SIZE, while
    row_slot keeps ROWS_PER_PAGE rows in each page: for a file of [n]
    whole pages the count is never less than the n * ROWS_PER_PAGE slots
    of those pages, and it is more as soon as the unused ends of the pages
    add up to the size of a row. *)
Theorem db_open_row_count {L : Limits} (fs fs' : gmap string (list byte))
    (filename : string) (table : Table) :
  limits_ok L ->
  db_open fs filename = Ok (fs', table) ->
  let n := file_length (pager table) / PAGE_SIZE in
  file_length (pager table) = n * PAGE_SIZE /\
  num_rows table = n * PAGE_SIZE / ROW_SIZE /\
  n * ROWS_PER_PAGE <= num_rows table /\
  (ROW_SIZE <= n * (PAGE_SIZE - ROWS_PER_PAGE * ROW_SIZE) ->
   n * ROWS_PER_PAGE < num_rows table).
Proof.
  intros HL Hopen n. unfold db_open, pager_open in Hopen.
  case_bool_decide as Hmod; [|discriminate Hopen].
  cbn [mbind result_bind] in Hopen. injection Hopen as _ <-.
  cbn [pager file_length num_rows] in *.
  set (len := Z.of_nat (length (default [] (fs !! filename)))) in *.
  assert (0 <= len) as Hlen by (unfold len; lia).
  assert (len = n * PAGE_SIZE) as Hn.
  { unfold n. pose proof (Z.div_mod len PAGE_SIZE ltac:(discriminate)). lia. }
  assert (0 <= n) as Hn0 by (unfold n; apply Z.div_pos; [exact Hlen|reflexivity]).
  destruct HL as (Hpos & Hfit & _).
  change ROW_SIZE with 293 in *. change PAGE_SIZE with 4096 in *.
  split; [exact Hn|]. rewrite <- Hn. split; [reflexivity|].
  split.
  - apply Z.div_le_lower_bound; nia.
  - intros Hspare.
    assert (n * ROWS_PER_PAGE + 1 <= len / 293); [|lia].
    apply Z.div_le_lower_bound; nia.
Qed.

Lemma db_open_row_count_witness :
  exists fs' table,
    db_open {[ "mydb.db"%string := replicate (Z.to_nat 8192) x00 ]} "mydb.db" =
      Ok (fs', table) /\
    num_rows table = 27 /\
    2 * @ROWS_PER_PAGE default_limits < num_rows table.
Proof.
  assert (db_open {[ "mydb.db"%string := replicate (Z.to_nat 8192) x00 ]} "mydb.db" =
          Ok (<["mydb.db"%string := replicate (Z.to_nat 8192) x00]>
                {[ "mydb.db"%string := replicate (Z.to_nat 8192) x00 ]},
              {| pager := {| file_descriptor := replicate (Z.to_nat 8192) x00;
                             file_length := 8192;
                             pages := replicate (Z.to_nat TABLE_MAX_PAGES) None |};
                 num_rows := 27 |})) as Hopen.
  { unfold db_open, pager_open. cbv zeta. rewrite lookup_singleton_eq.
    cbn [default from_option]. unfold Datatypes.id.
    rewrite length_replicate, Z2Nat.id by lia.
    rewrite bool_decide_eq_true_2 by reflexivity. reflexivity. }
  eexists _, _. split; [exact Hopen|]. split; [reflexivity|].
  apply (@db_open_row_count default_limits _ _ _ _ limits_ok_default Hopen).
  vm_compute. discriminate.
Defined.







(** ** What is printed (print_row) *)

Lemma nonzero_byte (c : ascii) :
  char_code c <> 0 -> Byte.eqb (byte_of_ascii c) x00 = false.
Proof.
  intros Hc. destruct (Byte.eqb (byte_of_ascii c) x00) eqn:Heq; [|reflexivity].
  exfalso. apply Hc. apply Byte.byte_dec_bl in Heq.
  rewrite <- (ascii_of_byte_of_ascii c), Heq. reflexivity.
Qed.

Lemma c_string_holds (array more : list byte) (chars : list ascii) :
  holds_string array chars ->
  Forall (fun c => char_code c <> 0) chars ->
  c_string (array ++ more) = Ok (map byte_of_ascii chars).
Proof.
  intros [rest ->] Hchars. induction Hchars as [|c chars Hc _ IH].
  - reflexivity.
  - cbn [map app c_string]. rewrite (nonzero_byte c Hc).
    cbn [map app] in IH. rewrite IH. reflexivity.
Qed.

Lemma string_of_bytes_chars (chars : list ascii) :
  string_of_bytes (map byte_of_ascii chars) = string_of_list_ascii chars.
Proof.
  unfold string_of_bytes. rewrite map_map. f_equal.
  rewrite <- (map_id chars) at 2. apply map_ext. apply ascii_of_byte_of_ascii.
Qed.

Lemma int_of_uint32_mod (v : Z) :
  INT_MIN <= v <= INT_MAX -> int_of_uint32 (v mod UINT32_MOD) = v.
Proof.
  unfold INT_MIN, INT_MAX, int_of_uint32, UINT32_MOD. intros Hv.
  destruct (Z_lt_ge_dec v 0) as [Hneg|Hpos].
  - rewrite <- (Z.mod_add v 1) by discriminate.
    rewrite Z.mod_small by lia. case_bool_decide; lia.
  - rewrite Z.mod_small by lia. case_bool_decide; lia.
Qed.

Lemma print_row_fields (row : Row) (v : Z) (name mail : list ascii) :
  INT_MIN <= v <= INT_MAX ->
  id row = v mod UINT32_MOD ->
  holds_string (username row) name ->
  holds_string (email row) mail ->
  Forall (fun c => char_code c <> 0) name ->
  Forall (fun c => char_code c <> 0) mail ->
  print_row row =
  Ok ("(" ++ string_of_list_ascii (int_text v) ++ ", "
        ++ string_of_list_ascii name ++ ", "
        ++ string_of_list_ascii mail ++ ")"
        ++ String "010"%char EmptyString)%string.
Proof.
  intros Hv Hid Hname Hmail Hn Hm. unfold print_row, int_text.
  rewrite Hid, (int_of_uint32_mod v Hv).
  rewrite (c_string_holds _ (email row) _ Hname Hn). cbn [mbind result_bind].
  rewrite <- (app_nil_r (email row)) at 1.
  rewrite (c_string_holds _ [] _ Hmail Hm). cbn [mbind result_bind].
  rewrite !string_of_bytes_chars, string_of_list_ascii_of_string. reflexivity.
Qed.

(** X17. print_row prints the id as the [int] it is the image of (an id from
    2^31 on as a negative number) and each char array up to its first NUL:
    a row that holds the number [v] and the C strings [name] and [mail]
    is printed as the line "(v, name, mail)". *)
Theorem print_row_text (row : Row) (v : Z) (name mail : list ascii) :
  INT_MIN <= v <= INT_MAX ->
  id row = v mod UINT32_MOD ->
  holds_string (username row) name ->
  holds_string (email row) mail ->
  Forall (fun c => char_code c <> 0) name ->
  Forall (fun c => char_code c <> 0) mail ->
  print_row row =
  Ok ("(" ++ string_of_list_ascii (int_text v) ++ ", "
        ++ string_of_list_ascii name ++ ", "
        ++ string_of_list_ascii mail ++ ")"
        ++ String "010"%char EmptyString)%string.
Proof.
  intros Hv Hid Hname Hmail Hn Hm.
  exact (print_row_fields row v name mail Hv Hid Hname Hmail Hn Hm).
Qed.

Lemma print_row_text_witness :
  print_row (make_row 4294967295 "bob" "bob@example.com") =
  Ok ("(" ++ string_of_list_ascii (int_text (-1)) ++ ", "
        ++ string_of_list_ascii (list_ascii_of_string "bob") ++ ", "
        ++ string_of_list_ascii (list_ascii_of_string "bob@example.com") ++ ")"
        ++ String "010"%char EmptyString)%string.
Proof.
  apply (print_row_text (make_row 4294967295 "bob" "bob@example.com") (-1)
           (list_ascii_of_string "bob") (list_ascii_of_string "bob@example.com")).
  - vm_compute. split; discriminate.
  - reflexivity.
  - eexists. vm_compute. reflexivity.
  - eexists. vm_compute. reflexivity.
  - repeat constructor; discriminate.
  - repeat constructor; discriminate.
Defined.

(** A username array without a NUL is printed on into the email array,
    which follows it in the row; an email array without a NUL is read
    past the end of the row. *)
Example print_row_unterminated :
  print_row {| id := 1;
               username := replicate 33 "a"%byte;
               email := c_array 256 "e@x" |} =
    Ok (String.append "(1, aaaaaaaaaaaaaaaaaaaaaaaaaaaaaaaaae@x, e@x)"
          (String "010"%char EmptyString)) /\
  print_row {| id := 1;
               username := c_array 33 "alice";
               email := replicate 256 "e"%byte |} = Fault MemoryFault.
Proof. split; vm_compute; reflexivity. Qed.

(** ** From the line to the printed row *)



(** ** Reading a command and the meta-commands *)

(** X19. do_meta_command ends the process, with EXIT_SUCCESS and without
    printing, for the line ".exit" and for no other; every other line is
    META_COMMAND_UNRECOGNIZED_COMMAND, and META_COMMAND_SUCCESS is never
    returned. *)
Theorem do_meta_command_exit (input_buffer : InputBuffer) (table : Table) :
  (c_chars (buffer input_buffer) = list_ascii_of_string ".exit" <->
   do_meta_command input_buffer table = Exits EmptyString EXIT_SUCCESS) /\
  (c_chars (buffer input_buffer) <> list_ascii_of_string ".exit" <->
   do_meta_command input_buffer table = Returns META_COMMAND_UNRECOGNIZED_COMMAND) /\
  do_meta_command input_buffer table <> Returns META_COMMAND_SUCCESS.
Proof.
  assert (Forall (fun c => char_code c <> 0) (list_ascii_of_string ".exit")) as Hexit
    by (repeat constructor; discriminate).
  pose proof (strcmp_eq _ _ (c_chars_nonzero (buffer input_buffer)) Hexit) as Hcmp.
  unfold do_meta_command.
  destruct (strcmp _ _ =? 0) eqn:Heq.
  - apply Z.eqb_eq in Heq. apply Hcmp in Heq.
    split; [|split]; [tauto| |discriminate].
    split; [intros Hne; contradiction|discriminate].
  - apply Z.eqb_neq in Heq.
    assert (c_chars (buffer input_buffer) <> list_ascii_of_string ".exit") as Hne
      by (intros Hc; apply Heq, Hcmp, Hc).
    split; [|split]; [|tauto|discriminate].
    split; [intros Hc; contradiction|discriminate].
Qed.

Lemma do_meta_command_exit_witness :
  do_meta_command (input_line ".exit") empty_table = Exits EmptyString EXIT_SUCCESS /\
  do_meta_command (input_line ".exit ") empty_table =
    Returns META_COMMAND_UNRECOGNIZED_COMMAND.
Proof.
  split.
  - apply (proj1 (do_meta_command_exit (input_line ".exit") empty_table)).
    reflexivity.
  - apply (proj1 (proj2 (do_meta_command_exit (input_line ".exit ") empty_table))).
    discriminate.
Defined.

Lemma read_line_newline (line rest : list ascii) :
  Forall (fun c => char_code c <> 10) line ->
  read_line (line ++ "010"%char :: rest) = (line ++ ["010"%char], rest).
Proof.
  intros Hline. induction Hline as [|c line Hc _ IH].
  - reflexivity.
  - cbn [app read_line]. rewrite (proj2 (Z.eqb_neq _ _) Hc), IH. reflexivity.
Qed.

Lemma read_line_no_newline (line : list ascii) :
  Forall (fun c => char_code c <> 10) line -> read_line line = (line, []).
Proof.
  intros Hline. induction Hline as [|c line Hc _ IH].
  - reflexivity.
  - cbn [read_line]. rewrite (proj2 (Z.eqb_neq _ _) Hc), IH. reflexivity.
Qed.

(** X20. read_input takes one line from the standard input and leaves the rest
    of it: the buffer holds the line without its newline, input_length is
    its length, and the buffer grows only if the line does not fit.  At
    the end of the input it prints its message and ends the process with
    EXIT_FAILURE.  A last line without a newline loses its last character,
    which is overwritten as if it were the newline. *)
Theorem read_input_line `{Libc} (line rest : list ascii) (input_buffer : InputBuffer) :
  Forall (fun c => char_code c <> 10) line ->
  read_input (line ++ "010"%char :: rest) input_buffer =
    Returns (rest,
             {| buffer := string_of_list_ascii line;
                buffer_length :=
                  if Z.of_nat (length line) + 2 <=? buffer_length input_buffer
                  then buffer_length input_buffer
                  else getline_size (Z.of_nat (length line) + 2);
                input_length := Z.of_nat (length line) |}) /\
  read_input [] input_buffer =
    Exits ("Error reading input" ++ String "010"%char EmptyString) EXIT_FAILURE /\
  forall c : ascii,
    char_code c <> 10 ->
    exists size,
      read_input (line ++ [c]) input_buffer =
      Returns ([],
               {| buffer := string_of_list_ascii line;
                  buffer_length := size;
                  input_length := Z.of_nat (length line) |}).
Proof.
  intros Hline. split; [|split].
  - unfold read_input, getline. rewrite (read_line_newline line rest Hline).
    destruct (line ++ ["010"%char]) as [|c chars] eqn:Hchars.
    { destruct line; discriminate Hchars. }
    rewrite <- Hchars. clear c chars Hchars.
    rewrite length_app. cbn [length].
    replace (Z.of_nat (length line + 1)) with (Z.of_nat (length line) + 1) by lia.
    rewrite (proj2 (Z.leb_gt _ _)) by lia.
    replace (Z.of_nat (length line) + 1 - 1) with (Z.of_nat (length line)) by lia.
    rewrite Nat2Z.id, take_app_length.
    replace (Z.of_nat (length line) + 1 + 1) with (Z.of_nat (length line) + 2) by lia.
    reflexivity.
  - reflexivity.
  - intros c Hc. unfold read_input, getline.
    rewrite (read_line_no_newline (line ++ [c]))
      by (apply Forall_app; split; [exact Hline|repeat constructor; exact Hc]).
    destruct (line ++ [c]) as [|c' chars] eqn:Hchars.
    { destruct line; discriminate Hchars. }
    rewrite <- Hchars. clear c' chars Hchars.
    rewrite length_app. cbn [length].
    replace (Z.of_nat (length line + 1)) with (Z.of_nat (length line) + 1) by lia.
    rewrite (proj2 (Z.leb_gt _ _)) by lia.
    replace (Z.of_nat (length line) + 1 - 1) with (Z.of_nat (length line)) by lia.
    rewrite Nat2Z.id, take_app_length.
    eexists. reflexivity.
Qed.

Lemma read_input_line_witness :
  @read_input (mkLibc (fun n => 2 * n)) (list_ascii_of_string "select" ++ "010"%char
                :: list_ascii_of_string ".exit") new_input_buffer =
  Returns (list_ascii_of_string ".exit",
           {| buffer := "select"; buffer_length := 16; input_length := 6 |}).
Proof.
  apply (proj1 (@read_input_line (mkLibc (fun n => 2 * n))
                  (list_ascii_of_string "select") (list_ascii_of_string ".exit")
                  new_input_buffer ltac:(repeat constructor; discriminate))).
Defined.
